(** * tc-memory-server: the knowledge store and its retention lifecycle

    A shallow embedding of [src/db.ts] (latest revision: classifier,
    retention score, save / search / merge / prune) and of the two entry
    points of a save, the [save_knowledge] tool and the REST route
    [POST /api/save] of [src/index.ts].

    Conventions of the model.
    - The table [tc_memory.knowledge] is a list of rows in physical order
      together with the next value of the [SERIAL] sequence.
    - JavaScript strings are [string]s; [toLowerCase] and [ILIKE] fold the
      case of the ASCII letters.
    - [confidence] (a JavaScript number, a [REAL] column) is a rational;
      the code only compares it and takes maxima, except inside the
      retention score, where it is injected into the reals.
    - [tc_memory.retention_score] is embedded over the real numbers: [EXP]
      and [LN] are [exp] and [ln], and the rounding of [REAL] arithmetic is
      not modelled.
    - Timestamps are microseconds since the epoch; [NOW()] is a parameter.
    - Of the failures of the storage engine, the model has those that a
      caller brings about with an id outside the range of [INT]
      ([deleteKnowledge_call], [mergeKnowledge_call]) or with a query that
      [to_tsquery] rejects ([searchKnowledge_call]); a lost connection and
      the overflow of a column are outside the model. *)

From Stdlib Require Import Bool Arith ZArith QArith Qreals Reals Lra Lia.
From Stdlib Require Import Ascii String List Permutation Sorted.
From Stdlib Require Import Qround.
Import ListNotations.

Local Open Scope string_scope.
Local Open Scope Z_scope.

(** ** JavaScript string primitives *)

Module Js.

(** [c.toLowerCase()] on one code unit (ASCII letters only). *)
Definition lower_ascii (c : ascii) : ascii :=
  let n := nat_of_ascii c in
  if (Nat.leb 65 n && Nat.leb n 90)%bool then ascii_of_nat (n + 32) else c.

(** [s.toLowerCase()] *)
Fixpoint toLowerCase (s : string) : string :=
  match s with
  | EmptyString => EmptyString
  | String c s' => String (lower_ascii c) (toLowerCase s')
  end.

(** [s.includes(sub)]: [sub] occurs in [s] at some position. *)
Fixpoint includes (s sub : string) : bool :=
  String.prefix sub s ||
  match s with
  | EmptyString => false
  | String _ s' => includes s' sub
  end.

(** [arr.includes(x)] on an array of strings. *)
Definition arr_includes (arr : list string) (x : string) : bool :=
  existsb (String.eqb x) arr.

(** [s.split(/[sep]+/)]: the pieces between the maximal runs of separator
    characters; a run at either end leaves an empty piece there, as in
    JavaScript. [cur] is the piece being read, [insep] tells whether the
    previous character was a separator. *)
Fixpoint split_go (is_sep : ascii -> bool) (cur : string) (insep : bool)
                  (s : string) : list string :=
  match s with
  | EmptyString => [cur]
  | String c s' =>
      if is_sep c then
        if insep then split_go is_sep EmptyString true s'
        else cur :: split_go is_sep EmptyString true s'
      else split_go is_sep (cur ++ String c EmptyString) false s'
  end.

Definition split (is_sep : ascii -> bool) (s : string) : list string :=
  split_go is_sep EmptyString false s.

(** The class [\s] restricted to ASCII: space, tab, line feed, vertical tab,
    form feed, carriage return. *)
Definition is_space (c : ascii) : bool :=
  let n := nat_of_ascii c in
  (Nat.eqb n 32 || (Nat.leb 9 n && Nat.leb n 13))%bool.

(** [s.trim()] *)
Fixpoint trimStart (s : string) : string :=
  match s with
  | EmptyString => EmptyString
  | String c s' => if is_space c then trimStart s' else s
  end.

Fixpoint rev_string (acc s : string) : string :=
  match s with
  | EmptyString => acc
  | String c s' => rev_string (String c acc) s'
  end.

Definition trim (s : string) : string :=
  rev_string EmptyString (trimStart (rev_string EmptyString (trimStart s))).

(** [[...new Set(xs)]]: the distinct elements in order of first occurrence. *)
Fixpoint dedup_go (seen : list string) (xs : list string) : list string :=
  match xs with
  | [] => []
  | x :: xs' =>
      if arr_includes seen x then dedup_go seen xs'
      else x :: dedup_go (x :: seen) xs'
  end.

Definition set_spread (xs : list string) : list string := dedup_go [] xs.

End Js.

(** ** Data model ([KnowledgeRow], [MemoryType]) *)

Inductive MemoryType : Type := core | architecture | pattern | decision.

Definition MemoryType_eqb (a b : MemoryType) : bool :=
  match a, b with
  | core, core | architecture, architecture
  | pattern, pattern | decision, decision => true
  | _, _ => false
  end.

Record KnowledgeRow : Type := mkRow {
  id : Z;
  topic : string;
  content : string;
  source : string;
  user_id : string;
  tags : list string;
  confidence : Q;
  access_count : Z;
  last_accessed : option Z;
  memory_type : MemoryType;
  created_at : Z;
  updated_at : Z
}.

(** ** Classifier ([classifyMemoryType]) *)

Definition classifyMemoryType (topic : string) (tags : list string) : MemoryType :=
  let t := Js.toLowerCase topic in
  let allTags := map Js.toLowerCase tags in
  if (Js.includes t "agent-rules" ||
      Js.includes t "sheet-ids" ||
      Js.includes t "api-key" ||
      Js.includes t "credentials" ||
      Js.includes t "deployment-id" ||
      Js.arr_includes allTags "core")%bool
  then core
  else if (Js.includes t "cms-api" ||
           Js.includes t "gas-webhook" ||
           Js.includes t "pricing" ||
           Js.includes t "stripe-api" ||
           Js.includes t "infrastructure" ||
           Js.includes t "architecture" ||
           Js.includes t "invoice-pdf" ||
           Js.arr_includes allTags "architecture")%bool
  then architecture
  else if (Js.arr_includes allTags "decision" || Js.includes t "decision")%bool
  then decision
  else pattern.


(** ** Retention score (SQL function [tc_memory.retention_score]) *)

(** [a && b] on text arrays: the arrays have an element in common. *)
Definition array_overlap (a b : list string) : bool :=
  existsb (Js.arr_includes b) a.

(** [EXTRACT(EPOCH FROM (later - earlier)) / 86400.0] *)
Definition epoch_days (later earlier : Z) : R :=
  (IZR (later - earlier) / 1000000 / 86400)%R.

(** [COALESCE(a, b)] *)
Definition coalesce {A : Type} (a : option A) (b : A) : A :=
  match a with Some x => x | None => b end.

(** The [CASE p_memory_type ... END] of the function; [core] falls in its
    [ELSE] branch (and never reaches it, see [retention_score]). *)
Definition decay_rate_of (p_memory_type : MemoryType) : R :=
  match p_memory_type with
  | architecture => 0.001
  | pattern => 0.005
  | decision => 0.01
  | core => 0.005
  end%R.

(** [LN] raises on a non-positive argument; [access_count] starts at 0 and
    is only incremented or summed, and [ln] is total. *)
Definition retention_score (now : Z) (p_confidence : Q) (p_access_count : Z)
    (p_last_accessed : option Z) (p_memory_type : MemoryType)
    (p_tags : list string) (p_created_at : Z) : R :=
  (if array_overlap p_tags ["protected"] then 1
   else if MemoryType_eqb p_memory_type core then Rmax (Q2R p_confidence) 0.9
   else
     let decay_rate := decay_rate_of p_memory_type in
     let days_since_access :=
       epoch_days now (coalesce p_last_accessed p_created_at) in
     let days_since_created := epoch_days now p_created_at in
     let importance := Q2R p_confidence * exp (- decay_rate * days_since_created) in
     let access_freq := Rmin (ln (IZR (p_access_count + 1)) / ln 50) 1 in
     let recency := Rmax (1 - days_since_access / 180) 0 in
     let score := importance * 0.4 + access_freq * 0.3 + recency * 0.3 in
     Rmax (Rmin score 1) 0)%R.

(** The call [retention_score(confidence, access_count, last_accessed,
    memory_type, tags, created_at)] made by every query on a row. *)
Definition row_score (now : Z) (r : KnowledgeRow) : R :=
  retention_score now (confidence r) (access_count r) (last_accessed r)
                  (memory_type r) (tags r) (created_at r).

(** ** The table *)

Record Db : Type := mkDb {
  rows : list KnowledgeRow;
  next_id : Z
}.

Definition empty_db : Db := mkDb [] 1.

Definition id_is (i : Z) (r : KnowledgeRow) : bool := id r =? i.

(** [SELECT * FROM tc_memory.knowledge WHERE id = $1], for an [i] that
    the [INT] column can hold (see [int_param_error] for the others). *)
Definition select_by_id (db : Db) (i : Z) : list KnowledgeRow :=
  filter (id_is i) (rows db).

(** [UPDATE ... SET ... WHERE cond]: rows keep their place. *)
Definition update_where (cond : KnowledgeRow -> bool)
    (set : KnowledgeRow -> KnowledgeRow) (rs : list KnowledgeRow) : list KnowledgeRow :=
  map (fun r => if cond r then set r else r) rs.

(** [DELETE FROM ... WHERE cond] *)
Definition delete_where (cond : KnowledgeRow -> bool) (rs : list KnowledgeRow)
    : list KnowledgeRow :=
  filter (fun r => negb (cond r)) rs.

(** Ids are a primary key drawn from the sequence. *)
Definition db_wf (db : Db) : Prop :=
  NoDup (map id (rows db)) /\ Forall (fun r => id r < next_id db) (rows db).

(** ** [saveKnowledge] *)

Record SaveArgs : Type := mkSaveArgs {
  a_topic : string;
  a_content : string;
  a_source : string;
  a_tags : list string;
  a_confidence : Q;
  a_userId : string;
  a_memoryType : option MemoryType
}.

(** [memoryType ?? classifyMemoryType(topic, tags)] *)
Definition resolvedType (a : SaveArgs) : MemoryType :=
  match a_memoryType a with
  | Some m => m
  | None => classifyMemoryType (a_topic a) (a_tags a)
  end.

Definition natural_key_is (a : SaveArgs) (r : KnowledgeRow) : bool :=
  (String.eqb (topic r) (a_topic a) && String.eqb (source r) (a_source a)
   && String.eqb (content r) (a_content a))%bool.

(** First statement: [SELECT id ... WHERE topic = $1 AND source = $2 AND
    content = $3 LIMIT 1]; [None] when [existing.rows] is empty. The
    statement has no [ORDER BY]: where several rows carry the triple, the
    store hands back the one its scan meets first, and an [UPDATE] may move
    a row in that scan. [select_may] admits every row that carries the
    triple; [save_select] is the scan that follows the list. *)
Definition select_may (db : Db) (a : SaveArgs) (existing : option Z) : Prop :=
  match existing with
  | Some i => exists r, In r (rows db) /\ natural_key_is a r = true /\ id r = i
  | None => forall r, In r (rows db) -> natural_key_is a r = false
  end.

Definition save_select (db : Db) (a : SaveArgs) : option Z :=
  option_map id (find (natural_key_is a) (rows db)).

(** The [SET] list of the [UPDATE] of [saveKnowledge]. *)
Definition save_set (now : Z) (a : SaveArgs) (r : KnowledgeRow) : KnowledgeRow :=
  mkRow (id r) (topic r) (a_content a) (source r) (a_userId a) (a_tags a)
        (a_confidence a) (access_count r) (last_accessed r) (resolvedType a)
        (created_at r) now.

(** The row made by the [INSERT]: the columns not listed take their
    defaults ([access_count] 0, [last_accessed] NULL, both dates [NOW()]). *)
Definition save_new_row (now : Z) (i : Z) (a : SaveArgs) : KnowledgeRow :=
  mkRow i (a_topic a) (a_content a) (a_source a) (a_userId a) (a_tags a)
        (a_confidence a) 0 None (resolvedType a) now now.

(** Second statement, chosen on the outcome of the first. *)
Definition save_write (now : Z) (db : Db) (a : SaveArgs) (existing : option Z)
    : Z * Db :=
  match existing with
  | Some i =>
      (i, mkDb (update_where (id_is i) (save_set now a) (rows db)) (next_id db))
  | None =>
      (next_id db,
       mkDb (rows db ++ [save_new_row now (next_id db) a]) (next_id db + 1))
  end.

(** One call run to its end with no other statement in between: the
    results it may have, whatever row the first statement hands back, and
    the result when the scan follows the list. *)
Definition save_may (now : Z) (db : Db) (a : SaveArgs) (res : Z * Db) : Prop :=
  exists existing, select_may db a existing /\ res = save_write now db a existing.

Definition saveKnowledge (now : Z) (db : Db) (a : SaveArgs) : Z * Db :=
  save_write now db a (save_select db a).

(** At most one id carries the triple of [a]. *)
Definition key_unique (db : Db) (a : SaveArgs) : Prop :=
  forall r r', In r (rows db) -> In r' (rows db) ->
    natural_key_is a r = true -> natural_key_is a r' = true -> id r = id r'.

(** *** Two calls in flight

    Each [await pool.query] hands control back to the event loop, so the
    statements of two calls interleave. A call is at one of three points. *)
Inductive SaveTask : Type :=
| SaveStart (a : SaveArgs)
| SaveSelected (a : SaveArgs) (existing : option Z)
| SaveDone (result : Z).

Definition save_step (now : Z) (db : Db) (t : SaveTask) : Db * SaveTask :=
  match t with
  | SaveStart a => (db, SaveSelected a (save_select db a))
  | SaveSelected a existing =>
      let '(i, db') := save_write now db a existing in (db', SaveDone i)
  | SaveDone i => (db, SaveDone i)
  end.

(** A schedule names, statement after statement, the call that runs next
    ([true]: the first call, [false]: the second). *)
Fixpoint run_saves (now : Z) (sched : list bool) (db : Db) (t1 t2 : SaveTask)
    : Db * SaveTask * SaveTask :=
  match sched with
  | [] => (db, t1, t2)
  | true :: sched' =>
      let '(db', t1') := save_step now db t1 in run_saves now sched' db' t1' t2
  | false :: sched' =>
      let '(db', t2') := save_step now db t2 in run_saves now sched' db' t1 t2'
  end.

(** ** [recordAccess], [deleteKnowledge] *)

Definition recordAccess (now : Z) (db : Db) (ids : list Z) : Db :=
  match ids with
  | [] => db
  | _ =>
      mkDb (update_where (fun r => existsb (Z.eqb (id r)) ids)
              (fun r => mkRow (id r) (topic r) (content r) (source r) (user_id r)
                          (tags r) (confidence r) (access_count r + 1) (Some now)
                          (memory_type r) (created_at r) (updated_at r))
              (rows db))
           (next_id db)
  end.

(** [deleteKnowledge(id)] once the store has taken the id (an [INT]);
    [deleteKnowledge_call] is the call with any integer. *)
Definition deleteKnowledge (db : Db) (i : Z) : bool * Db :=
  let rowCount := List.length (select_by_id db i) in
  (Nat.ltb 0 rowCount, mkDb (delete_where (id_is i) (rows db)) (next_id db)).

(** ** [mergeKnowledge] *)

(** [Math.max] on two numbers. *)
Definition Math_max (a b : Q) : Q := if Qle_bool a b then b else a.

(** The [SET] list of the [UPDATE] of [mergeKnowledge]. *)
Definition merge_set (now : Z) (content' : string) (combinedTags : list string)
    (combinedAccess : Z) (higherConfidence : Q) (r : KnowledgeRow) : KnowledgeRow :=
  mkRow (id r) (topic r) content' (source r) (user_id r) combinedTags
        higherConfidence combinedAccess (last_accessed r) (memory_type r)
        (created_at r) now.

(** The transaction either commits both statements or, on [ROLLBACK],
    leaves the table as it was. The two ids are ids that the store has
    taken ([INT]s); [mergeKnowledge_call] is the call with any integers. *)
Definition mergeKnowledge (now : Z) (db : Db) (keepId deleteId : Z)
    (mergedContent : option string) : bool * Db :=
  match select_by_id db keepId, select_by_id db deleteId with
  | keep :: _, del :: _ =>
      let combinedTags := Js.set_spread (tags keep ++ tags del) in
      let combinedAccess := access_count keep + access_count del in
      let higherConfidence := Math_max (confidence keep) (confidence del) in
      let content' := coalesce mergedContent (content keep) in
      let updated :=
        update_where (id_is keepId)
          (merge_set now content' combinedTags combinedAccess higherConfidence)
          (rows db) in
      (true, mkDb (delete_where (id_is deleteId) updated) (next_id db))
  | _, _ => (false, db)
  end.

(** ** Ids that the column cannot hold

    [id] is a [SERIAL], an [INT] of 32 bits. The parameter of
    [WHERE id = $1] is sent as the decimal text of the number and read as
    an [INT]: outside the range the statement fails with SQLSTATE 22003
    (integer out of range), and from 1e21 on, where JavaScript prints the
    number with an exponent, with 22P02 (invalid text). [deleteKnowledge]
    has no handler, and the [catch] of [mergeKnowledge] rolls back and
    throws again: either call then raises. [deleteKnowledge] and
    [mergeKnowledge] above are the calls on ids within the range; the
    definitions below take any integer. *)
Inductive Outcome (A : Type) : Type :=
| Returned (a : A)
| Raised (sqlstate : string).

Arguments Returned {A} a.
Arguments Raised {A} sqlstate.

Definition INT_MIN : Z := -2147483648.
Definition INT_MAX : Z := 2147483647.

(** What the store answers to [$1] read as an [INT]: nothing on a value of
    the type, an error otherwise. *)
Definition int_param_error (i : Z) : option string :=
  if ((INT_MIN <=? i) && (i <=? INT_MAX))%bool then None
  else if Z.abs i <? 10 ^ 21 then Some "22003"
  else Some "22P02".

Definition deleteKnowledge_call (db : Db) (i : Z) : Outcome bool * Db :=
  match int_param_error i with
  | Some e => (Raised e, db)
  | None => let '(found, db') := deleteKnowledge db i in (Returned found, db')
  end.

(** The two [SELECT]s run one after the other on the connection of the
    transaction; the first that fails settles the call. *)
Definition mergeKnowledge_call (now : Z) (db : Db) (keepId deleteId : Z)
    (mergedContent : option string) : Outcome bool * Db :=
  match int_param_error keepId, int_param_error deleteId with
  | Some e, _ => (Raised e, db)
  | None, Some e => (Raised e, db)
  | None, None =>
      let '(merged, db') := mergeKnowledge now db keepId deleteId mergedContent in
      (Returned merged, db')
  end.

(** ** Sorting and comparisons used by the queries *)

Definition Rltb (x y : R) : bool := if Rlt_dec x y then true else false.
Definition Rleb (x y : R) : bool := if Rle_dec x y then true else false.

(** [ORDER BY]: a stable insertion sort; [leb a b] says that [a] may stand
    before [b]. *)
Fixpoint insert_by {A : Type} (leb : A -> A -> bool) (x : A) (l : list A) : list A :=
  match l with
  | [] => [x]
  | y :: l' => if leb x y then x :: l else y :: insert_by leb x l'
  end.

Fixpoint sort_by {A : Type} (leb : A -> A -> bool) (l : list A) : list A :=
  match l with
  | [] => []
  | x :: l' => insert_by leb x (sort_by leb l')
  end.

(** ** [pruneStaleEntries] *)

Record ScoredRow : Type := mkScored {
  sc_id : Z;
  sc_topic : string;
  sc_source : string;
  sc_score : R
}.

Record PruneResult : Type := mkPruneResult {
  deleted : list ScoredRow;
  flagged : list ScoredRow
}.

(** [memory_type != 'core' AND NOT (tags && ARRAY['protected'])] *)
Definition prunable (r : KnowledgeRow) : bool :=
  (negb (MemoryType_eqb (memory_type r) core)
   && negb (array_overlap (tags r) ["protected"]))%bool.

Definition scored (now : Z) (r : KnowledgeRow) : ScoredRow :=
  mkScored (id r) (topic r) (source r) (row_score now r).

(** The candidates query: the inner [SELECT] scores the rows that pass its
    [WHERE], the outer one keeps [score < 0.3] and orders by score. *)
Definition prune_candidates (now : Z) (db : Db) : list ScoredRow :=
  sort_by (fun a b => Rleb (sc_score a) (sc_score b))
    (filter (fun c => Rltb (sc_score c) 0.3)
       (map (scored now) (filter prunable (rows db)))).

Definition pruneStaleEntries (now : Z) (db : Db) (dryRun : bool)
    : PruneResult * Db :=
  let candidates := prune_candidates now db in
  let toDelete := filter (fun r => Rltb (sc_score r) 0.1) candidates in
  let toFlag :=
    filter (fun r => (Rleb 0.1 (sc_score r) && Rltb (sc_score r) 0.3)%bool)
           candidates in
  let db' :=
    if (negb dryRun && Nat.ltb 0 (List.length toDelete))%bool then
      let ids := map sc_id toDelete in
      mkDb (delete_where (fun r => existsb (Z.eqb (id r)) ids) (rows db))
           (next_id db)
    else db in
  (mkPruneResult toDelete toFlag, db').

(** ** [searchKnowledge] *)

(** [text LIKE pattern] with the default escape character: [%] stands for
    any run of characters, [_] for any one character, a backslash takes the
    next character literally. *)
Fixpoint like_match (p t : string) {struct p} : bool :=
  match p with
  | EmptyString => match t with EmptyString => true | String _ _ => false end
  | String c p' =>
      if Ascii.eqb c "%" then
        (fix any (u : string) : bool :=
           like_match p' u ||
           match u with
           | EmptyString => false
           | String _ u' => any u'
           end) t
      else if Ascii.eqb c "_" then
        match t with
        | EmptyString => false
        | String _ t' => like_match p' t'
        end
      else if Ascii.eqb c "\" then
        match p' with
        | EmptyString => false
        | String e p'' =>
            match t with
            | EmptyString => false
            | String d t' => Ascii.eqb e d && like_match p'' t'
            end
        end
      else
        match t with
        | EmptyString => false
        | String d t' => Ascii.eqb c d && like_match p' t'
        end
  end.

(** [text ILIKE pattern] *)
Definition ilike (text pattern : string) : bool :=
  like_match (Js.toLowerCase pattern) (Js.toLowerCase text).

(** [text ILIKE ANY(patterns)] *)
Definition ilike_any (text : string) (patterns : list string) : bool :=
  existsb (ilike text) patterns.

(** The characters that [LIKE] reads as wildcards or as its escape. *)
Definition is_like_meta (c : ascii) : bool :=
  (Ascii.eqb c "%" || Ascii.eqb c "_" || Ascii.eqb c "\")%bool.

(** A word free of them. *)
Fixpoint plain_word (w : string) : bool :=
  match w with
  | EmptyString => true
  | String c w' => (negb (is_like_meta c) && plain_word w')%bool
  end.

(** The separators of the fallback, [/[\s\-_,;.]+/]. *)
Definition is_word_sep (c : ascii) : bool :=
  (Js.is_space c || Ascii.eqb c "-" || Ascii.eqb c "_" || Ascii.eqb c ","
   || Ascii.eqb c ";" || Ascii.eqb c ".")%bool.

(** [query.split(/[\s\-_,;.]+/).filter((w) => w.length >= 3)] *)
Definition fallback_words (query : string) : list string :=
  filter (fun w => Nat.leb 3 (String.length w)) (Js.split is_word_sep query).

(** [words.map((w) => `%${w}%`)] *)
Definition fallback_patterns (words : list string) : list string :=
  map (fun w => "%" ++ w ++ "%") words.

(** The [rank] column of the fallback: the patterns that the topic or the
    content matches, counted, over [cardinality($1)]. *)
Definition fallback_hits (patterns : list string) (k : KnowledgeRow) : nat :=
  List.length
    (filter (fun pat => (ilike (topic k) pat || ilike (content k) pat)%bool)
            patterns).

Definition fallback_rank (patterns : list string) (k : KnowledgeRow) : Q :=
  Z.of_nat (fallback_hits patterns k) # Pos.of_nat (List.length patterns).

(** [if (source)]: the filter is added for a non-empty string. *)
Definition source_given (src : option string) : option string :=
  match src with
  | Some s => if String.eqb s "" then None else Some s
  | None => None
  end.

(** [if (tags && tags.length > 0)] *)
Definition tags_given (tgs : option (list string)) : option (list string) :=
  match tgs with
  | Some (t :: l) => Some (t :: l)
  | _ => None
  end.

(** [source = $n] and [tags && $n], when the filter is given. *)
Definition source_ok (src : option string) (k : KnowledgeRow) : bool :=
  match source_given src with
  | Some s => String.eqb (source k) s
  | None => true
  end.

Definition tags_ok (tgs : option (list string)) (k : KnowledgeRow) : bool :=
  match tags_given tgs with
  | Some l => array_overlap (tags k) l
  | None => true
  end.

(** The [WHERE] of the fallback as the SQL text reads once the filters are
    appended: [topic ILIKE ANY($1) OR content ILIKE ANY($1) AND source = $2
    AND tags && $3]; [AND] binds tighter than [OR]. *)
Definition fallback_where (patterns : list string) (src : option string)
    (tgs : option (list string)) (k : KnowledgeRow) : bool :=
  (ilike_any (topic k) patterns
   || (ilike_any (content k) patterns && source_ok src k && tags_ok tgs k))%bool.

(** [ORDER BY rank DESC LIMIT Math.min(limit, 50)] *)
Definition order_limit (limit : nat) (l : list (KnowledgeRow * Q))
    : list (KnowledgeRow * Q) :=
  firstn (Nat.min limit 50) (sort_by (fun a b => Qle_bool (snd b) (snd a)) l).

Definition fallback_query (patterns : list string) (src : option string)
    (tgs : option (list string)) (limit : nat) (db : Db)
    : list (KnowledgeRow * Q) :=
  order_limit limit
    (map (fun k => (k, fallback_rank patterns k))
         (filter (fallback_where patterns src tgs) (rows db))).

Section FullText.

(** The full-text primitives of the storage engine:
    [search_vector @@ to_tsquery('german', q)] and
    [ts_rank(search_vector, to_tsquery('german', q))]. *)
Variable ts_match : string -> KnowledgeRow -> bool.
Variable ts_rank : string -> KnowledgeRow -> Q.

(** [query.split(/\s+/).filter(Boolean).map((w) => w + ":*").join(" & ")] *)
Definition tsQuery (query : string) : string :=
  String.concat " & "
    (map (fun w => w ++ ":*")
         (filter (fun w => negb (String.eqb w "")) (Js.split Js.is_space query))).

(** The first query, on a text [tsQuery query] that [to_tsquery] parses
    (see [searchKnowledge_call] for the others). *)
Definition primary_query (query : string) (src : option string)
    (tgs : option (list string)) (limit : nat) (db : Db)
    : list (KnowledgeRow * Q) :=
  order_limit limit
    (map (fun k => (k, ts_rank (tsQuery query) k))
         (filter (fun k => (ts_match (tsQuery query) k
                            && source_ok src k && tags_ok tgs k)%bool)
                 (rows db))).

(** The rows returned, each with its [rank]. The access counts of the
    rows returned are bumped by [recordAccess] after the response, on a
    promise nobody awaits. *)
Definition searchKnowledge (query : string) (src : option string)
    (tgs : option (list string)) (limit : nat) (db : Db)
    : list (KnowledgeRow * Q) :=
  let result := primary_query query src tgs limit db in
  if (Nat.eqb (List.length result) 0
      && Nat.leb 2 (String.length (Js.trim query)))%bool then
    let words := fallback_words query in
    match words with
    | [] => []
    | _ => fallback_query (fallback_patterns words) src tgs limit db
    end
  else result.

End FullText.

Section FullTextCall.

(** [to_tsquery('german', q)] parses [q] before it matches anything: on a
    text that is no query (an operator or a parenthesis out of place, as a
    word of the caller may bring) the statement fails with SQLSTATE 42601
    (syntax error). [tsquery_ok q] tells whether [q] parses. Nothing
    catches the error in [searchKnowledge]: the call raises, and the
    fallback does not run. [searchKnowledge] above is the call on a query
    that parses. *)
Variable tsquery_ok : string -> bool.
Variable ts_match : string -> KnowledgeRow -> bool.
Variable ts_rank : string -> KnowledgeRow -> Q.

Definition searchKnowledge_call (query : string) (src : option string)
    (tgs : option (list string)) (limit : nat) (db : Db)
    : Outcome (list (KnowledgeRow * Q)) :=
  if tsquery_ok (tsQuery query) then
    Returned (searchKnowledge ts_match ts_rank query src tgs limit db)
  else Raised "42601".

End FullTextCall.

(** ** Entry points of a save *)

(** The arguments of a save as the caller sends them; an absent field is
    [None]. *)
Record SaveRequest : Type := mkSaveRequest {
  req_topic : option string;
  req_content : option string;
  req_source : option string;
  req_tags : option (list string);
  req_confidence : option Q;
  req_user : option string;
  req_memory_type : option MemoryType
}.

Definition VALID_SOURCES : list string :=
  ["website"; "godot-pay"; "godot-tablet"; "godot-mgmt";
   "gas"; "devops"; "stripe"; "infrastructure"; "unknown"].

(** [z.string().min(lo).max(hi)] on a required field. *)
Definition z_string (lo hi : nat) (v : option string) : bool :=
  match v with
  | Some s => (Nat.leb lo (String.length s) && Nat.leb (String.length s) hi)%bool
  | None => false
  end.

(** [.optional()] *)
Definition z_optional {A : Type} (check : A -> bool) (v : option A) : bool :=
  match v with
  | Some x => check x
  | None => true
  end.

(** [saveKnowledgeTool.config.inputSchema] *)
Definition inputSchema (req : SaveRequest) : bool :=
  (z_string 1 100 (req_topic req)
   && z_string 1 2000 (req_content req)
   && match req_source req with
      | Some s => Js.arr_includes VALID_SOURCES s
      | None => false
      end
   && z_optional (fun l : list string => Nat.leb (List.length l) 10) (req_tags req)
   && z_optional (fun c : Q => (Qle_bool 0 c && Qle_bool c 1)%bool)
                 (req_confidence req)
   && z_optional (fun u : string => Nat.leb (String.length u) 50) (req_user req))%bool.

(** What both entry points pass to [saveKnowledge]:
    [tags ?? []], [confidence ?? 1.0], [user ?? "unknown"]. *)
Definition save_args_of (tp ct src : string) (req : SaveRequest) : SaveArgs :=
  mkSaveArgs tp ct src (coalesce (req_tags req) [])
             (coalesce (req_confidence req) 1%Q)
             (coalesce (req_user req) "unknown") (req_memory_type req).

Inductive Reply : Type :=
| Saved (id : Z)
| InvalidArguments
| Status400 (error : string).

(** The [save_knowledge] tool: the server checks the arguments against
    [inputSchema] and calls the handler on success only. *)
Definition saveKnowledgeTool (now : Z) (db : Db) (req : SaveRequest) : Reply * Db :=
  if inputSchema req then
    match req_topic req, req_content req, req_source req with
    | Some tp, Some ct, Some src =>
        let '(i, db') := saveKnowledge now db (save_args_of tp ct src req) in
        (Saved i, db')
    | _, _, _ => (InvalidArguments, db)
    end
  else (InvalidArguments, db).

(** [!x] on a string field: absent or empty. *)
Definition js_not (v : option string) : bool :=
  match v with
  | Some s => String.eqb s ""
  | None => true
  end.

(** [app.post("/api/save", ...)] *)
Definition api_save (now : Z) (db : Db) (req : SaveRequest) : Reply * Db :=
  if (js_not (req_topic req) || js_not (req_content req)
      || js_not (req_source req))%bool then
    (Status400 "Missing required fields: topic, content, source", db)
  else
    match req_topic req, req_content req, req_source req with
    | Some tp, Some ct, Some src =>
        let '(i, db') := saveKnowledge now db (save_args_of tp ct src req) in
        (Saved i, db')
    | _, _, _ => (Status400 "Missing required fields: topic, content, source", db)
    end.

(** ** [authMiddleware] ([src/auth.ts]) *)

(** [s.slice(n)] for a non-negative [n]: [s] without its first [n]
    characters. *)
Fixpoint slice (n : nat) (s : string) : string :=
  match n, s with
  | O, _ => s
  | S n', String _ s' => slice n' s'
  | S _, EmptyString => EmptyString
  end.

(** [s.startsWith(p)] *)
Definition startsWith (s p : string) : bool := String.prefix p s.

Inductive AuthResult : Type :=
| Next
| Status401 (error : string).

(** [TOKEN] is [process.env.TC_MEMORY_TOKEN], absent when the variable is
    not set; [authorization] is [req.headers.authorization]. *)
Definition authMiddleware (TOKEN : option string) (path : string)
    (authorization : option string) : AuthResult :=
  if String.eqb path "/health" then Next
  else
    match authorization with
    | None => Status401 "Missing or invalid Authorization header"
    | Some authHeader =>
        if (String.eqb authHeader "" || negb (startsWith authHeader "Bearer "))%bool
        then Status401 "Missing or invalid Authorization header"
        else
          let token := slice 7 authHeader in
          match TOKEN with
          | Some t =>
              if String.eqb token t then Next else Status401 "Invalid token"
          | None => Status401 "Invalid token"
          end
    end.

(** The row that [recordAccess] writes over a row it touches. *)
Definition accessed (now : Z) (r : KnowledgeRow) : KnowledgeRow :=
  mkRow (id r) (topic r) (content r) (source r) (user_id r) (tags r)
        (confidence r) (access_count r + 1) (Some now) (memory_type r)
        (created_at r) (updated_at r).

(** The constraints of [saveKnowledgeTool.config.inputSchema], read on a
    stored row. *)
Definition row_in_schema (r : KnowledgeRow) : Prop :=
  (1 <= String.length (topic r) <= 100)%nat
  /\ (1 <= String.length (content r) <= 2000)%nat
  /\ In (source r) VALID_SOURCES
  /\ (List.length (tags r) <= 10)%nat
  /\ (0 <= confidence r <= 1)%Q
  /\ (String.length (user_id r) <= 50)%nat.

(** A request that passes the schema. *)
Definition good_request : SaveRequest :=
  mkSaveRequest (Some "pricing-v2") (Some "Prices rise in May")
                (Some "website") (Some ["pricing"]) (Some (9 # 10))
                (Some "cpg") None.

(** ** [getHealthReport] *)

(** [GROUP BY]: the groups in order of first appearance, each with its
    members in table order. *)
Fixpoint group_add {K A : Type} (eqb : K -> K -> bool) (key : A -> K) (x : A)
    (groups : list (K * list A)) : list (K * list A) :=
  match groups with
  | [] => [(key x, [x])]
  | (k, members) :: rest =>
      if eqb k (key x) then (k, (members ++ [x])%list) :: rest
      else (k, members) :: group_add eqb key x rest
  end.

Definition group_by {K A : Type} (eqb : K -> K -> bool) (key : A -> K)
    (l : list A) : list (K * list A) :=
  fold_left (fun groups x => group_add eqb key x groups) l [].

(** [SELECT key, COUNT AS count ... GROUP BY key ORDER BY count DESC] *)
Definition count_by {K : Type} (eqb : K -> K -> bool) (key : KnowledgeRow -> K)
    (rs : list KnowledgeRow) : list (K * nat) :=
  sort_by (fun a b => Nat.leb (snd b) (snd a))
    (map (fun g => (fst g, List.length (snd g))) (group_by eqb key rs)).

Inductive Bucket : Type := healthy | aging | stale | decay.

Definition Bucket_eqb (a b : Bucket) : bool :=
  match a, b with
  | healthy, healthy | aging, aging | stale, stale | decay, decay => true
  | _, _ => false
  end.

(** The [CASE] of the score distribution. *)
Definition score_bucket (score : R) : Bucket :=
  if Rleb 0.7 score then healthy
  else if Rleb 0.3 score then aging
  else if Rleb 0.1 score then stale
  else decay.

(** [MIN(score)] of a group. *)
Definition group_min (g : Bucket * list R) : R :=
  match snd g with
  | [] => 0%R
  | s :: l => fold_right Rmin s l
  end.

(** [WITH scores AS ... SELECT CASE ... END AS bucket, COUNT AS count
    ... GROUP BY bucket ORDER BY MIN(score) DESC] *)
Definition score_distribution_query (now : Z) (db : Db) : list (Bucket * nat) :=
  map (fun g => (fst g, List.length (snd g)))
    (sort_by (fun a b => Rleb (group_min b) (group_min a))
       (group_by Bucket_eqb score_bucket (map (row_score now) (rows db)))).

Record NeverAccessed : Type := mkNeverAccessed {
  na_id : Z;
  na_topic : string;
  na_source : string;
  na_created_at : Z
}.

(** [WHERE access_count = 0 ORDER BY created_at ASC LIMIT 10] *)
Definition never_accessed_query (db : Db) : list NeverAccessed :=
  map (fun r => mkNeverAccessed (id r) (topic r) (source r) (created_at r))
    (firstn 10
       (sort_by (fun a b => Z.leb (created_at a) (created_at b))
          (filter (fun r => access_count r =? 0) (rows db)))).

Record TopAccessed : Type := mkTopAccessed {
  ta_id : Z;
  ta_topic : string;
  ta_access_count : Z;
  ta_memory_type : MemoryType
}.

(** [ORDER BY access_count DESC LIMIT 10] *)
Definition top_accessed_query (db : Db) : list TopAccessed :=
  map (fun r => mkTopAccessed (id r) (topic r) (access_count r) (memory_type r))
    (firstn 10
       (sort_by (fun a b => Z.leb (access_count b) (access_count a)) (rows db))).

Record StaleCandidate : Type := mkStale {
  st_id : Z;
  st_topic : string;
  st_source : string;
  st_memory_type : MemoryType;
  st_score : R
}.

(** The stale candidates: the candidates query of the sweep with the
    memory type added and [LIMIT 10]. *)
Definition stale_candidates_query (now : Z) (db : Db) : list StaleCandidate :=
  firstn 10
    (sort_by (fun a b => Rleb (st_score a) (st_score b))
       (filter (fun c => Rltb (st_score c) 0.3)
          (map (fun r => mkStale (id r) (topic r) (source r) (memory_type r)
                                 (row_score now r))
               (filter prunable (rows db))))).

Record HealthReport : Type := mkHealthReport {
  total : nat;
  by_type : list (MemoryType * nat);
  by_source : list (string * nat);
  score_distribution : list (Bucket * nat);
  never_accessed : list NeverAccessed;
  top_accessed : list TopAccessed;
  stale_candidates : list StaleCandidate
}.

(** The seven queries read the same table. *)
Definition getHealthReport (now : Z) (db : Db) : HealthReport :=
  mkHealthReport
    (List.length (rows db))
    (count_by MemoryType_eqb memory_type (rows db))
    (count_by String.eqb source (rows db))
    (score_distribution_query now db)
    (never_accessed_query db)
    (top_accessed_query db)
    (stale_candidates_query now db).

(** ** [getRecentChanges] *)

(** [x < y] on numbers. *)
Definition Qltb (x y : Q) : bool := negb (Qle_bool y x).

(** [created_at > NOW() - INTERVAL '1 hour' * $1], in microseconds (the
    product is taken exactly, not rounded to the microsecond). *)
Definition in_window (now : Z) (hours : Q) (r : KnowledgeRow) : bool :=
  Qltb (inject_Z now - hours * inject_Z 3600000000) (inject_Z (created_at r)).

Definition getRecentChanges (now : Z) (hours : Q) (src : option string)
    (limit : nat) (db : Db) : list KnowledgeRow :=
  firstn (Nat.min limit 50)
    (sort_by (fun a b => Z.leb (created_at b) (created_at a))
       (filter (fun r => (in_window now hours r && source_ok src r)%bool)
               (rows db))).

(** ** [findDuplicates] *)

Record DuplicatePair : Type := mkDuplicatePair {
  id_a : Z;
  topic_a : string;
  id_b : Z;
  topic_b : string;
  similarity : Q
}.

(** [ROUND(x::numeric, 3)]: to three decimals, halves away from zero. *)
Definition round3 (x : Q) : Q :=
  if Qle_bool 0 x then Qfloor (x * 1000 + (1 # 2)) # 1000
  else - (Qfloor (- x * 1000 + (1 # 2)) # 1000).

(** [topic || ' ' || content] *)
Definition topic_and_content (r : KnowledgeRow) : string :=
  topic r ++ " " ++ content r.

(** [FROM knowledge a JOIN knowledge b ON a.id < b.id] *)
Definition join_lower_id (rs : list KnowledgeRow) : list (KnowledgeRow * KnowledgeRow) :=
  flat_map (fun a => map (fun b => (a, b)) (filter (fun b => id a <? id b) rs)) rs.

Section Trigram.

(** [similarity(text, text)] of the extension pg_trgm. *)
Variable trgm_similarity : string -> string -> Q.

Definition pair_similarity (ab : KnowledgeRow * KnowledgeRow) : Q :=
  trgm_similarity (topic_and_content (fst ab)) (topic_and_content (snd ab)).

(** [ORDER BY similarity] names the output column, the rounded value. *)
Definition findDuplicates (threshold : Q) (db : Db) : list DuplicatePair :=
  firstn 50
    (sort_by (fun p q => Qle_bool (similarity q) (similarity p))
       (map (fun ab => mkDuplicatePair (id (fst ab)) (topic (fst ab))
                                       (id (snd ab)) (topic (snd ab))
                                       (round3 (pair_similarity ab)))
            (filter (fun ab => Qltb threshold (pair_similarity ab))
                    (join_lower_id (rows db))))).

End Trigram.

(** ** The backfill that ends [initDb] *)

Definition set_last_accessed (v : option Z) (r : KnowledgeRow) : KnowledgeRow :=
  mkRow (id r) (topic r) (content r) (source r) (user_id r) (tags r)
        (confidence r) (access_count r) v (memory_type r)
        (created_at r) (updated_at r).

Definition set_memory_type (m : MemoryType) (r : KnowledgeRow) : KnowledgeRow :=
  mkRow (id r) (topic r) (content r) (source r) (user_id r) (tags r)
        (confidence r) (access_count r) (last_accessed r) m
        (created_at r) (updated_at r).

Definition backfill_core_patterns : list string :=
  ["%agent-rules%"; "%sheet-ids%"; "%api-key%"; "%credentials%";
   "%deployment-id%"].

Definition backfill_architecture_patterns : list string :=
  ["%cms-api%"; "%gas-webhook%"; "%pricing%"; "%stripe-api%";
   "%infrastructure%"; "%architecture%"; "%invoice-pdf%"].

Definition last_accessed_is_null (r : KnowledgeRow) : bool :=
  match last_accessed r with
  | None => true
  | Some _ => false
  end.

(** The three [UPDATE]s that [initDb] runs, at every start, once the
    schema is in place:
    [SET last_accessed = updated_at WHERE last_accessed IS NULL], then
    [SET memory_type = 'core' WHERE memory_type = 'pattern' AND (topic
    ILIKE ... )], then the same for ['architecture']. *)
Definition initDb_backfill (db : Db) : Db :=
  let rows1 :=
    update_where last_accessed_is_null
      (fun r => set_last_accessed (Some (updated_at r)) r) (rows db) in
  let rows2 :=
    update_where
      (fun r => (MemoryType_eqb (memory_type r) pattern
                 && ilike_any (topic r) backfill_core_patterns)%bool)
      (set_memory_type core) rows1 in
  let rows3 :=
    update_where
      (fun r => (MemoryType_eqb (memory_type r) pattern
                 && ilike_any (topic r) backfill_architecture_patterns)%bool)
      (set_memory_type architecture) rows2 in
  mkDb rows3 (next_id db).

(** ** [initDbWithRetry] ([src/index.ts]) *)

Inductive Settled : Type := Resolved | Rejected.

(** The [for] loop from [attempt] on, with [n] turns left before
    [attempt <= maxRetries] fails. [initDb k] tells whether the [k]-th call
    of [initDb] succeeds. The result lists the attempts made. *)
Fixpoint initDbWithRetry_from (initDb : nat -> bool) (maxRetries : nat)
    (n attempt : nat) : list nat * Settled :=
  match n with
  | O => ([], Resolved)
  | S n' =>
      if initDb attempt then ([attempt], Resolved)
      else if Nat.ltb attempt maxRetries then
        let '(l, o) := initDbWithRetry_from initDb maxRetries n' (S attempt) in
        (attempt :: l, o)
      else ([attempt], Rejected)
  end.

Definition initDbWithRetry (initDb : nat -> bool) (maxRetries : nat)
    : list nat * Settled :=
  initDbWithRetry_from initDb maxRetries maxRetries 1.

(** The same backfill told with the classifier: the last access of a row
    never accessed becomes its last update, and a pattern becomes what
    [classifyMemoryType] makes of its topic alone when that is core or
    architecture. *)
Definition backfilled (r : KnowledgeRow) : KnowledgeRow :=
  mkRow (id r) (topic r) (content r) (source r) (user_id r) (tags r)
        (confidence r) (access_count r)
        (Some (coalesce (last_accessed r) (updated_at r)))
        (match memory_type r with
         | pattern =>
             match classifyMemoryType (topic r) [] with
             | core => core
             | architecture => architecture
             | _ => pattern
             end
         | m => m
         end)
        (created_at r) (updated_at r).

(** ** [listTopics] *)

Record TopicSummary : Type := mkTopicSummary {
  t_topic : string;
  count : nat;
  last_updated : Z;
  sources : list string;
  avg_retention : R
}.

(** [MAX(updated_at)] of a group. *)
Definition max_updated (members : list KnowledgeRow) : Z :=
  match members with
  | [] => 0
  | m :: l => fold_right Z.max (updated_at m) (map updated_at l)
  end.

(** [AVG(x)] *)
Definition avg (l : list R) : R :=
  (fold_right Rplus 0 l / INR (List.length l))%R.

(** [ROUND(x::numeric, 2)]: to two decimals, halves away from zero. *)
Definition round2 (x : R) : R :=
  if Rle_dec 0 x then (IZR (Int_part (x * 100 + / 2)) / 100)%R
  else (- (IZR (Int_part (- x * 100 + / 2)) / 100))%R.

(** One row of the answer; [array_agg(DISTINCT source)] is given in order
    of first appearance. *)
Definition topic_summary (now : Z) (g : string * list KnowledgeRow) : TopicSummary :=
  mkTopicSummary (fst g) (List.length (snd g)) (max_updated (snd g))
                 (Js.set_spread (map source (snd g)))
                 (round2 (avg (map (row_score now) (snd g)))).

(** [SELECT topic, ... FROM knowledge [WHERE source = $1] GROUP BY topic
    ORDER BY MAX(updated_at) DESC] *)
Definition listTopics (now : Z) (src : option string) (db : Db) : list TopicSummary :=
  sort_by (fun a b => Z.leb (last_updated b) (last_updated a))
    (map (topic_summary now)
         (group_by String.eqb topic (filter (source_ok src) (rows db)))).

(** ** Sequences of calls *)

(** The calls that change the table. *)
Inductive Op : Type :=
| OpSave (now : Z) (a : SaveArgs)
| OpMerge (now : Z) (keepId deleteId : Z) (mergedContent : option string)
| OpPrune (now : Z) (dryRun : bool)
| OpDelete (i : Z)
| OpAccess (now : Z) (ids : list Z)
| OpBackfill.

Definition apply_op (db : Db) (op : Op) : Db :=
  match op with
  | OpSave now a => snd (saveKnowledge now db a)
  | OpMerge now keepId deleteId mergedContent =>
      snd (mergeKnowledge now db keepId deleteId mergedContent)
  | OpPrune now dryRun => snd (pruneStaleEntries now db dryRun)
  | OpDelete i => snd (deleteKnowledge db i)
  | OpAccess now ids => recordAccess now db ids
  | OpBackfill => initDb_backfill db
  end.

(** The table after the calls [ops], run one after the other on the empty
    table. *)
Definition run_ops (ops : list Op) : Db := fold_left apply_op ops empty_db.

(** ** The rule sets and the formula in the words of the specification *)

Definition core_topics : list string :=
  ["agent-rules"; "sheet-ids"; "api-key"; "credentials"; "deployment-id"].

Definition architecture_topics : list string :=
  ["cms-api"; "gas-webhook"; "pricing"; "stripe-api"; "infrastructure";
   "architecture"; "invoice-pdf"].



(** [clamp(x, lo, hi)] *)
Definition clamp (x lo hi : R) : R := Rmin (Rmax x lo) hi.

(** Steps 5 to 8 of the scorer:
    [importance = confidence * exp(-decayRate * daysSinceCreated)],
    [accessFrequency = min(ln(accessCount+1) / ln(50), 1.0)],
    [recency = max(1.0 - daysSinceAccess/180, 0.0)],
    [score = clamp(0.4*importance + 0.3*accessFrequency + 0.3*recency, 0, 1)]. *)
Definition spec_blend (decayRate confidence : R) (accessCount : Z)
    (daysSinceCreated daysSinceAccess : R) : R :=
  (clamp (0.4 * (confidence * exp (- decayRate * daysSinceCreated))
          + 0.3 * Rmin (ln (IZR accessCount + 1) / ln 50) 1
          + 0.3 * Rmax (1 - daysSinceAccess / 180) 0) 0 1)%R.

(** The candidate set of the sweep: the rows that are neither core nor
    tagged "protected". *)
Definition candidate_in (db : Db) (r : KnowledgeRow) : Prop :=
  In r (rows db) /\ memory_type r <> core /\ ~ In "protected" (tags r).

(** ** Sample tables *)

Definition row_a : KnowledgeRow :=
  mkRow 1 "pricing-v2" "Prices rise in May" "website" "cpg"
        ["pricing"; "draft"] (1 # 2) 3 (Some 100) architecture 10 20.

Definition row_b : KnowledgeRow :=
  mkRow 2 "pricing v2" "Prices rise in May." "gas" "unknown"
        ["draft"; "2024"] (4 # 5) 4 None pattern 30 40.

Definition two_rows_db : Db := mkDb [row_a; row_b] 3.

(** The example save of the specification. *)
Definition stripe_save : SaveArgs :=
  mkSaveArgs "stripe-config" "Webhook secret rotated" "stripe" ["core"] 1
             "unknown" None.

(** Three saves and a merge that leave one triple on two rows: the merge
    gives row 2 the content of row 1. *)
Definition may_prices : SaveArgs :=
  mkSaveArgs "pricing" "Prices rise in May" "website" ["2024"] 1 "unknown" None.

Definition june_prices : SaveArgs :=
  mkSaveArgs "pricing" "Prices rise in June" "website" [] 1 "unknown" None.

Definition price_note : SaveArgs :=
  mkSaveArgs "pricing-note" "No, in May" "website" [] 1 "unknown" None.

Definition twin_calls : list Op :=
  [OpSave 1 may_prices; OpSave 2 june_prices; OpSave 3 price_note;
   OpMerge 4 2 3 (Some "Prices rise in May")].

(** A table for the sweep, read 1000 days after its oldest rows were made:
    a decision of little confidence, never read; an architecture entry 200
    days old, never read; a note tagged "protected"; the agent rules. *)
Definition day : Z := 86400 * 1000000.

Definition stale_row : KnowledgeRow :=
  mkRow 1 "tabs or spaces" "Tabs" "website" "unknown" [] (1 # 10) 0 None
        decision 0 0.

Definition aging_row : KnowledgeRow :=
  mkRow 2 "cms-api" "Endpoints of the CMS" "website" "unknown" ["api"] (1 # 2)
        0 None architecture (800 * day) (800 * day).

Definition pinned_row : KnowledgeRow :=
  mkRow 3 "scratch" "Keep" "devops" "unknown" ["protected"] 0 0 None
        pattern 0 0.

Definition rules_row : KnowledgeRow :=
  mkRow 4 "agent-rules" "Ask first" "devops" "unknown" [] 0 0 None core 0 0.

Definition sweep_db : Db := mkDb [stale_row; aging_row; pinned_row; rules_row] 5.

(** A save that breaks the constraints on source and confidence. *)
Definition bad_request : SaveRequest :=
  mkSaveRequest (Some "pricing") (Some "Prices rise in May")
                (Some "not-a-project") None (Some (5 # 1)) None None.

(** * Properties *)

(** ** JavaScript primitives *)

Lemma arr_includes_In (l : list string) (x : string) :
  Js.arr_includes l x = true <-> In x l.
Proof.
  unfold Js.arr_includes. rewrite existsb_exists. split.
  - intros (y & Hy & E). apply String.eqb_eq in E. now subst.
  - intros H. exists x. split; [assumption | apply String.eqb_refl].
Qed.

Lemma arr_includes_false (l : list string) (x : string) :
  Js.arr_includes l x = false <-> ~ In x l.
Proof.
  rewrite <- arr_includes_In. destruct (Js.arr_includes l x); intuition congruence.
Qed.





Lemma overlap_singleton (l : list string) (x : string) :
  array_overlap l [x] = true <-> In x l.
Proof.
  unfold array_overlap. rewrite existsb_exists. split.
  - intros (y & Hy & E). apply arr_includes_In in E.
    destruct E as [E | []]. now subst.
  - intros H. exists x. split; [assumption |].
    apply arr_includes_In. now left.
Qed.

(** ** Classifier *)

(** The three tests of [classifyMemoryType] as single booleans. *)
Lemma classify_unfold (tp : string) (tgs : list string) :
  let t := Js.toLowerCase tp in
  let lt := map Js.toLowerCase tgs in
  classifyMemoryType tp tgs =
  if (existsb (Js.includes t) core_topics || Js.arr_includes lt "core")%bool
  then core
  else if (existsb (Js.includes t) architecture_topics
           || Js.arr_includes lt "architecture")%bool
  then architecture
  else if (Js.arr_includes lt "decision" || Js.includes t "decision")%bool
  then decision
  else pattern.
Proof.
  intros t lt. unfold classifyMemoryType. fold t. fold lt.
  unfold core_topics, architecture_topics. simpl existsb.
  rewrite !orb_false_r, !orb_assoc. reflexivity.
Qed.






(** ** Retention score *)

Lemma clamp_unit (x : R) : (Rmax (Rmin x 1) 0 = clamp x 0 1)%R.
Proof.
  unfold clamp, Rmax, Rmin.
  repeat (destruct (Rle_dec _ _)); lra.
Qed.

Lemma clamp_unit_range (x : R) : (0 <= clamp x 0 1 <= 1)%R.
Proof.
  unfold clamp, Rmax, Rmin.
  repeat (destruct (Rle_dec _ _)); lra.
Qed.

(** The blend computed by the SQL function, for a type that decays. *)
Lemma retention_score_blend now cf ac la mt tgs created :
  ~ In "protected" tgs -> mt <> core ->
  retention_score now cf ac la mt tgs created
  = spec_blend (decay_rate_of mt) (Q2R cf) ac (epoch_days now created)
               (epoch_days now (coalesce la created)).
Proof.
  intros Hp Hm. unfold retention_score.
  destruct (array_overlap tgs ["protected"]) eqn:E.
  { apply overlap_singleton in E. contradiction. }
  destruct mt; simpl MemoryType_eqb; cbv iota; try congruence;
    cbv zeta; rewrite clamp_unit; unfold spec_blend;
    rewrite plus_IZR; f_equal; ring.
Qed.

Lemma clamp_unit_id (x : R) : (0 <= x <= 1 -> clamp x 0 1 = x)%R.
Proof.
  unfold clamp, Rmax, Rmin.
  repeat (destruct (Rle_dec _ _)); lra.
Qed.

(** C1. The retention score follows the algorithm of the specification:
    1.0 when the tags contain "protected", whatever the other fields;
    otherwise max(confidence, 0.9) for a core entry; otherwise the clamped
    blend 0.4 * confidence * exp(-decayRate * daysSinceCreated)
    + 0.3 * min(ln(accessCount+1)/ln(50), 1) + 0.3 * max(1 - daysSinceAccess/180, 0)
    with decay rate 0.001 for architecture, 0.005 for pattern and 0.01 for
    decision, the days since access being the days since creation for an
    entry never accessed. The days are the microseconds between the two
    timestamps over 1000000 and over 86400. With confidence in [0,1] and a
    non-negative access count the score lies in [0,1]. Two entries created
    180 days ago with confidence 1 and never counted: the pattern never
    accessed scores 0.4 * exp(-0.9), the architecture entry accessed 90
    days ago scores 0.4 * exp(-0.18) + 0.15. (Arithmetic is that of the
    real numbers.) *)
Theorem retention_score_spec :
  ((forall (now : Z) (cf : Q) (ac : Z) (la : option Z) (mt : MemoryType)
          (tgs : list string) (created : Z),
    let score := retention_score now cf ac la mt tgs created in
    let daysSinceCreated := IZR (now - created) / 1000000 / 86400 in
    let daysSinceAccess :=
      match la with
      | Some accessed => IZR (now - accessed) / 1000000 / 86400
      | None => daysSinceCreated
      end in
    (In "protected" tgs -> score = 1)
    /\ (~ In "protected" tgs -> mt = core -> score = Rmax (Q2R cf) 0.9)
    /\ (~ In "protected" tgs -> mt = architecture ->
        score = spec_blend 0.001 (Q2R cf) ac daysSinceCreated daysSinceAccess)
    /\ (~ In "protected" tgs -> mt = pattern ->
        score = spec_blend 0.005 (Q2R cf) ac daysSinceCreated daysSinceAccess)
    /\ (~ In "protected" tgs -> mt = decision ->
        score = spec_blend 0.01 (Q2R cf) ac daysSinceCreated daysSinceAccess)
    /\ ((0 <= cf <= 1)%Q -> (0 <= ac)%Z -> 0 <= score <= 1))
  /\ retention_score (180 * 86400 * 1000000) 1 0 None pattern [] 0
     = 0.4 * exp (- 0.9)
  /\ retention_score (180 * 86400 * 1000000) 1 0
       (Some (90 * 86400 * 1000000)%Z) architecture ["draft"] 0
     = 0.4 * exp (- 0.18) + 0.15)%R.
Proof.
  split; [| split].
  - intros now cf ac la mt tgs created score dsc dsa.
    assert (Hdsc : dsc = epoch_days now created) by reflexivity.
    assert (Hdsa : dsa = epoch_days now (coalesce la created)).
    { unfold dsa, dsc. destruct la; reflexivity. }
    split; [| split; [| split; [| split; [| split]]]].
    + intros Hp. unfold score, retention_score.
      apply overlap_singleton in Hp. now rewrite Hp.
    + intros Hp ->. unfold score, retention_score.
      destruct (array_overlap tgs ["protected"]) eqn:E.
      { apply overlap_singleton in E. contradiction. }
      reflexivity.
    + intros Hp ->. unfold score. rewrite retention_score_blend by congruence.
      now rewrite Hdsa, Hdsc.
    + intros Hp ->. unfold score. rewrite retention_score_blend by congruence.
      now rewrite Hdsa, Hdsc.
    + intros Hp ->. unfold score. rewrite retention_score_blend by congruence.
      now rewrite Hdsa, Hdsc.
    + intros [Hc0 Hc1] _. unfold score, retention_score.
      destruct (array_overlap tgs ["protected"]); [lra |].
      destruct (MemoryType_eqb mt core).
      * apply Qle_Rle in Hc0, Hc1.
        replace (Q2R 0) with 0%R in Hc0 by (unfold Q2R; simpl; lra).
        replace (Q2R 1) with 1%R in Hc1 by (unfold Q2R; simpl; lra).
        unfold Rmax. destruct (Rle_dec _ _); lra.
      * cbv zeta. rewrite clamp_unit. apply clamp_unit_range.
  - rewrite retention_score_blend; [| simpl; tauto | discriminate].
    unfold spec_blend, epoch_days, coalesce, decay_rate_of.
    replace (Q2R 1)%R with 1%R by (unfold Q2R; simpl; lra).
    replace (IZR (180 * 86400 * 1000000 - 0) / 1000000 / 86400)%R with 180%R
      by (simpl; lra).
    replace (IZR 0 + 1)%R with 1%R by lra. rewrite ln_1.
    replace (- (0.005) * 180)%R with (- 0.9)%R by lra.
    replace (0 / ln 50)%R with 0%R by (unfold Rdiv; ring).
    replace (Rmin 0 1)%R with 0%R by (unfold Rmin; destruct (Rle_dec 0 1); lra).
    replace (Rmax (1 - 180 / 180) 0)%R with 0%R
      by (unfold Rmax; destruct (Rle_dec _ _); lra).
    pose proof (exp_pos (- 0.9)%R) as Hpos.
    assert (Hle : (exp (- 0.9) < 1)%R).
    { rewrite <- exp_0. apply exp_increasing. lra. }
    rewrite clamp_unit_id; lra.
  - rewrite retention_score_blend;
      [| simpl; intuition discriminate | discriminate].
    unfold spec_blend, epoch_days, coalesce, decay_rate_of.
    replace (Q2R 1)%R with 1%R by (unfold Q2R; simpl; lra).
    replace (IZR (180 * 86400 * 1000000 - 0) / 1000000 / 86400)%R with 180%R
      by (simpl; lra).
    replace (IZR (180 * 86400 * 1000000 - 90 * 86400 * 1000000)
             / 1000000 / 86400)%R with 90%R by (simpl; lra).
    replace (IZR 0 + 1)%R with 1%R by lra. rewrite ln_1.
    replace (- (0.001) * 180)%R with (- 0.18)%R by lra.
    replace (0 / ln 50)%R with 0%R by (unfold Rdiv; ring).
    replace (Rmin 0 1)%R with 0%R by (unfold Rmin; destruct (Rle_dec 0 1); lra).
    replace (Rmax (1 - 90 / 180) 0)%R with 0.5%R
      by (unfold Rmax; destruct (Rle_dec _ _); lra).
    pose proof (exp_pos (- 0.18)%R) as Hpos.
    assert (Hle : (exp (- 0.18) < 1)%R).
    { rewrite <- exp_0. apply exp_increasing. lra. }
    rewrite clamp_unit_id; lra.
Qed.

(** ** Statements on the table *)

Lemma In_update_where cond set (l : list KnowledgeRow) (r : KnowledgeRow) :
  In r (update_where cond set l) <->
  exists r0, In r0 l /\ r = (if cond r0 then set r0 else r0).
Proof.
  unfold update_where. rewrite in_map_iff.
  split; intros (r0 & H1 & H2); exists r0; intuition congruence.
Qed.

Lemma update_where_ids cond set (l : list KnowledgeRow) :
  (forall r, id (set r) = id r) ->
  map id (update_where cond set l) = map id l.
Proof.
  intros Hid. unfold update_where. rewrite map_map. apply map_ext.
  intros r. destruct (cond r); [apply Hid | reflexivity].
Qed.

Lemma In_delete_where cond (l : list KnowledgeRow) (r : KnowledgeRow) :
  In r (delete_where cond l) <-> In r l /\ cond r = false.
Proof.
  unfold delete_where. rewrite filter_In, negb_true_iff. reflexivity.
Qed.

Lemma In_select_by_id (db : Db) (i : Z) (r : KnowledgeRow) :
  In r (select_by_id db i) <-> In r (rows db) /\ id r = i.
Proof.
  unfold select_by_id, id_is. rewrite filter_In, Z.eqb_eq. reflexivity.
Qed.

(** [SELECT ... WHERE id = i] is empty exactly when no row has id [i]. *)
Lemma select_by_id_nil (db : Db) (i : Z) :
  select_by_id db i = [] <-> (forall r, In r (rows db) -> id r <> i).
Proof.
  split.
  - intros E r Hin Hid.
    assert (H : In r (select_by_id db i)) by (apply In_select_by_id; auto).
    rewrite E in H. destruct H.
  - intros H. destruct (select_by_id db i) as [| r l] eqn:E; [reflexivity |].
    assert (Hr : In r (select_by_id db i)) by (rewrite E; now left).
    apply In_select_by_id in Hr. destruct Hr as [Hin Hid].
    exfalso. exact (H r Hin Hid).
Qed.

(** ** The primary key is an invariant of the table *)

(** A [DELETE] keeps the ids that remain distinct. *)
Lemma filter_ids_NoDup (keep : KnowledgeRow -> bool) (rs : list KnowledgeRow) :
  NoDup (map id rs) -> NoDup (map id (filter keep rs)).
Proof.
  intros Hnd. induction rs as [| r rs IH]; simpl; [constructor |].
  apply NoDup_cons_iff in Hnd. destruct Hnd as [Hr Hrs].
  destruct (keep r); simpl; [| now apply IH].
  apply NoDup_cons_iff. split; [| now apply IH].
  rewrite in_map_iff. intros (r' & E & Hr').
  apply filter_In in Hr'. apply Hr. rewrite <- E. apply in_map. tauto.
Qed.

Lemma Forall_filter_keep {A : Type} (P : A -> Prop) (p : A -> bool) (l : list A) :
  Forall P l -> Forall P (filter p l).
Proof.
  rewrite !Forall_forall. intros H x Hx. apply filter_In in Hx. apply H, Hx.
Qed.

Lemma wf_update (db : Db) cond set :
  (forall r, id (set r) = id r) -> db_wf db ->
  db_wf (mkDb (update_where cond set (rows db)) (next_id db)).
Proof.
  intros Hid [Hnd Hlt]. split; cbn [rows next_id].
  - now rewrite update_where_ids.
  - rewrite Forall_forall in *. intros r Hin.
    apply In_update_where in Hin. destruct Hin as (r0 & Hin & ->).
    destruct (cond r0); [rewrite Hid |]; now apply Hlt.
Qed.

Lemma wf_delete (db : Db) cond :
  db_wf db -> db_wf (mkDb (delete_where cond (rows db)) (next_id db)).
Proof.
  intros [Hnd Hlt]. split; cbn [rows next_id]; unfold delete_where.
  - now apply filter_ids_NoDup.
  - now apply Forall_filter_keep.
Qed.

Lemma empty_db_wf : db_wf empty_db.
Proof. split; simpl; constructor. Qed.

Lemma saveKnowledge_wf now (db : Db) (a : SaveArgs) :
  db_wf db -> db_wf (snd (saveKnowledge now db a)).
Proof.
  intros Hwf. unfold saveKnowledge, save_write.
  destruct (save_select db a) as [i |]; cbn [snd].
  - now apply wf_update.
  - destruct Hwf as [Hnd Hlt]. split; cbn [rows next_id].
    + rewrite map_app. simpl.
      rewrite <- (rev_involutive (map id (rows db) ++ [next_id db])).
      apply NoDup_rev. rewrite rev_app_distr. simpl.
      constructor; [| now apply NoDup_rev].
      rewrite <- in_rev. intros Hin. apply in_map_iff in Hin.
      destruct Hin as (r & E & Hr). rewrite Forall_forall in Hlt.
      specialize (Hlt r Hr). lia.
    + rewrite Forall_forall in *. intros r Hin. apply in_app_or in Hin.
      destruct Hin as [Hin | [<- | []]].
      * specialize (Hlt r Hin). lia.
      * simpl. lia.
Qed.

Lemma mergeKnowledge_wf now (db : Db) keepId deleteId mergedContent :
  db_wf db -> db_wf (snd (mergeKnowledge now db keepId deleteId mergedContent)).
Proof.
  intros Hwf. unfold mergeKnowledge.
  destruct (select_by_id db keepId) as [| keep lk]; [exact Hwf |].
  destruct (select_by_id db deleteId) as [| del ld]; [exact Hwf |].
  cbn [snd].
  apply (wf_delete (mkDb (update_where _ _ (rows db)) (next_id db))).
  now apply wf_update.
Qed.

Lemma pruneStaleEntries_wf now (db : Db) dryRun :
  db_wf db -> db_wf (snd (pruneStaleEntries now db dryRun)).
Proof.
  intros Hwf. unfold pruneStaleEntries. cbn [snd].
  destruct (negb dryRun && _)%bool; [now apply wf_delete | exact Hwf].
Qed.

Lemma deleteKnowledge_wf (db : Db) (i : Z) :
  db_wf db -> db_wf (snd (deleteKnowledge db i)).
Proof. intros Hwf. unfold deleteKnowledge. cbn [snd]. now apply wf_delete. Qed.

Lemma recordAccess_wf now (db : Db) (ids : list Z) :
  db_wf db -> db_wf (recordAccess now db ids).
Proof.
  intros Hwf. unfold recordAccess. destruct ids; [exact Hwf |].
  now apply wf_update.
Qed.

(** [deleteKnowledge] reports whether a row had the id, and removes it. *)
Lemma deleteKnowledge_spec (db : Db) (i : Z) :
  (fst (deleteKnowledge db i) = true <-> exists r, In r (rows db) /\ id r = i)
  /\ (forall r, In r (rows (snd (deleteKnowledge db i))) <->
                In r (rows db) /\ id r <> i).
Proof.
  unfold deleteKnowledge. cbn [fst snd rows]. split.
  - destruct (select_by_id db i) as [| r0 l] eqn:E.
    + rewrite select_by_id_nil in E. simpl. split; [discriminate |].
      intros (r & Hin & Hid). exfalso. exact (E r Hin Hid).
    + simpl. split; [| reflexivity]. intros _. exists r0.
      apply In_select_by_id. rewrite E. now left.
  - intros r. rewrite In_delete_where. unfold id_is.
    rewrite Z.eqb_neq. reflexivity.
Qed.

(** ** [saveKnowledge]: upsert on (topic, source, content) *)

Lemma find_none_iff {A : Type} (p : A -> bool) (l : list A) :
  find p l = None <-> (forall x, In x l -> p x = false).
Proof.
  split; [apply find_none |].
  induction l as [| x l IH]; intros H; simpl; [reflexivity |].
  rewrite (H x (or_introl eq_refl)). apply IH. intros y Hy. apply H. now right.
Qed.

Lemma find_app_last {A : Type} (p : A -> bool) (l : list A) (x : A) :
  find p l = None -> p x = true -> find p (l ++ [x]) = Some x.
Proof.
  induction l as [| y l IH]; simpl; intros Hn Hx.
  - now rewrite Hx.
  - destruct (p y); [discriminate | auto].
Qed.

Lemma find_ext_eq {A : Type} (p q : A -> bool) (l : list A) :
  (forall x, p x = q x) -> find p l = find q l.
Proof.
  intros H. induction l as [| x l IH]; simpl; [reflexivity |].
  now rewrite H, IH.
Qed.

(** Once the [UPDATE] of a save has run on the row the [SELECT] found, the
    same [SELECT] finds a row with that id again. *)
Lemma find_after_update now (a : SaveArgs) (l : list KnowledgeRow) (r0 : KnowledgeRow) :
  find (natural_key_is a) l = Some r0 ->
  exists r1,
    find (natural_key_is a) (update_where (id_is (id r0)) (save_set now a) l)
    = Some r1 /\ id r1 = id r0.
Proof.
  unfold update_where.
  induction l as [| x l IH]; cbn [find map]; [discriminate |].
  destruct (natural_key_is a x) eqn:Kx.
  - intros E. injection E as ->.
    assert (I : id_is (id r0) r0 = true) by apply Z.eqb_refl.
    assert (K : natural_key_is a (save_set now a r0) = true).
    { unfold natural_key_is in *. simpl.
      apply andb_true_iff in Kx. destruct Kx as [Kx _]. rewrite Kx.
      now rewrite String.eqb_refl. }
    rewrite I, K. exists (save_set now a r0). split; reflexivity.
  - intros E. destruct (IH E) as (r1 & F & I).
    destruct (id_is (id r0) x) eqn:Ix.
    + destruct (natural_key_is a (save_set now a x)) eqn:K.
      * exists (save_set now a x). split; [reflexivity |].
        simpl. unfold id_is in Ix. now apply Z.eqb_eq in Ix.
      * exists r1. split; assumption.
    + rewrite Kx. exists r1. split; assumption.
Qed.

(** After a save, the [SELECT] of a save with the same natural key finds
    the id that the save returned. *)
Lemma save_select_after_save now (db : Db) (a a' : SaveArgs) :
  a_topic a' = a_topic a -> a_source a' = a_source a ->
  a_content a' = a_content a ->
  save_select (snd (saveKnowledge now db a)) a'
  = Some (fst (saveKnowledge now db a)).
Proof.
  intros Ht Hs Hc.
  assert (K : forall r, natural_key_is a' r = natural_key_is a r).
  { intros r. unfold natural_key_is. now rewrite Ht, Hs, Hc. }
  unfold save_select at 1. rewrite (find_ext_eq _ _ _ K).
  unfold saveKnowledge, save_select.
  destruct (find (natural_key_is a) (rows db)) as [r0 |] eqn:F; simpl.
  - destruct (find_after_update now a _ _ F) as (r1 & F1 & I1).
    rewrite F1. simpl. now rewrite I1.
  - rewrite (find_app_last _ _ (save_new_row now (next_id db) a) F).
    + reflexivity.
    + unfold natural_key_is. simpl. now rewrite !String.eqb_refl.
Qed.

(** Two saves in a row with the same (topic, source, content), both with
    the scan that follows the list. *)
Lemma saveKnowledge_twice :
  (forall now1 now2 db a tags2 confidence2 userId2 memoryType2,
     let a2 := mkSaveArgs (a_topic a) (a_content a) (a_source a)
                          tags2 confidence2 userId2 memoryType2 in
     let id1 := fst (saveKnowledge now1 db a) in
     let db1 := snd (saveKnowledge now1 db a) in
     let id2 := fst (saveKnowledge now2 db1 a2) in
     let db2 := snd (saveKnowledge now2 db1 a2) in
     id2 = id1
     /\ map id (rows db2) = map id (rows db1)
     /\ next_id db2 = next_id db1
     /\ (exists r, In r (rows db2) /\ id r = id1)
     /\ (forall r, In r (rows db2) -> id r = id1 ->
           tags r = tags2 /\ confidence r = confidence2
           /\ user_id r = userId2 /\ memory_type r = resolvedType a2
           /\ content r = a_content a /\ updated_at r = now2)
     /\ (forall r, id r <> id1 -> (In r (rows db2) <-> In r (rows db1))))
  /\ (forall now db a,
        (forall r, In r (rows db) -> natural_key_is a r = false) ->
        saveKnowledge now db a
        = (next_id db,
           mkDb (rows db ++ [save_new_row now (next_id db) a]) (next_id db + 1)))
  /\ (forall now db a r,
        In r (rows db) -> natural_key_is a r = true ->
        map id (rows (snd (saveKnowledge now db a))) = map id (rows db)
        /\ next_id (snd (saveKnowledge now db a)) = next_id db).
Proof.
  split; [| split].
  - intros now1 now2 db a tags2 confidence2 userId2 memoryType2 a2 id1 db1 id2 db2.
    assert (S : save_select db1 a2 = Some id1).
    { apply save_select_after_save; reflexivity. }
    assert (E : saveKnowledge now2 db1 a2
                = (id1, mkDb (update_where (id_is id1) (save_set now2 a2) (rows db1))
                             (next_id db1))).
    { unfold saveKnowledge. rewrite S. reflexivity. }
    unfold id2, db2. rewrite E. simpl.
    split; [reflexivity |].
    split; [apply update_where_ids; reflexivity |].
    split; [reflexivity |].
    split; [| split].
    + unfold save_select in S.
      destruct (find (natural_key_is a2) (rows db1)) as [r1 |] eqn:F;
        [| discriminate].
      simpl in S. injection S as S.
      apply find_some in F. destruct F as [Hin _].
      exists (save_set now2 a2 r1). split; [| exact S].
      apply In_update_where. exists r1. split; [assumption |].
      unfold id_is. rewrite S, Z.eqb_refl. reflexivity.
    + intros r Hin Hid. apply In_update_where in Hin.
      destruct Hin as (r0 & _ & ->). unfold id_is in *.
      destruct (id r0 =? id1) eqn:I.
      * simpl. repeat split; reflexivity.
      * apply Z.eqb_neq in I. contradiction.
    + intros r Hid. rewrite In_update_where. unfold id_is. split.
      * intros (r0 & Hin & ->). destruct (id r0 =? id1) eqn:I.
        -- simpl in Hid. apply Z.eqb_eq in I. contradiction.
        -- assumption.
      * intros Hin. exists r. split; [assumption |].
        apply Z.eqb_neq in Hid. now rewrite Hid.
  - intros now db a Hnone. unfold saveKnowledge, save_select.
    apply find_none_iff in Hnone. rewrite Hnone. reflexivity.
  - intros now db a r Hin Hkey. unfold saveKnowledge, save_select.
    destruct (find (natural_key_is a) (rows db)) as [r0 |] eqn:F.
    + simpl. split; [apply update_where_ids; reflexivity | reflexivity].
    + rewrite find_none_iff in F. rewrite (F r Hin) in Hkey. discriminate.
Qed.

(** The run of [saveKnowledge] is one of those that [save_may] admits. *)
Lemma select_may_list (db : Db) (a : SaveArgs) : select_may db a (save_select db a).
Proof.
  unfold save_select. destruct (find (natural_key_is a) (rows db)) as [r |] eqn:F.
  - apply find_some in F. destruct F as [Hin Hk]. now exists r.
  - cbn. now apply find_none_iff.
Qed.

Lemma saveKnowledge_may now (db : Db) (a : SaveArgs) :
  save_may now db a (saveKnowledge now db a).
Proof. exists (save_select db a). split; [apply select_may_list | reflexivity]. Qed.

(** Where at most one id carries the triple, the first statement has one
    answer, and the call one result. *)
Lemma select_may_unique (db : Db) (a : SaveArgs) (existing : option Z) :
  key_unique db a -> select_may db a existing -> existing = save_select db a.
Proof.
  intros Hu Hs. unfold save_select.
  destruct existing as [i |]; cbn in Hs.
  - destruct Hs as (r & Hin & Hk & <-).
    destruct (find (natural_key_is a) (rows db)) as [r0 |] eqn:F.
    + apply find_some in F. destruct F as [Hin0 Hk0]. cbn.
      f_equal. now apply Hu.
    + rewrite find_none_iff in F. rewrite (F r Hin) in Hk. discriminate.
  - apply find_none_iff in Hs. now rewrite Hs.
Qed.

Lemma save_may_unique now (db : Db) (a : SaveArgs) (res : Z * Db) :
  key_unique db a -> save_may now db a res -> res = saveKnowledge now db a.
Proof.
  intros Hu (existing & Hs & ->). unfold saveKnowledge.
  now rewrite (select_may_unique db a existing Hu Hs).
Qed.

(** A save leaves the triple on one id when it found it on one at most. *)
Lemma key_unique_after_save now (db : Db) (a a' : SaveArgs) :
  a_topic a' = a_topic a -> a_source a' = a_source a ->
  a_content a' = a_content a ->
  key_unique db a -> key_unique (snd (saveKnowledge now db a)) a'.
Proof.
  intros Ht Hs Hc Hu.
  assert (K : forall r, natural_key_is a' r = natural_key_is a r).
  { intros r. unfold natural_key_is. now rewrite Ht, Hs, Hc. }
  assert (G : forall r, In r (rows (snd (saveKnowledge now db a))) ->
                        natural_key_is a r = true ->
                        id r = fst (saveKnowledge now db a)).
  { unfold saveKnowledge, save_select.
    destruct (find (natural_key_is a) (rows db)) as [r0 |] eqn:F;
      cbn [option_map save_write fst snd rows]; intros r Hin Hk.
    - apply find_some in F. destruct F as [Hin0 Hk0].
      apply In_update_where in Hin. destruct Hin as (x & Hx & ->).
      unfold id_is in *. destruct (id x =? id r0) eqn:E.
      + cbn. now apply Z.eqb_eq.
      + now apply Hu.
    - apply in_app_iff in Hin. destruct Hin as [Hin | [<- | []]].
      + rewrite find_none_iff in F. rewrite (F r Hin) in Hk. discriminate.
      + reflexivity. }
  intros r r' Hr Hr' Hk Hk'. rewrite K in Hk, Hk'.
  now rewrite (G r Hr Hk), (G r' Hr' Hk').
Qed.

(** Where at most one id carries the triple, two saves in a row with the
    same (topic, source, content) come to this, whatever the store hands
    back: the second returns the id of the first and inserts nothing; a row
    with that id exists, and every row with that id carries the tags,
    confidence, userId and (resolved) memoryType of the second call, the
    content, and the time of the second call as updatedAt; the other rows
    are as the first call left them. A save whose triple no row carries can
    only append one new row with a fresh id; a save whose triple some row
    carries inserts none. *)
Lemma save_upsert :
  (forall now1 now2 db a tags2 confidence2 userId2 memoryType2 res1 res2,
     let a2 := mkSaveArgs (a_topic a) (a_content a) (a_source a)
                          tags2 confidence2 userId2 memoryType2 in
     key_unique db a ->
     save_may now1 db a res1 -> save_may now2 (snd res1) a2 res2 ->
     fst res2 = fst res1
     /\ map id (rows (snd res2)) = map id (rows (snd res1))
     /\ next_id (snd res2) = next_id (snd res1)
     /\ (exists r, In r (rows (snd res2)) /\ id r = fst res1)
     /\ (forall r, In r (rows (snd res2)) -> id r = fst res1 ->
           tags r = tags2 /\ confidence r = confidence2
           /\ user_id r = userId2 /\ memory_type r = resolvedType a2
           /\ content r = a_content a /\ updated_at r = now2)
     /\ (forall r, id r <> fst res1 ->
           (In r (rows (snd res2)) <-> In r (rows (snd res1)))))
  /\ (forall now db a res,
        (forall r, In r (rows db) -> natural_key_is a r = false) ->
        save_may now db a res ->
        res = (next_id db,
               mkDb (rows db ++ [save_new_row now (next_id db) a])
                    (next_id db + 1)))
  /\ (forall now db a r res,
        In r (rows db) -> natural_key_is a r = true ->
        save_may now db a res ->
        map id (rows (snd res)) = map id (rows db)
        /\ next_id (snd res) = next_id db).
Proof.
  destruct saveKnowledge_twice as (T1 & T2 & T3).
  split; [| split].
  - intros now1 now2 db a tags2 confidence2 userId2 memoryType2 res1 res2 a2
           Hu H1 H2.
    apply (save_may_unique now1 db a res1 Hu) in H1. subst res1.
    assert (Hu1 : key_unique (snd (saveKnowledge now1 db a)) a2)
      by (apply key_unique_after_save; [reflexivity .. | exact Hu]).
    apply (save_may_unique now2 _ a2 res2 Hu1) in H2. subst res2.
    exact (T1 now1 now2 db a tags2 confidence2 userId2 memoryType2).
  - intros now db a res Hnone (existing & Hs & ->).
    destruct existing as [i |]; cbn in Hs; [| reflexivity].
    destruct Hs as (r & Hin & Hk & _). rewrite (Hnone r Hin) in Hk. discriminate.
  - intros now db a r res Hin Hk (existing & Hs & ->).
    destruct existing as [i |]; cbn in Hs.
    + cbn. split; [apply update_where_ids; reflexivity | reflexivity].
    + rewrite (Hs r Hin) in Hk. discriminate.
Qed.

(** C2. The table that the calls [twin_calls] leave holds the triple of
    [may_prices] on the rows 1 and 2. There the first statement of a save
    may hand back either row: a first save of the triple returns 1 and
    rewrites row 1, a second returns 2 and rewrites row 2. *)
Theorem save_twice_two_ids :
  let db := run_ops twin_calls in
  let set5 := save_set 5 may_prices in
  let set6 := save_set 6 may_prices in
  exists r1 r2,
    db = mkDb [r1; r2] 4
    /\ id r1 = 1 /\ id r2 = 2
    /\ natural_key_is may_prices r1 = true
    /\ natural_key_is may_prices r2 = true
    /\ save_may 5 db may_prices (1, mkDb [set5 r1; r2] 4)
    /\ save_may 6 (mkDb [set5 r1; r2] 4) may_prices (2, mkDb [set5 r1; set6 r2] 4).
Proof.
  cbv zeta.
  eexists. eexists. split; [vm_compute; reflexivity |].
  split; [reflexivity |]. split; [reflexivity |].
  split; [reflexivity |]. split; [reflexivity |].
  split.
  - exists (Some 1). split; [| reflexivity].
    eexists. split; [left; reflexivity |]. split; reflexivity.
  - exists (Some 2). split; [| reflexivity].
    eexists. split; [right; left; reflexivity |]. split; reflexivity.
Qed.

(** ** [mergeKnowledge] *)

Lemma dedup_go_In (seen xs : list string) (x : string) :
  In x (Js.dedup_go seen xs) <-> In x xs /\ ~ In x seen.
Proof.
  revert seen. induction xs as [| y xs IH]; intros seen; simpl.
  - tauto.
  - destruct (Js.arr_includes seen y) eqn:E.
    + apply arr_includes_In in E. rewrite IH. split.
      * intros [H1 H2]. auto.
      * intros [[-> | H1] H2]; [contradiction | auto].
    + apply arr_includes_false in E. simpl. rewrite IH. simpl. split.
      * intros [-> | [H1 H2]]; [auto |]. split; [auto | tauto].
      * intros [[-> | H1] H2]; [auto |].
        destruct (string_dec y x) as [-> | N]; [auto |].
        right. split; [assumption |]. intros [? | ?]; contradiction.
Qed.

Lemma dedup_go_NoDup (seen xs : list string) : NoDup (Js.dedup_go seen xs).
Proof.
  revert seen. induction xs as [| y xs IH]; intros seen; simpl.
  - constructor.
  - destruct (Js.arr_includes seen y); [apply IH |].
    constructor; [| apply IH].
    rewrite dedup_go_In. simpl. tauto.
Qed.

(** [[...new Set(xs)]] is the set of the elements of [xs]. *)
Lemma set_spread_spec (xs : list string) :
  NoDup (Js.set_spread xs) /\ (forall x, In x (Js.set_spread xs) <-> In x xs).
Proof.
  unfold Js.set_spread. split; [apply dedup_go_NoDup |].
  intros x. rewrite dedup_go_In. simpl. tauto.
Qed.

Lemma Math_max_spec (a b : Q) :
  (a <= Math_max a b)%Q /\ (b <= Math_max a b)%Q
  /\ (Math_max a b = a \/ Math_max a b = b).
Proof.
  unfold Math_max. destruct (Qle_bool a b) eqn:E.
  - apply Qle_bool_iff in E. repeat split; auto using Qle_refl.
  - assert (H : ~ (a <= b)%Q) by (rewrite <- Qle_bool_iff; congruence).
    apply Qnot_le_lt in H. repeat split; auto using Qle_refl, Qlt_le_weak.
Qed.

Lemma filter_id_absent (l : list KnowledgeRow) (i : Z) :
  ~ In i (map id l) -> filter (id_is i) l = [].
Proof.
  induction l as [| y l IH]; simpl; intros H; [reflexivity |].
  unfold id_is at 1. destruct (id y =? i) eqn:E.
  - apply Z.eqb_eq in E. exfalso. apply H. now left.
  - apply IH. intros Hin. apply H. now right.
Qed.

(** With ids a primary key, [SELECT ... WHERE id = i] returns the row. *)
Lemma filter_id_unique (l : list KnowledgeRow) (r : KnowledgeRow) :
  NoDup (map id l) -> In r l -> filter (id_is (id r)) l = [r].
Proof.
  induction l as [| x l IH]; simpl; intros Hnd Hin; [destruct Hin |].
  inversion Hnd as [| ? ? Hx Hl]; subst.
  destruct Hin as [-> | Hin].
  - unfold id_is at 1. rewrite Z.eqb_refl. f_equal.
    now apply filter_id_absent.
  - unfold id_is at 1. destruct (id x =? id r) eqn:E.
    + apply Z.eqb_eq in E. exfalso. apply Hx. rewrite E. now apply in_map.
    + now apply IH.
Qed.

Lemma select_by_id_unique (db : Db) (r : KnowledgeRow) :
  db_wf db -> In r (rows db) -> select_by_id db (id r) = [r].
Proof.
  intros [Hnd _] Hin. now apply filter_id_unique.
Qed.

(** The table after a merge of two rows that exist. *)
Lemma merge_present now (db : Db) (keep del : KnowledgeRow)
    (mergedContent : option string) :
  db_wf db -> In keep (rows db) -> In del (rows db) ->
  mergeKnowledge now db (id keep) (id del) mergedContent
  = (true,
     mkDb (delete_where (id_is (id del))
             (update_where (id_is (id keep))
                (merge_set now (coalesce mergedContent (content keep))
                   (Js.set_spread (tags keep ++ tags del))
                   (access_count keep + access_count del)
                   (Math_max (confidence keep) (confidence del)))
                (rows db)))
          (next_id db)).
Proof.
  intros Hwf Hk Hd. unfold mergeKnowledge.
  rewrite (select_by_id_unique db keep Hwf Hk).
  rewrite (select_by_id_unique db del Hwf Hd). reflexivity.
Qed.

Lemma two_rows_db_wf : db_wf two_rows_db.
Proof.
  split; simpl.
  - repeat constructor; simpl; intuition discriminate.
  - repeat constructor; simpl; lia.
Qed.

(** A merge of a row with itself is no merge of two rows: the call
    reports success and the row is gone. *)
Lemma merge_same_id_loses_row :
  In row_a (rows two_rows_db) /\ id row_a = 1
  /\ mergeKnowledge 50 two_rows_db 1 1 None = (true, mkDb [row_b] 3)
  /\ ~ (exists r, In r (rows (snd (mergeKnowledge 50 two_rows_db 1 1 None)))
                  /\ id r = 1).
Proof.
  split; [now left |]. split; [reflexivity |]. split; [reflexivity |].
  intros (r & Hin & Hid). simpl in Hin.
  destruct Hin as [<- | []]. discriminate Hid.
Qed.

(** C3. When both rows exist, two rows with their two ids, the merge
    reports success; afterwards the row kept exists and carries as tags the union
    of both tag lists without repeats, as accessCount the sum of both
    counts, as confidence the larger of both, as content [mergedContent]
    when it is given and its own content otherwise, and as updatedAt the
    time of the merge; no row has the deleted id; the other rows are
    untouched. *)
Theorem merge_combines :
  forall now db keep del mergedContent,
    db_wf db -> In keep (rows db) -> In del (rows db) -> id keep <> id del ->
    let res := mergeKnowledge now db (id keep) (id del) mergedContent in
    fst res = true
    /\ (exists r, In r (rows (snd res)) /\ id r = id keep)
    /\ (forall r, In r (rows (snd res)) -> id r = id keep ->
          NoDup (tags r)
          /\ (forall t, In t (tags r) <-> In t (tags keep) \/ In t (tags del))
          /\ access_count r = access_count keep + access_count del
          /\ (confidence keep <= confidence r)%Q
          /\ (confidence del <= confidence r)%Q
          /\ (confidence r = confidence keep \/ confidence r = confidence del)
          /\ content r = match mergedContent with
                         | Some c => c
                         | None => content keep
                         end
          /\ updated_at r = now)
    /\ (forall r, In r (rows (snd res)) -> id r <> id del)
    /\ (forall r, id r <> id keep -> id r <> id del ->
          (In r (rows (snd res)) <-> In r (rows db))).
Proof.
  intros now db keep del mergedContent Hwf Hk Hd Hne res.
  unfold res. rewrite (merge_present now db keep del mergedContent Hwf Hk Hd).
  cbn [fst snd rows].
  set (set := merge_set now _ _ _ _).
  assert (Hset : forall r, id (set r) = id r) by reflexivity.
  split; [reflexivity |].
  split; [| split; [| split]].
  - exists (set keep). split; [| apply Hset].
    apply In_delete_where. split.
    + apply In_update_where. exists keep. split; [assumption |].
      unfold id_is. now rewrite Z.eqb_refl.
    + unfold id_is. rewrite Hset. now apply Z.eqb_neq.
  - intros r Hin Hid. apply In_delete_where in Hin. destruct Hin as [Hin _].
    apply In_update_where in Hin. destruct Hin as (r0 & _ & ->).
    unfold id_is in *. destruct (id r0 =? id keep) eqn:E.
    + unfold set, merge_set. cbn [tags access_count confidence content updated_at].
      destruct (set_spread_spec (tags keep ++ tags del)) as [Hnd Hmem].
      destruct (Math_max_spec (confidence keep) (confidence del))
        as (M1 & M2 & M3).
      split; [exact Hnd |].
      split; [intros t; rewrite Hmem; apply in_app_iff |].
      split; [reflexivity |].
      split; [exact M1 |]. split; [exact M2 |]. split; [exact M3 |].
      split; [destruct mergedContent; reflexivity | reflexivity].
    + apply Z.eqb_neq in E. contradiction.
  - intros r Hin. apply In_delete_where in Hin. destruct Hin as [_ Hin].
    unfold id_is in Hin. now apply Z.eqb_neq.
  - intros r Hk' Hd'. rewrite In_delete_where, In_update_where.
    unfold id_is. split.
    + intros [(r0 & Hin & ->) _]. destruct (id r0 =? id keep) eqn:E.
      * rewrite Hset in Hk'. apply Z.eqb_eq in E. contradiction.
      * assumption.
    + intros Hin. split.
      * exists r. split; [assumption |].
        apply Z.eqb_neq in Hk'. now rewrite Hk'.
      * now apply Z.eqb_neq.
Qed.

Lemma merge_combines_witness :
  db_wf two_rows_db /\ id row_a <> id row_b
  /\ fst (mergeKnowledge 50 two_rows_db (id row_a) (id row_b) None) = true
  /\ (forall r, In r (rows (snd (mergeKnowledge 50 two_rows_db
                                   (id row_a) (id row_b) None))) ->
                id r <> id row_b).
Proof.
  split; [exact two_rows_db_wf |]. split; [discriminate |].
  assert (H := merge_combines 50 two_rows_db row_a row_b None two_rows_db_wf
                 (or_introl eq_refl) (or_intror (or_introl eq_refl))
                 ltac:(discriminate)).
  cbv zeta in H. destruct H as (H1 & _ & _ & H4 & _).
  split; [exact H1 | exact H4].
Defined.

(** When a row is missing for one of the two ids, the two [SELECT]s do
    not both return a row: [mergeKnowledge] rolls back and returns [false],
    and the table is the one it was given. *)
Lemma merge_absent now (db : Db) (keepId deleteId : Z)
    (mergedContent : option string) :
  (forall r, In r (rows db) -> id r <> keepId)
  \/ (forall r, In r (rows db) -> id r <> deleteId) ->
  mergeKnowledge now db keepId deleteId mergedContent = (false, db).
Proof.
  intros H. unfold mergeKnowledge.
  destruct H as [H | H]; apply select_by_id_nil in H; rewrite H.
  - reflexivity.
  - destruct (select_by_id db keepId); reflexivity.
Qed.

Lemma int_param_error_none (i : Z) :
  int_param_error i = None <-> INT_MIN <= i <= INT_MAX.
Proof.
  unfold int_param_error.
  destruct (INT_MIN <=? i) eqn:E1; destruct (i <=? INT_MAX) eqn:E2; cbn [andb];
    try (apply Z.leb_le in E1); try (apply Z.leb_le in E2);
    try (apply Z.leb_gt in E1); try (apply Z.leb_gt in E2).
  - split; [lia | reflexivity].
  - split; [destruct (Z.abs i <? 10 ^ 21); discriminate | lia].
  - split; [destruct (Z.abs i <? 10 ^ 21); discriminate | lia].
  - split; [destruct (Z.abs i <? 10 ^ 21); discriminate | lia].
Qed.

(** On ids within the range the calls are [mergeKnowledge] and
    [deleteKnowledge]. *)
Lemma mergeKnowledge_call_in_range now (db : Db) (keepId deleteId : Z)
    (mergedContent : option string) :
  -2147483648 <= keepId <= 2147483647 ->
  -2147483648 <= deleteId <= 2147483647 ->
  mergeKnowledge_call now db keepId deleteId mergedContent
  = (Returned (fst (mergeKnowledge now db keepId deleteId mergedContent)),
     snd (mergeKnowledge now db keepId deleteId mergedContent)).
Proof.
  intros Hk Hd. unfold mergeKnowledge_call.
  apply int_param_error_none in Hk, Hd. rewrite Hk, Hd.
  now destruct (mergeKnowledge now db keepId deleteId mergedContent).
Qed.

Lemma deleteKnowledge_call_in_range (db : Db) (i : Z) :
  -2147483648 <= i <= 2147483647 ->
  deleteKnowledge_call db i
  = (Returned (fst (deleteKnowledge db i)), snd (deleteKnowledge db i)).
Proof.
  intros Hi. unfold deleteKnowledge_call.
  apply int_param_error_none in Hi. rewrite Hi.
  now destruct (deleteKnowledge db i).
Qed.

(** For two ids within the range of [INT], of which one has no row, the
    call returns [false] (a value, not an exception) and the table is the
    one it was given; with an id outside the range the call raises, and the
    table is the one it was given as well. *)
Lemma merge_missing :
  forall now db keepId deleteId mergedContent,
    (forall r, In r (rows db) -> id r <> keepId)
    \/ (forall r, In r (rows db) -> id r <> deleteId) ->
    (-2147483648 <= keepId <= 2147483647 -> -2147483648 <= deleteId <= 2147483647 ->
     mergeKnowledge_call now db keepId deleteId mergedContent
     = (Returned false, db))
    /\ (~ (-2147483648 <= keepId <= 2147483647 /\ -2147483648 <= deleteId <= 2147483647) ->
        exists e,
          mergeKnowledge_call now db keepId deleteId mergedContent
          = (Raised e, db)).
Proof.
  intros now db keepId deleteId mergedContent H. unfold mergeKnowledge_call.
  split.
  - intros Hk Hd.
    apply int_param_error_none in Hk, Hd. rewrite Hk, Hd.
    now rewrite (merge_absent now db keepId deleteId mergedContent H).
  - intros Hout.
    destruct (int_param_error keepId) as [e |] eqn:Ek; [now exists e |].
    destruct (int_param_error deleteId) as [e |] eqn:Ed; [now exists e |].
    apply int_param_error_none in Ek, Ed. tauto.
Qed.

(** C4. The rows of [two_rows_db] have the ids 1 and 2. A merge of row 1
    with the id 3000000000, which the schema of the tool lets through (a
    positive integer) and which no row has, does not return [false]: the
    call raises the error 22003 of the store, with the table as it was. So
    does a merge that names that id as the row to keep. *)
Theorem merge_out_of_range_raises :
  (forall r, In r (rows two_rows_db) -> id r <> 3000000000)
  /\ mergeKnowledge_call 50 two_rows_db 1 3000000000 None
     = (Raised "22003", two_rows_db)
  /\ mergeKnowledge_call 50 two_rows_db 3000000000 2 (Some "merged")
     = (Raised "22003", two_rows_db)
  /\ mergeKnowledge_call 50 two_rows_db 1 7 None = (Returned false, two_rows_db).
Proof.
  split; [| repeat split; reflexivity].
  intros r [<- | [<- | []]]; discriminate.
Qed.

(** ** [ORDER BY] keeps the rows *)

Lemma insert_by_perm {A : Type} (leb : A -> A -> bool) (x : A) (l : list A) :
  Permutation (insert_by leb x l) (x :: l).
Proof.
  induction l as [| y l IH]; simpl; [apply Permutation_refl |].
  destruct (leb x y); [apply Permutation_refl |].
  eapply perm_trans; [apply perm_skip, IH | apply perm_swap].
Qed.

Lemma sort_by_perm {A : Type} (leb : A -> A -> bool) (l : list A) :
  Permutation (sort_by leb l) l.
Proof.
  induction l as [| x l IH]; simpl; [constructor |].
  eapply perm_trans; [apply insert_by_perm | now apply perm_skip].
Qed.

Lemma In_sort_by {A : Type} (leb : A -> A -> bool) (l : list A) (x : A) :
  In x (sort_by leb l) <-> In x l.
Proof.
  split; apply Permutation_in;
    [apply sort_by_perm | apply Permutation_sym, sort_by_perm].
Qed.

Lemma Rltb_lt (x y : R) : Rltb x y = true <-> (x < y)%R.
Proof. unfold Rltb. destruct (Rlt_dec x y); intuition discriminate. Qed.

Lemma Rleb_le (x y : R) : Rleb x y = true <-> (x <= y)%R.
Proof. unfold Rleb. destruct (Rle_dec x y); intuition discriminate. Qed.

(** ** [ORDER BY ... LIMIT] *)

Section Ordering.

Context {A : Type} (leb : A -> A -> bool).
Hypothesis leb_total : forall a b, leb a b = false -> leb b a = true.

Local Abbreviation before := (fun a b : A => leb a b = true).

Lemma insert_by_HdRel (x y : A) (l : list A) :
  before y x -> HdRel before y l -> HdRel before y (insert_by leb x l).
Proof.
  intros Hyx Hl. destruct l as [| z l]; simpl.
  - now constructor.
  - inversion Hl; subst. destruct (leb x z); now constructor.
Qed.

Lemma insert_by_sorted (x : A) (l : list A) :
  Sorted before l -> Sorted before (insert_by leb x l).
Proof.
  induction l as [| y l IH]; simpl; intros Hs.
  - repeat constructor.
  - inversion Hs as [| ? ? Hl Hhd]; subst.
    destruct (leb x y) eqn:E.
    + constructor; [assumption | now constructor].
    + constructor; [now apply IH |].
      apply insert_by_HdRel; [now apply leb_total | assumption].
Qed.

Lemma sort_by_sorted (l : list A) : Sorted before (sort_by leb l).
Proof.
  induction l as [| x l IH]; simpl; [constructor |].
  now apply insert_by_sorted.
Qed.

Lemma In_firstn (n : nat) (l : list A) (x : A) :
  In x (firstn n l) -> In x l.
Proof.
  intros H. rewrite <- (firstn_skipn n l). apply in_or_app. now left.
Qed.

Lemma firstn_sorted (n : nat) (l : list A) :
  Sorted before l -> Sorted before (firstn n l).
Proof.
  revert l. induction n as [| n IH]; intros l Hs; simpl; [constructor |].
  destruct l as [| x l]; [constructor |].
  inversion Hs as [| ? ? Hl Hhd]; subst.
  constructor; [now apply IH |].
  destruct l as [| y l]; destruct n; simpl; try constructor.
  now inversion Hhd.
Qed.

End Ordering.

(** The rows of a query come by rank, highest first, and are at most
    [limit] and at most 50. *)
Lemma order_limit_spec (limit : nat) (l : list (KnowledgeRow * Q)) :
  Sorted (fun a b => (snd b <= snd a)%Q) (order_limit limit l)
  /\ (List.length (order_limit limit l) <= limit)%nat
  /\ (List.length (order_limit limit l) <= 50)%nat
  /\ (forall x, In x (order_limit limit l) -> In x l).
Proof.
  unfold order_limit. split; [| split; [| split]].
  - assert (H : Sorted (fun a b : KnowledgeRow * Q => Qle_bool (snd b) (snd a) = true)
                  (firstn (Nat.min limit 50)
                     (sort_by (fun a b => Qle_bool (snd b) (snd a)) l))).
    { apply firstn_sorted, sort_by_sorted.
      intros a b E.
      assert (N : ~ (snd b <= snd a)%Q) by (rewrite <- Qle_bool_iff; congruence).
      apply Qle_bool_iff, Qlt_le_weak, Qnot_le_lt, N. }
    revert H. generalize (firstn (Nat.min limit 50)
                            (sort_by (fun a b => Qle_bool (snd b) (snd a)) l)).
    intros l0 H. induction H as [| x l1 Hs IH Hhd]; constructor; [assumption |].
    destruct Hhd; constructor. now apply Qle_bool_iff.
  - rewrite length_firstn. lia.
  - rewrite length_firstn. lia.
  - intros x Hx. apply In_firstn in Hx. now apply In_sort_by in Hx.
Qed.

(** ** [pruneStaleEntries] *)

Lemma prunable_iff (r : KnowledgeRow) :
  prunable r = true <-> memory_type r <> core /\ ~ In "protected" (tags r).
Proof.
  unfold prunable. rewrite andb_true_iff, !negb_true_iff.
  rewrite <- overlap_singleton.
  destruct (memory_type r); simpl;
    destruct (array_overlap (tags r) ["protected"]);
    intuition congruence.
Qed.

Lemma In_prune_candidates now db (c : ScoredRow) :
  In c (prune_candidates now db) <->
  exists r, candidate_in db r /\ c = scored now r
            /\ (row_score now r < 0.3)%R.
Proof.
  unfold prune_candidates, candidate_in.
  rewrite In_sort_by, filter_In, in_map_iff, Rltb_lt. split.
  - intros [(r & <- & Hin) Hs]. apply filter_In in Hin.
    destruct Hin as [Hin Hp]. apply prunable_iff in Hp.
    exists r. simpl in Hs. tauto.
  - intros (r & (Hin & Hp) & -> & Hs). split; [| exact Hs].
    exists r. split; [reflexivity |]. apply filter_In.
    split; [assumption | now apply prunable_iff].
Qed.

Lemma In_prune_deleted now db dryRun (c : ScoredRow) :
  In c (deleted (fst (pruneStaleEntries now db dryRun))) <->
  exists r, candidate_in db r /\ c = scored now r
            /\ (row_score now r < 0.1)%R.
Proof.
  unfold pruneStaleEntries. cbn [fst deleted].
  rewrite filter_In, In_prune_candidates, Rltb_lt. split.
  - intros [(r & Hc & -> & _) Hs]. exists r. simpl in Hs. tauto.
  - intros (r & Hc & -> & Hs). split; [| exact Hs].
    exists r. split; [exact Hc |]. split; [reflexivity | lra].
Qed.

Lemma In_prune_flagged now db dryRun (c : ScoredRow) :
  In c (flagged (fst (pruneStaleEntries now db dryRun))) <->
  exists r, candidate_in db r /\ c = scored now r
            /\ (0.1 <= row_score now r < 0.3)%R.
Proof.
  unfold pruneStaleEntries. cbn [fst flagged].
  rewrite filter_In, In_prune_candidates, andb_true_iff, Rleb_le, Rltb_lt.
  split.
  - intros [(r & Hc & -> & _) Hs]. exists r. simpl in Hs. tauto.
  - intros (r & Hc & -> & Hs). split; [| exact Hs].
    exists r. split; [exact Hc |]. split; [reflexivity | lra].
Qed.

(** The rows left by a real sweep: those whose id is not an id of
    [deleted]. *)
Lemma In_pruned_rows now db (r : KnowledgeRow) :
  In r (rows (snd (pruneStaleEntries now db false))) <->
  In r (rows db)
  /\ ~ In (id r) (map sc_id (deleted (fst (pruneStaleEntries now db false)))).
Proof.
  unfold pruneStaleEntries. cbn [fst snd deleted negb andb].
  set (toDelete := filter _ (prune_candidates now db)).
  destruct toDelete as [| c l] eqn:E; cbn [List.length Nat.ltb Nat.leb].
  - simpl. tauto.
  - cbn [rows]. rewrite In_delete_where. 
    assert (H : existsb (Z.eqb (id r)) (map sc_id (c :: l)) = false
                <-> ~ In (id r) (map sc_id (c :: l))).
    { rewrite <- not_true_iff_false, existsb_exists. split.
      - intros H Hin. apply H. exists (id r). split; [assumption | apply Z.eqb_refl].
      - intros H (y & Hy & Ey). apply Z.eqb_eq in Ey. subst y. contradiction. }
    rewrite H. reflexivity.
Qed.

Lemma wf_same_id (db : Db) (r r' : KnowledgeRow) :
  db_wf db -> In r (rows db) -> In r' (rows db) -> id r = id r' -> r = r'.
Proof.
  intros Hwf Hr Hr' E.
  assert (H := select_by_id_unique db r Hwf Hr).
  assert (Hin : In r' (select_by_id db (id r))).
  { apply In_select_by_id. auto. }
  rewrite H in Hin. destruct Hin as [-> | []]. reflexivity.
Qed.

(** A blend with no access counted and none in the last 180 days is its
    importance term alone. *)
Lemma spec_blend_unvisited (rate cf dsc dsa : R) :
  (0 <= cf <= 1 -> 0 <= rate * dsc -> 180 <= dsa ->
   spec_blend rate cf 0 dsc dsa = 0.4 * (cf * exp (- rate * dsc))
   /\ cf * (1 - rate * dsc) <= cf * exp (- rate * dsc) <= cf)%R.
Proof.
  intros Hcf Hr Hd. unfold spec_blend.
  replace (IZR 0 + 1)%R with 1%R by lra. rewrite ln_1.
  replace (0 / ln 50)%R with 0%R by (unfold Rdiv; ring).
  replace (Rmin 0 1) with 0%R by (unfold Rmin; destruct (Rle_dec 0 1); lra).
  replace (Rmax (1 - dsa / 180) 0) with 0%R
    by (unfold Rmax; destruct (Rle_dec _ _); lra).
  assert (E1 : (exp (- rate * dsc) <= 1)%R).
  { rewrite <- exp_0. destruct (Req_dec (- rate * dsc) 0) as [-> | N];
      [lra |]. left. apply exp_increasing. lra. }
  assert (E2 : (1 - rate * dsc <= exp (- rate * dsc))%R).
  { pose proof (exp_ineq1_le (- rate * dsc)) as H. lra. }
  pose proof (exp_pos (- rate * dsc)) as E3.
  assert (B : (cf * (1 - rate * dsc) <= cf * exp (- rate * dsc) <= cf)%R) by nra.
  split; [| exact B].
  rewrite clamp_unit_id; nra.
Qed.

Lemma sweep_db_wf : db_wf sweep_db.
Proof.
  split; simpl.
  - repeat constructor; simpl; intuition discriminate.
  - repeat constructor; simpl; lia.
Qed.

(** 1000 days on, the decision scores 0.04 * exp(-10). *)
Lemma stale_row_score :
  (retention_score (1000 * day) (confidence stale_row) (access_count stale_row)
     (last_accessed stale_row) (memory_type stale_row) (tags stale_row)
     (created_at stale_row) < 0.1)%R.
Proof.
  cbn [confidence access_count last_accessed memory_type tags created_at
       stale_row].
  rewrite retention_score_blend; [| simpl; tauto | discriminate].
  unfold epoch_days, coalesce, decay_rate_of, day.
  replace (IZR (1000 * (86400 * 1000000) - 0) / 1000000 / 86400)%R
    with 1000%R by (simpl; lra).
  replace (Q2R (1 # 10)) with 0.1%R by (unfold Q2R; simpl; lra).
  assert (H := spec_blend_unvisited 0.01 0.1 1000 1000
                 ltac:(lra) ltac:(lra) ltac:(lra)).
  destruct H as [E B]. lra.
Qed.

(** The architecture entry, 200 days old, scores 0.2 * exp(-0.2), between
    0.16 and 0.2. *)
Lemma aging_row_score :
  (0.1 <= retention_score (1000 * day) (confidence aging_row)
            (access_count aging_row) (last_accessed aging_row)
            (memory_type aging_row) (tags aging_row) (created_at aging_row)
   < 0.3)%R.
Proof.
  cbn [confidence access_count last_accessed memory_type tags created_at
       aging_row].
  rewrite retention_score_blend;
    [| simpl; intuition discriminate | discriminate].
  unfold epoch_days, coalesce, decay_rate_of, day.
  replace (IZR (1000 * (86400 * 1000000) - 800 * (86400 * 1000000))
           / 1000000 / 86400)%R with 200%R by (simpl; lra).
  replace (Q2R (1 # 2)) with 0.5%R by (unfold Q2R; simpl; lra).
  assert (H := spec_blend_unvisited 0.001 0.5 200 200
                 ltac:(lra) ltac:(lra) ltac:(lra)).
  destruct H as [E B]. lra.
Qed.

(** C5. A dry run leaves the table as it is. A real sweep removes exactly
    the rows that are not core, do not carry the tag "protected" and score
    below 0.1, the score of a row being [retention_score] of its own
    confidence, access count, last access, memory type, tags and creation
    date at the time of the sweep. In either mode the [deleted] list is
    made of exactly those rows (id, topic, source, score) and the [flagged]
    list of exactly the rows that are not core, not protected and score at
    least 0.1 and below 0.3; flagged rows stay in the table. Core rows and
    rows tagged "protected" are taken out before any score is computed:
    they appear in neither list and stay in the table. *)
Theorem prune_spec :
  forall now db,
    db_wf db ->
    let score := fun r : KnowledgeRow =>
      retention_score now (confidence r) (access_count r) (last_accessed r)
                      (memory_type r) (tags r) (created_at r) in
    let entry := fun r : KnowledgeRow =>
      mkScored (id r) (topic r) (source r) (score r) in
    snd (pruneStaleEntries now db true) = db
    /\ (forall r, In r (rows (snd (pruneStaleEntries now db false))) <->
                  In r (rows db)
                  /\ ~ (memory_type r <> core /\ ~ In "protected" (tags r)
                        /\ (score r < 0.1)%R))
    /\ (forall dryRun c,
          In c (deleted (fst (pruneStaleEntries now db dryRun))) <->
          exists r, In r (rows db) /\ c = entry r
                    /\ memory_type r <> core /\ ~ In "protected" (tags r)
                    /\ (score r < 0.1)%R)
    /\ (forall dryRun c,
          In c (flagged (fst (pruneStaleEntries now db dryRun))) <->
          exists r, In r (rows db) /\ c = entry r
                    /\ memory_type r <> core /\ ~ In "protected" (tags r)
                    /\ (0.1 <= score r < 0.3)%R)
    /\ (forall dryRun r,
          In r (rows db) -> memory_type r <> core ->
          ~ In "protected" (tags r) -> (0.1 <= score r < 0.3)%R ->
          In (entry r) (flagged (fst (pruneStaleEntries now db dryRun)))
          /\ In r (rows (snd (pruneStaleEntries now db dryRun))))
    /\ (forall dryRun r,
          In r (rows db) ->
          memory_type r = core \/ In "protected" (tags r) ->
          In r (rows (snd (pruneStaleEntries now db dryRun)))
          /\ ~ In (id r) (map sc_id (deleted (fst (pruneStaleEntries now db dryRun))))
          /\ ~ In (id r) (map sc_id (flagged (fst (pruneStaleEntries now db dryRun))))).
Proof.
  intros now db Hwf score entry.
  assert (Es : score = row_score now) by reflexivity.
  assert (Ee : entry = scored now) by reflexivity.
  clearbody score entry. subst score entry.
  assert (Hdel : forall dryRun c,
            In c (deleted (fst (pruneStaleEntries now db dryRun))) <->
            exists r, In r (rows db) /\ c = scored now r
                      /\ memory_type r <> core /\ ~ In "protected" (tags r)
                      /\ (row_score now r < 0.1)%R).
  { intros dryRun c. rewrite In_prune_deleted. unfold candidate_in.
    split; intros (r & H); exists r; tauto. }
  assert (Hflag : forall dryRun c,
            In c (flagged (fst (pruneStaleEntries now db dryRun))) <->
            exists r, In r (rows db) /\ c = scored now r
                      /\ memory_type r <> core /\ ~ In "protected" (tags r)
                      /\ (0.1 <= row_score now r < 0.3)%R).
  { intros dryRun c. rewrite In_prune_flagged. unfold candidate_in.
    split; intros (r & H); exists r; tauto. }
  assert (Hids : forall dryRun r,
            In r (rows db) ->
            (In (id r) (map sc_id (deleted (fst (pruneStaleEntries now db dryRun))))
             <-> memory_type r <> core /\ ~ In "protected" (tags r)
                 /\ (row_score now r < 0.1)%R)).
  { intros dryRun r Hin. rewrite in_map_iff. split.
    - intros (c & Hid & Hc). apply Hdel in Hc.
      destruct Hc as (r0 & Hin0 & -> & H). simpl in Hid.
      rewrite (wf_same_id db r r0 Hwf Hin Hin0 (eq_sym Hid)). exact H.
    - intros H. exists (scored now r). split; [reflexivity |].
      apply Hdel. exists r. tauto. }
  assert (Hrows : forall r,
            In r (rows (snd (pruneStaleEntries now db false))) <->
            In r (rows db)
            /\ ~ (memory_type r <> core /\ ~ In "protected" (tags r)
                  /\ (row_score now r < 0.1)%R)).
  { intros r. rewrite In_pruned_rows. split; intros [Hin H];
      (split; [assumption |]); rewrite (Hids false r Hin) in *; assumption. }
  assert (Hdry : snd (pruneStaleEntries now db true) = db) by reflexivity.
  split; [exact Hdry |]. split; [exact Hrows |].
  split; [exact Hdel |]. split; [exact Hflag |]. split.
  - intros dryRun r Hin Hm Hp Hs. split.
    + apply Hflag. exists r. tauto.
    + destruct dryRun; [rewrite Hdry; assumption |].
      apply Hrows. split; [assumption |]. intros (_ & _ & Hlt). lra.
  - intros dryRun r Hin Himm. split; [| split].
    + destruct dryRun; [rewrite Hdry; assumption |].
      apply Hrows. split; [assumption |]. tauto.
    + rewrite (Hids dryRun r Hin). tauto.
    + rewrite in_map_iff. intros (c & Hid & Hc). apply Hflag in Hc.
      destruct Hc as (r0 & Hin0 & -> & H). simpl in Hid.
      rewrite (wf_same_id db r r0 Hwf Hin Hin0 (eq_sym Hid)) in Himm. tauto.
Qed.

(** The sweep of [sweep_db] after 1000 days: the stale decision goes and
    is reported, the aging entry is flagged and stays, the protected note
    and the agent rules stay; a dry run removes nothing. *)
Lemma prune_spec_witness :
  db_wf sweep_db
  /\ snd (pruneStaleEntries (1000 * day) sweep_db true) = sweep_db
  /\ ~ In stale_row (rows (snd (pruneStaleEntries (1000 * day) sweep_db false)))
  /\ In 1 (map sc_id
             (deleted (fst (pruneStaleEntries (1000 * day) sweep_db false))))
  /\ In aging_row (rows (snd (pruneStaleEntries (1000 * day) sweep_db false)))
  /\ In 2 (map sc_id
             (flagged (fst (pruneStaleEntries (1000 * day) sweep_db false))))
  /\ In pinned_row (rows (snd (pruneStaleEntries (1000 * day) sweep_db false)))
  /\ In rules_row (rows (snd (pruneStaleEntries (1000 * day) sweep_db false))).
Proof.
  set (now := 1000 * day).
  destruct (prune_spec now sweep_db sweep_db_wf)
    as (Hdry & Hrows & Hdel & Hflag & Hkeep & Himm).
  split; [exact sweep_db_wf |]. split; [exact Hdry |].
  split; [| split; [| split; [| split; [| split]]]].
  - intros Hin. apply Hrows in Hin. destruct Hin as [_ Hn]. apply Hn.
    split; [discriminate |]. split; [simpl; tauto | exact stale_row_score].
  - change 1 with (sc_id (scored now stale_row)). apply in_map.
    apply Hdel. exists stale_row.
    split; [now left |]. split; [reflexivity |].
    split; [discriminate |]. split; [simpl; tauto | exact stale_row_score].
  - apply (Hkeep false aging_row).
    + right. now left.
    + discriminate.
    + simpl. intuition discriminate.
    + exact aging_row_score.
  - change 2 with (sc_id (scored now aging_row)). apply in_map.
    apply (Hkeep false aging_row).
    + right. now left.
    + discriminate.
    + simpl. intuition discriminate.
    + exact aging_row_score.
  - apply (Himm false pinned_row).
    + right. right. now left.
    + right. simpl. now left.
  - apply (Himm false rules_row).
    + right. right. right. now left.
    + left. reflexivity.
Defined.

(** ** [ILIKE] on the patterns of the fallback *)

Lemma like_match_percent (p t : string) :
  like_match (String "%" p) t
  = (like_match p t
     || match t with
        | EmptyString => false
        | String _ t' => like_match (String "%" p) t'
        end)%bool.
Proof. destruct t; reflexivity. Qed.

Lemma like_match_percent_only (u : string) : like_match "%" u = true.
Proof.
  induction u as [| c u IH]; rewrite like_match_percent; [reflexivity |].
  rewrite IH. apply orb_true_r.
Qed.

Lemma like_match_plain_char (c : ascii) (p t : string) :
  is_like_meta c = false ->
  like_match (String c p) t
  = match t with
    | EmptyString => false
    | String d t' => (Ascii.eqb c d && like_match p t')%bool
    end.
Proof.
  unfold is_like_meta. intros H.
  apply orb_false_iff in H. destruct H as [H H3].
  apply orb_false_iff in H. destruct H as [H1 H2].
  cbn [like_match]. now rewrite H1, H2, H3.
Qed.

(** A plain word followed by [%] matches the texts that start with it. *)
Lemma like_match_plain_prefix (w u : string) :
  plain_word w = true -> like_match (w ++ "%") u = String.prefix w u.
Proof.
  revert u. induction w as [| c w IH]; intros u Hw.
  - simpl append. rewrite like_match_percent_only. now destruct u.
  - simpl in Hw. apply andb_true_iff in Hw. destruct Hw as [Hc Hw].
    apply negb_true_iff in Hc. simpl append.
    rewrite (like_match_plain_char c _ u Hc).
    destruct u as [| d u]; [reflexivity |].
    rewrite (IH u Hw). simpl.
    destruct (ascii_dec c d) as [-> | N].
    + now rewrite Ascii.eqb_refl.
    + apply Ascii.eqb_neq in N. now rewrite N.
Qed.

(** [%word%] matches the texts that contain the word. *)
Lemma like_match_contains (w t : string) :
  plain_word w = true -> like_match ("%" ++ w ++ "%") t = Js.includes t w.
Proof.
  intros Hw. simpl append.
  induction t as [| c t IH]; rewrite like_match_percent.
  - rewrite (like_match_plain_prefix w _ Hw). reflexivity.
  - rewrite (like_match_plain_prefix w _ Hw), IH. reflexivity.
Qed.

Lemma lower_ascii_meta (c : ascii) :
  is_like_meta (Js.lower_ascii c) = is_like_meta c.
Proof. destruct c as [[] [] [] [] [] [] [] []]; reflexivity. Qed.

Lemma toLowerCase_plain (w : string) :
  plain_word (Js.toLowerCase w) = plain_word w.
Proof.
  induction w as [| c w IH]; simpl; [reflexivity |].
  now rewrite lower_ascii_meta, IH.
Qed.

Lemma toLowerCase_app (a b : string) :
  Js.toLowerCase (a ++ b) = Js.toLowerCase a ++ Js.toLowerCase b.
Proof.
  induction a as [| c a IH]; simpl; [reflexivity | now rewrite IH].
Qed.

(** For a word without [%], [_] or backslash, [text ILIKE '%word%'] is the
    search of the word in the text, both in lower case. *)
Lemma ilike_substring (text w : string) :
  plain_word w = true ->
  ilike text ("%" ++ w ++ "%")
  = Js.includes (Js.toLowerCase text) (Js.toLowerCase w).
Proof.
  intros Hw. unfold ilike. rewrite !toLowerCase_app.
  change (Js.toLowerCase "%") with "%".
  apply like_match_contains. now rewrite toLowerCase_plain.
Qed.

(** What the fallback keeps, on plain words: the rows whose topic contains
    a word, and the rows whose content contains a word and that pass the
    filters. *)
Lemma fallback_where_plain (words : list string) src tgs (k : KnowledgeRow) :
  forallb plain_word words = true ->
  fallback_where (fallback_patterns words) src tgs k
  = (existsb (fun w => Js.includes (Js.toLowerCase (topic k)) (Js.toLowerCase w))
             words
     || (existsb (fun w => Js.includes (Js.toLowerCase (content k))
                                       (Js.toLowerCase w)) words
         && source_ok src k && tags_ok tgs k))%bool.
Proof.
  intros Hw. unfold fallback_where, ilike_any, fallback_patterns.
  assert (E : forall text,
             existsb (ilike text) (map (fun w => "%" ++ w ++ "%") words)
             = existsb (fun w => Js.includes (Js.toLowerCase text)
                                             (Js.toLowerCase w)) words).
  { intros text. induction words as [| w ws IH]; cbn [existsb map];
      [reflexivity |].
    cbn [forallb] in Hw. apply andb_true_iff in Hw. destruct Hw as [H1 H2].
    now rewrite (ilike_substring text w H1), (IH H2). }
  now rewrite !E.
Qed.

(** A row matched on its topic is kept whatever the filters say. *)
Lemma fallback_where_topic (patterns : list string) src tgs (k : KnowledgeRow) :
  ilike_any (topic k) patterns = true ->
  fallback_where patterns src tgs k = true.
Proof. intros H. unfold fallback_where. now rewrite H. Qed.

(** The fallback returns rows of the table that its [WHERE] keeps, each
    with the share of the patterns it matches, by rank and within the
    limit. *)
Lemma fallback_query_spec (patterns : list string) src tgs limit (db : Db) :
  let result := fallback_query patterns src tgs limit db in
  Sorted (fun a b => (snd b <= snd a)%Q) result
  /\ (List.length result <= Nat.min limit 50)%nat
  /\ (forall k q, In (k, q) result ->
        In k (rows db) /\ fallback_where patterns src tgs k = true
        /\ q = fallback_rank patterns k).
Proof.
  intros result. unfold result, fallback_query.
  destruct (order_limit_spec limit
              (map (fun k => (k, fallback_rank patterns k))
                   (filter (fallback_where patterns src tgs) (rows db))))
    as (H1 & H2 & H3 & H4).
  split; [exact H1 |]. split; [lia |].
  intros k q Hin. apply H4 in Hin. apply in_map_iff in Hin.
  destruct Hin as (k0 & E & Hk). injection E as -> <-.
  apply filter_In in Hk. tauto.
Qed.

(** ** [searchKnowledge] *)

Section SearchFacts.

Variable ts_match : string -> KnowledgeRow -> bool.
Variable ts_rank : string -> KnowledgeRow -> Q.

Lemma order_limit_nil (limit : nat) : order_limit limit [] = [].
Proof. unfold order_limit. simpl. apply firstn_nil. Qed.

(** The primary tier applies the source filter to every row. *)
Lemma primary_query_source query src tgs limit db :
  (forall k, In k (rows db) -> source_ok src k = false) ->
  primary_query ts_match ts_rank query src tgs limit db = [].
Proof.
  intros H. unfold primary_query.
  replace (filter _ (rows db)) with (@nil KnowledgeRow);
    [apply order_limit_nil |].
  symmetry. induction (rows db) as [| k l IH]; simpl; [reflexivity |].
  rewrite (H k (or_introl eq_refl)), andb_false_r. simpl.
  apply IH. intros k' Hk'. apply H. now right.
Qed.

(** The fallback is not taken when the primary tier returns a row. *)
Lemma search_primary_first query src tgs limit db :
  primary_query ts_match ts_rank query src tgs limit db <> [] ->
  searchKnowledge ts_match ts_rank query src tgs limit db
  = primary_query ts_match ts_rank query src tgs limit db.
Proof.
  intros H. unfold searchKnowledge.
  destruct (primary_query ts_match ts_rank query src tgs limit db);
    [contradiction | reflexivity].
Qed.

(** No word of three characters or more: the fallback returns nothing. *)
Lemma search_no_words query src tgs limit db :
  primary_query ts_match ts_rank query src tgs limit db = [] ->
  fallback_words query = [] ->
  searchKnowledge ts_match ts_rank query src tgs limit db = [].
Proof.
  intros H W. unfold searchKnowledge. rewrite H, W.
  destruct (Nat.leb 2 (String.length (Js.trim query))); reflexivity.
Qed.

(** C6, at a failing input. No row of the table has source "devops", so
    the primary tier returns nothing whatever the full-text engine
    matches; the fallback then returns both rows, whose topics contain
    "pricing", although the caller asked for source "devops": the source
    filter did not apply to the rows matched on their topic. *)
Theorem search_fallback_skips_filter :
  (forall k, In k (rows two_rows_db) -> source k <> "devops")
  /\ searchKnowledge ts_match ts_rank "pricing" (Some "devops") None 10
                     two_rows_db
     = [(row_a, 1 # 1); (row_b, 1 # 1)].
Proof.
  split.
  - intros k [<- | [<- | []]]; discriminate.
  - unfold searchKnowledge. rewrite primary_query_source.
    + vm_compute. reflexivity.
    + intros k [<- | [<- | []]]; reflexivity.
Qed.

End SearchFacts.

(** ** Two saves in flight *)

(** A call that runs its two statements back to back is [saveKnowledge]. *)
Lemma save_steps_sequential now (db : Db) (a : SaveArgs) :
  (let '(db1, t1) := save_step now db (SaveStart a) in save_step now db1 t1)
  = (snd (saveKnowledge now db a), SaveDone (fst (saveKnowledge now db a))).
Proof.
  unfold save_step, saveKnowledge.
  destruct (save_write now db a (save_select db a)). reflexivity.
Qed.

(** Whatever the table and the arguments: when no row carries the triple
    and both [SELECT]s run first, both calls insert. *)
Lemma save_race_general now (db : Db) (a : SaveArgs) :
  save_select db a = None ->
  run_saves now [true; false; true; false] db (SaveStart a) (SaveStart a)
  = (mkDb ((rows db ++ [save_new_row now (next_id db) a])
           ++ [save_new_row now (next_id db + 1) a])
          (next_id db + 1 + 1),
     SaveDone (next_id db), SaveDone (next_id db + 1)).
Proof. intros H. simpl. rewrite H. reflexivity. Qed.

(** C8, at a failing input. Two saves of the same (topic, source, content)
    on an empty table: when both [SELECT]s run before either write, both
    calls insert, the table holds two rows with that triple and the calls
    return different ids. Run one after the other, the same calls insert
    once and return the same id. *)
Theorem save_race_inserts_twice :
  (let '(db, t1, t2) :=
     run_saves 7 [true; false; true; false] empty_db
               (SaveStart stripe_save) (SaveStart stripe_save) in
   t1 = SaveDone 1 /\ t2 = SaveDone 2
   /\ map id (filter (natural_key_is stripe_save) (rows db)) = [1; 2])
  /\ (let '(db, t1, t2) :=
       run_saves 7 [true; true; false; false] empty_db
                 (SaveStart stripe_save) (SaveStart stripe_save) in
     t1 = SaveDone 1 /\ t2 = SaveDone 1
     /\ map id (filter (natural_key_is stripe_save) (rows db)) = [1]).
Proof. vm_compute. repeat split; reflexivity. Qed.

(** ** Entry points of a save *)

(** The tool refuses what its schema refuses, and leaves the table alone. *)
Lemma tool_rejects_invalid now (db : Db) (req : SaveRequest) :
  inputSchema req = false ->
  saveKnowledgeTool now db req = (InvalidArguments, db).
Proof. intros H. unfold saveKnowledgeTool. now rewrite H. Qed.

(** The REST route refuses an absent or empty topic, content or source. *)
Lemma api_save_rejects_missing now (db : Db) (req : SaveRequest) :
  js_not (req_topic req) = true \/ js_not (req_content req) = true
  \/ js_not (req_source req) = true ->
  api_save now db req
  = (Status400 "Missing required fields: topic, content, source", db).
Proof.
  intros H. unfold api_save.
  destruct (js_not (req_topic req)), (js_not (req_content req)),
    (js_not (req_source req)); simpl; try reflexivity.
  destruct H as [H | [H | H]]; discriminate.
Qed.

(** The REST route saves any request whose topic, content and source are
    present and not empty, whatever the schema of the tool says of it. *)
Lemma api_save_accepts now (db : Db) (req : SaveRequest) (tp ct src : string) :
  req_topic req = Some tp -> req_content req = Some ct ->
  req_source req = Some src ->
  tp <> "" -> ct <> "" -> src <> "" ->
  api_save now db req
  = (Saved (fst (saveKnowledge now db (save_args_of tp ct src req))),
     snd (saveKnowledge now db (save_args_of tp ct src req))).
Proof.
  intros Et Ec Es Nt Nc Ns. unfold api_save. rewrite Et, Ec, Es. simpl.
  apply String.eqb_neq in Nt, Nc, Ns. rewrite Nt, Nc, Ns. simpl.
  destruct (saveKnowledge now db (save_args_of tp ct src req)). reflexivity.
Qed.

(** C9, at a failing input. A save whose source is outside the known list
    and whose confidence is 5 breaks the schema; the tool refuses it and
    leaves the table empty, but [POST /api/save] stores it as it is. *)
Theorem api_save_stores_invalid :
  inputSchema bad_request = false
  /\ saveKnowledgeTool 7 empty_db bad_request = (InvalidArguments, empty_db)
  /\ api_save 7 empty_db bad_request
     = (Saved 1,
        mkDb [mkRow 1 "pricing" "Prices rise in May" "not-a-project" "unknown"
                    [] (5 # 1) 0 None architecture 7 7] 2).
Proof. vm_compute. repeat split; reflexivity. Qed.

(** * Further properties of the code *)

(** ** [authMiddleware] *)

Lemma prefix_slice (p s : string) :
  String.prefix p s = true -> s = p ++ slice (String.length p) s.
Proof.
  revert s. induction p as [| c p IH]; intros s H; simpl.
  - reflexivity.
  - destruct s as [| d s]; simpl in H; [discriminate |].
    destruct (ascii_dec c d) as [-> | N]; [| discriminate].
    now rewrite <- (IH s H).
Qed.

Lemma prefix_app (p s : string) : String.prefix p (p ++ s) = true.
Proof.
  induction p as [| c p IH]; simpl; [now destruct s |].
  destruct (ascii_dec c c); [exact IH | contradiction].
Qed.

Lemma slice_app (p s : string) : slice (String.length p) (p ++ s) = s.
Proof. induction p as [| c p IH]; simpl; [reflexivity | exact IH]. Qed.

(** X1. A request passes the middleware exactly when its path is
    "/health" or its Authorization header is "Bearer " followed by the
    configured token; with no token configured only "/health" passes. *)
Theorem authMiddleware_passes :
  forall TOKEN path authorization,
    (authMiddleware TOKEN path authorization = Next <->
     path = "/health"
     \/ exists t, TOKEN = Some t /\ authorization = Some ("Bearer " ++ t))
    /\ (TOKEN = None ->
        (authMiddleware TOKEN path authorization = Next <-> path = "/health")).
Proof.
  intros TOKEN path authorization.
  assert (M : authMiddleware TOKEN path authorization = Next <->
              path = "/health"
              \/ exists t, TOKEN = Some t /\ authorization = Some ("Bearer " ++ t)).
  { unfold authMiddleware. destruct (String.eqb_spec path "/health") as [E | N].
    { split; auto. }
    destruct authorization as [h |].
    - destruct (String.eqb_spec h "") as [-> | Nh]; cbn [orb].
      { split; [discriminate |]. intros [E | (t & _ & E)]; [contradiction |].
        discriminate. }
      unfold startsWith. destruct (String.prefix "Bearer " h) eqn:P; cbn [negb].
      + apply prefix_slice in P. change (String.length "Bearer ") with 7%nat in P.
        destruct TOKEN as [t |].
        * destruct (String.eqb_spec (slice 7 h) t) as [E | Nt].
          -- split; [| reflexivity]. intros _. right. exists t.
             split; [reflexivity |]. rewrite P, E. reflexivity.
          -- split; [discriminate |].
             intros [E | (t' & Et & Eh)]; [contradiction |].
             injection Et as <-. injection Eh as ->.
             exfalso. apply Nt. apply (slice_app "Bearer " t).
        * split; [discriminate |].
          intros [E | (t' & Et & _)]; [contradiction | discriminate].
      + split; [discriminate |].
        intros [E | (t' & _ & Eh)]; [contradiction |].
        injection Eh as ->.
        exfalso. exact (eq_true_false_abs _ (prefix_app "Bearer " t') P).
    - split; [discriminate |].
      intros [E | (t' & _ & Eh)]; [contradiction | discriminate]. }
  split; [exact M |].
  intros ->. rewrite M. split; [| auto].
  intros [E | (t & Et & _)]; [exact E | discriminate].
Qed.

(** ** [recordAccess] *)

Lemma existsb_Zeqb (i : Z) (ids : list Z) :
  existsb (Z.eqb i) ids = true <-> In i ids.
Proof.
  rewrite existsb_exists. split.
  - intros (j & Hj & E). apply Z.eqb_eq in E. now subst.
  - intros H. exists i. split; [assumption | apply Z.eqb_refl].
Qed.

Lemma recordAccess_rows now (db : Db) (ids : list Z) :
  rows (recordAccess now db ids)
  = update_where (fun r => existsb (Z.eqb (id r)) ids) (accessed now) (rows db).
Proof.
  unfold recordAccess. destruct ids as [| i l]; [| reflexivity].
  unfold update_where. simpl. symmetry. apply map_id.
Qed.

(** X2. [recordAccess] keeps every row in its place and the sequence as
    it is; a row whose id is listed gets its access count raised by one and
    its last access set to now, however often the id is listed; every
    other row is unchanged. Two lists with the same ids have the same
    effect, and the empty list has none. *)
Theorem recordAccess_effect :
  forall now db ids,
    map id (rows (recordAccess now db ids)) = map id (rows db)
    /\ next_id (recordAccess now db ids) = next_id db
    /\ (forall r', In r' (rows (recordAccess now db ids)) <->
          exists r, In r (rows db)
                    /\ ((In (id r) ids /\ r' = accessed now r)
                        \/ (~ In (id r) ids /\ r' = r)))
    /\ (forall ids', (forall i, In i ids <-> In i ids') ->
          recordAccess now db ids' = recordAccess now db ids)
    /\ recordAccess now db [] = db.
Proof.
  intros now db ids.
  split; [| split; [| split; [| split]]].
  - rewrite recordAccess_rows. apply update_where_ids. reflexivity.
  - unfold recordAccess. now destruct ids.
  - intros r'. rewrite recordAccess_rows, In_update_where.
    split; intros (r & Hin & H); exists r; (split; [assumption |]).
    + destruct (existsb (Z.eqb (id r)) ids) eqn:E.
      * left. split; [now apply existsb_Zeqb | assumption].
      * right. split; [| assumption].
        rewrite <- existsb_Zeqb. congruence.
    + destruct H as [[Hi ->] | [Hi ->]].
      * apply existsb_Zeqb in Hi. now rewrite Hi.
      * destruct (existsb (Z.eqb (id r)) ids) eqn:E; [| reflexivity].
        apply existsb_Zeqb in E. contradiction.
  - intros ids' Hsame.
    assert (E : forall r, existsb (Z.eqb (id r)) ids'
                          = existsb (Z.eqb (id r)) ids).
    { intros r. apply eq_true_iff_eq. rewrite !existsb_Zeqb.
      symmetry. apply Hsame. }
    destruct db as [rs nx].
    assert (R : rows (recordAccess now (mkDb rs nx) ids')
                = rows (recordAccess now (mkDb rs nx) ids)).
    { rewrite !recordAccess_rows. unfold update_where. apply map_ext.
      intros r. now rewrite E. }
    assert (N : forall l, recordAccess now (mkDb rs nx) l
                          = mkDb (rows (recordAccess now (mkDb rs nx) l)) nx).
    { intros l. unfold recordAccess. now destruct l. }
    rewrite (N ids'), (N ids), R. reflexivity.
  - reflexivity.
Qed.

(** ** [deleteKnowledge] *)

Lemma delete_where_twice cond (l : list KnowledgeRow) :
  delete_where cond (delete_where cond l) = delete_where cond l.
Proof.
  unfold delete_where. induction l as [| r l IH]; simpl; [reflexivity |].
  destruct (cond r) eqn:E; simpl; [exact IH |].
  rewrite E. simpl. now rewrite IH.
Qed.

Lemma select_after_delete (db : Db) (i : Z) :
  select_by_id (mkDb (delete_where (id_is i) (rows db)) (next_id db)) i = [].
Proof.
  apply select_by_id_nil. cbn [rows]. intros r Hin.
  apply In_delete_where in Hin. destruct Hin as [_ Hin].
  unfold id_is in Hin. now apply Z.eqb_neq.
Qed.

(** X3. Called with an id within the range of [INT], [deleteKnowledge]
    answers [true] exactly when a row has the id; it removes the rows with
    that id and no other, leaves the sequence alone (the id is not given
    out again), and a second delete of the same id answers [false] and
    changes nothing. Called with any other integer, as with 3000000000, it
    raises and the table is as it was. *)
Theorem deleteKnowledge_removes :
  (forall db i,
     -2147483648 <= i <= 2147483647 ->
     exists found db',
       deleteKnowledge_call db i = (Returned found, db')
       /\ (found = true <-> exists r, In r (rows db) /\ id r = i)
       /\ (forall r, In r (rows db') <-> In r (rows db) /\ id r <> i)
       /\ next_id db' = next_id db
       /\ deleteKnowledge_call db' i = (Returned false, db'))
  /\ (forall db i,
        ~ (-2147483648 <= i <= 2147483647) ->
        exists e, deleteKnowledge_call db i = (Raised e, db))
  /\ deleteKnowledge_call two_rows_db 3000000000 = (Raised "22003", two_rows_db)
  /\ deleteKnowledge_call two_rows_db (-2147483649) = (Raised "22003", two_rows_db)
  /\ deleteKnowledge_call two_rows_db 2147483647 = (Returned false, two_rows_db)
  /\ deleteKnowledge_call two_rows_db 2 = (Returned true, mkDb [row_a] 3).
Proof.
  split; [| split; [| repeat split; reflexivity]].
  - intros db i Hi. unfold deleteKnowledge_call.
    apply int_param_error_none in Hi. rewrite Hi.
    destruct (deleteKnowledge_spec db i) as [H1 H2].
    destruct (deleteKnowledge db i) as [found db'] eqn:E.
    cbn [fst snd] in H1, H2.
    exists found, db'. split; [reflexivity |].
    split; [exact H1 |]. split; [exact H2 |].
    assert (E' : db' = mkDb (delete_where (id_is i) (rows db)) (next_id db)).
    { unfold deleteKnowledge in E. now injection E as _ <-. }
    split; [now rewrite E' |].
    rewrite E'. unfold deleteKnowledge. cbn [rows next_id].
    rewrite select_after_delete, delete_where_twice. reflexivity.
  - intros db i Hi. unfold deleteKnowledge_call.
    destruct (int_param_error i) as [e |] eqn:E; [now exists e |].
    apply int_param_error_none in E. contradiction.
Qed.

(** ** Saving and reading back *)

Lemma filter_update_same cond set (l : list KnowledgeRow) :
  (forall r, cond (set r) = cond r) ->
  filter cond (update_where cond set l) = map set (filter cond l).
Proof.
  intros H. unfold update_where. induction l as [| r l IH]; simpl; [reflexivity |].
  destruct (cond r) eqn:E.
  - rewrite H, E. simpl. now rewrite IH.
  - rewrite E. exact IH.
Qed.

Lemma next_id_fresh (db : Db) : db_wf db -> ~ In (next_id db) (map id (rows db)).
Proof.
  intros [_ Hlt] Hin. apply in_map_iff in Hin. destruct Hin as (r & E & Hr).
  rewrite Forall_forall in Hlt. specialize (Hlt r Hr). lia.
Qed.

Lemma delete_where_absent (l : list KnowledgeRow) (i : Z) :
  ~ In i (map id l) -> delete_where (id_is i) l = l.
Proof.
  unfold delete_where. induction l as [| r l IH]; simpl; intros H; [reflexivity |].
  unfold id_is at 1. destruct (id r =? i) eqn:E.
  - apply Z.eqb_eq in E. exfalso. apply H. now left.
  - simpl. f_equal. apply IH. intros Hin. apply H. now right.
Qed.

(** The row that a save leaves under the id it returns. *)
Lemma saveKnowledge_lookup now (db : Db) (a : SaveArgs) :
  db_wf db ->
  exists r,
    select_by_id (snd (saveKnowledge now db a)) (fst (saveKnowledge now db a)) = [r]
    /\ topic r = a_topic a /\ content r = a_content a /\ source r = a_source a
    /\ tags r = a_tags a /\ confidence r = a_confidence a
    /\ user_id r = a_userId a /\ memory_type r = resolvedType a
    /\ updated_at r = now.
Proof.
  intros Hwf. unfold saveKnowledge, save_select.
  destruct (find (natural_key_is a) (rows db)) as [r0 |] eqn:F; cbn [option_map save_write fst snd].
  - apply find_some in F. destruct F as [Hin Hkey].
    exists (save_set now a r0). unfold select_by_id. cbn [rows].
    rewrite filter_update_same by reflexivity.
    destruct Hwf as [Hnd _]. rewrite (filter_id_unique _ _ Hnd Hin).
    split; [reflexivity |].
    unfold natural_key_is in Hkey.
    apply andb_true_iff in Hkey. destruct Hkey as [Hkey Hc].
    apply andb_true_iff in Hkey. destruct Hkey as [Ht Hs].
    apply String.eqb_eq in Ht, Hs. simpl. repeat split; assumption.
  - exists (save_new_row now (next_id db) a). unfold select_by_id. cbn [rows].
    rewrite filter_app, (filter_id_absent _ _ (next_id_fresh db Hwf)).
    simpl. unfold id_is. simpl. rewrite Z.eqb_refl.
    repeat split; reflexivity.
Qed.

(** X4. With ids a primary key, the id that a save returns names exactly
    one row, which carries the topic, content, source, tags, confidence,
    user and resolved memory type of the call and the time of the call as
    updatedAt. When no row carried the triple, deleting that id right
    after gives back the rows as they were, with the sequence advanced by
    one: the id is spent. *)
Theorem save_round_trip :
  forall now db a,
    db_wf db ->
    (exists r,
       select_by_id (snd (saveKnowledge now db a)) (fst (saveKnowledge now db a))
       = [r]
       /\ topic r = a_topic a /\ content r = a_content a /\ source r = a_source a
       /\ tags r = a_tags a /\ confidence r = a_confidence a
       /\ user_id r = a_userId a /\ memory_type r = resolvedType a
       /\ updated_at r = now)
    /\ ((forall r, In r (rows db) -> natural_key_is a r = false) ->
        deleteKnowledge (snd (saveKnowledge now db a)) (fst (saveKnowledge now db a))
        = (true, mkDb (rows db) (next_id db + 1))).
Proof.
  intros now db a Hwf. split; [now apply saveKnowledge_lookup |].
  intros Hnone. apply find_none_iff in Hnone.
  unfold saveKnowledge, save_select. rewrite Hnone.
  cbn [option_map save_write fst snd].
  assert (Hfresh := next_id_fresh db Hwf).
  unfold deleteKnowledge, select_by_id. cbn [rows next_id].
  rewrite filter_app, (filter_id_absent _ _ Hfresh).
  unfold delete_where. rewrite filter_app.
  fold (delete_where (id_is (next_id db)) (rows db)).
  rewrite (delete_where_absent _ _ Hfresh).
  cbn [filter app]. unfold id_is. cbn [id save_new_row].
  rewrite Z.eqb_refl. cbn [negb List.length Nat.ltb Nat.leb].
  rewrite app_nil_r. reflexivity.
Qed.

Lemma save_round_trip_witness :
  db_wf two_rows_db
  /\ deleteKnowledge (snd (saveKnowledge 50 two_rows_db stripe_save))
                     (fst (saveKnowledge 50 two_rows_db stripe_save))
     = (true, mkDb (rows two_rows_db) (next_id two_rows_db + 1)).
Proof.
  split; [exact two_rows_db_wf |].
  apply (proj2 (save_round_trip 50 two_rows_db stripe_save two_rows_db_wf)).
  intros r [<- | [<- | []]]; reflexivity.
Defined.

(** A save leaves alone the rows under other ids. *)
Lemma save_keeps_others now (db : Db) (a : SaveArgs) (x : KnowledgeRow) :
  In x (rows (snd (saveKnowledge now db a))) ->
  id x <> fst (saveKnowledge now db a) ->
  In x (rows db).
Proof.
  unfold saveKnowledge, save_write.
  destruct (save_select db a) as [j |]; cbn [fst snd rows]; intros Hx Ni.
  - apply In_update_where in Hx. destruct Hx as (x0 & Hx0 & ->).
    unfold id_is in *. destruct (id x0 =? j) eqn:Ej; [| assumption].
    apply Z.eqb_eq in Ej. simpl in Ni. contradiction.
  - apply in_app_or in Hx. destruct Hx as [Hx | [<- | []]]; [assumption |].
    simpl in Ni. contradiction.
Qed.

(** ** The [save_knowledge] tool and the constraints of its schema *)

(** X5. With ids a primary key, a save that the tool accepts leaves under
    the id it answers a row within the constraints of the schema (topic of
    1 to 100 characters, content of 1 to 2000, a known source, at most 10
    tags, confidence in [0,1], user of at most 50 characters), and a table
    whose rows were all within them stays so. *)
Theorem tool_save_in_schema :
  forall now db req i db',
    db_wf db ->
    saveKnowledgeTool now db req = (Saved i, db') ->
    (exists r, select_by_id db' i = [r] /\ row_in_schema r)
    /\ (Forall row_in_schema (rows db) -> Forall row_in_schema (rows db')).
Proof.
  intros now db req i db' Hwf H. unfold saveKnowledgeTool in H.
  destruct (inputSchema req) eqn:S; [| discriminate].
  destruct (req_topic req) as [tp |] eqn:Et; [| discriminate].
  destruct (req_content req) as [ct |] eqn:Ec; [| discriminate].
  destruct (req_source req) as [src |] eqn:Es; [| discriminate].
  set (a := save_args_of tp ct src req) in *.
  destruct (saveKnowledge now db a) as [i0 db0] eqn:E.
  injection H as <- <-.
  unfold inputSchema in S. rewrite Et, Ec, Es in S.
  apply andb_true_iff in S. destruct S as [S Su].
  apply andb_true_iff in S. destruct S as [S Sq].
  apply andb_true_iff in S. destruct S as [S Sg].
  apply andb_true_iff in S. destruct S as [S Ss].
  apply andb_true_iff in S. destruct S as [St Sc].
  unfold z_string in St, Sc.
  apply andb_true_iff in St. destruct St as [T1 T2].
  apply andb_true_iff in Sc. destruct Sc as [C1 C2].
  apply Nat.leb_le in T1, T2, C1, C2.
  apply arr_includes_In in Ss.
  assert (Hok : forall r,
            topic r = a_topic a -> content r = a_content a ->
            source r = a_source a -> tags r = a_tags a ->
            confidence r = a_confidence a -> user_id r = a_userId a ->
            row_in_schema r).
  { intros r E1 E2 E3 E4 E5 E6. unfold row_in_schema.
    rewrite E1, E2, E3, E4, E5, E6. unfold a, save_args_of.
    cbn [a_topic a_content a_source a_tags a_confidence a_userId].
    split; [lia |]. split; [lia |]. split; [exact Ss |].
    split.
    { destruct (req_tags req) as [l |]; cbn [coalesce z_optional] in *;
        [now apply Nat.leb_le | simpl; lia]. }
    split.
    { destruct (req_confidence req) as [c |]; cbn [coalesce z_optional] in *.
      - apply andb_true_iff in Sq. destruct Sq as [Q1 Q2].
        split; now apply Qle_bool_iff.
      - split; discriminate. }
    destruct (req_user req) as [u |]; cbn [coalesce z_optional] in *;
      [now apply Nat.leb_le | simpl; lia]. }
  destruct (saveKnowledge_lookup now db a Hwf) as (r & Hsel & Ht & Hc & Hs & Hg & Hq & Hu & _).
  rewrite E in Hsel. cbn [fst snd] in Hsel.
  split.
  - exists r. split; [exact Hsel |]. now apply Hok.
  - intros Hall. rewrite Forall_forall in *. intros x Hx.
    destruct (Z.eq_dec (id x) i0) as [Ei | Ni].
    + assert (Hx' : In x (select_by_id db0 i0)) by (apply In_select_by_id; auto).
      rewrite Hsel in Hx'. destruct Hx' as [<- | []]. now apply Hok.
    + apply Hall. apply (save_keeps_others now db a x).
      * now rewrite E.
      * now rewrite E.
Qed.

Lemma tool_save_in_schema_witness :
  db_wf two_rows_db
  /\ exists r, select_by_id (snd (saveKnowledgeTool 50 two_rows_db good_request)) 1
               = [r] /\ row_in_schema r.
Proof.
  split; [exact two_rows_db_wf |].
  exact (proj1 (tool_save_in_schema 50 two_rows_db good_request 1
                  (snd (saveKnowledgeTool 50 two_rows_db good_request))
                  two_rows_db_wf eq_refl)).
Defined.

(** ** How the retention score moves *)

Lemma exp_le_mono (x y : R) : (x <= y -> exp x <= exp y)%R.
Proof.
  intros [H | ->]; [left; now apply exp_increasing | apply Rle_refl].
Qed.

Lemma ln_le_mono (x y : R) : (0 < x -> x <= y -> ln x <= ln y)%R.
Proof.
  intros Hx [H | ->]; [left; now apply ln_increasing | apply Rle_refl].
Qed.

Lemma ln_50_pos : (0 < ln 50)%R.
Proof. rewrite <- ln_1. apply ln_increasing; lra. Qed.

Lemma Rmin_le_mono (x y z : R) : (x <= y -> Rmin x z <= Rmin y z)%R.
Proof. intros H. unfold Rmin. repeat (destruct (Rle_dec _ _)); lra. Qed.

Lemma Rmax_le_mono (x y z : R) : (x <= y -> Rmax x z <= Rmax y z)%R.
Proof. intros H. unfold Rmax. repeat (destruct (Rle_dec _ _)); lra. Qed.

Lemma clamp_le_mono (x y : R) : (x <= y -> clamp x 0 1 <= clamp y 0 1)%R.
Proof.
  intros H. unfold clamp. apply Rmin_le_mono, Rmax_le_mono, H.
Qed.

Lemma epoch_days_later (t t' e : Z) :
  t <= t' -> (epoch_days t e <= epoch_days t' e)%R.
Proof.
  intros H. unfold epoch_days.
  assert (IZR (t - e) <= IZR (t' - e))%R by (apply IZR_le; lia). lra.
Qed.

Lemma epoch_days_earlier (t e e' : Z) :
  e <= e' -> (epoch_days t e' <= epoch_days t e)%R.
Proof.
  intros H. unfold epoch_days.
  assert (IZR (t - e') <= IZR (t - e))%R by (apply IZR_le; lia). lra.
Qed.

(** The blend grows with the confidence and the access count and as the
    last access gets closer. *)
Lemma spec_blend_grows rate (cf cf' : R) (ac ac' : Z) (dsc dsa dsa' : R) :
  (cf <= cf')%R -> 0 <= ac <= ac' -> (dsa' <= dsa)%R ->
  (spec_blend rate cf ac dsc dsa <= spec_blend rate cf' ac' dsc dsa')%R.
Proof.
  intros Hc [Ha0 Ha] Hd. unfold spec_blend. apply clamp_le_mono.
  assert (He := exp_pos (- rate * dsc)).
  assert (H1 : (cf * exp (- rate * dsc) <= cf' * exp (- rate * dsc))%R)
    by (apply Rmult_le_compat_r; lra).
  assert (H2 : (Rmin (ln (IZR ac + 1) / ln 50) 1
                <= Rmin (ln (IZR ac' + 1) / ln 50) 1)%R).
  { apply Rmin_le_mono. apply Rmult_le_compat_r.
    - left. apply Rinv_0_lt_compat, ln_50_pos.
    - apply IZR_le in Ha0, Ha. apply ln_le_mono; lra. }
  assert (H3 : (Rmax (1 - dsa / 180) 0 <= Rmax (1 - dsa' / 180) 0)%R)
    by (apply Rmax_le_mono; lra).
  lra.
Qed.

(** The blend shrinks as the creation and the last access recede. *)
Lemma spec_blend_shrinks rate (cf : R) (ac : Z) (dsc dsc' dsa dsa' : R) :
  (0 <= rate)%R -> (0 <= cf)%R -> (dsc <= dsc')%R -> (dsa <= dsa')%R ->
  (spec_blend rate cf ac dsc' dsa' <= spec_blend rate cf ac dsc dsa)%R.
Proof.
  intros Hr Hc Hd Ha. unfold spec_blend. apply clamp_le_mono.
  assert (He : (exp (- rate * dsc') <= exp (- rate * dsc))%R)
    by (apply exp_le_mono; nra).
  assert (H1 : (cf * exp (- rate * dsc') <= cf * exp (- rate * dsc))%R)
    by (apply Rmult_le_compat_l; assumption).
  assert (H3 : (Rmax (1 - dsa' / 180) 0 <= Rmax (1 - dsa / 180) 0)%R)
    by (apply Rmax_le_mono; lra).
  lra.
Qed.

Lemma decay_rate_nonneg (mt : MemoryType) : (0 <= decay_rate_of mt)%R.
Proof. destruct mt; simpl; lra. Qed.

Lemma Q2R_nonneg (q : Q) : (0 <= q)%Q -> (0 <= Q2R q)%R.
Proof.
  intros H. apply Qle_Rle in H.
  replace (Q2R 0) with 0%R in H by (unfold Q2R; simpl; lra). exact H.
Qed.

Lemma Q2R_le_1 (q : Q) : (q <= 1)%Q -> (Q2R q <= 1)%R.
Proof.
  intros H. apply Qle_Rle in H.
  replace (Q2R 1) with 1%R in H by (unfold Q2R; simpl; lra). exact H.
Qed.

(** The three shapes of the score, on the two tests of the function. *)
Lemma retention_score_cases now cf ac la mt tgs created :
  (In "protected" tgs /\ retention_score now cf ac la mt tgs created = 1%R)
  \/ (~ In "protected" tgs /\ mt = core
      /\ retention_score now cf ac la mt tgs created = Rmax (Q2R cf) 0.9)
  \/ (~ In "protected" tgs /\ mt <> core
      /\ retention_score now cf ac la mt tgs created
         = spec_blend (decay_rate_of mt) (Q2R cf) ac (epoch_days now created)
                      (epoch_days now (coalesce la created))).
Proof.
  destruct (array_overlap tgs ["protected"]) eqn:E.
  - left. split; [now apply overlap_singleton |].
    unfold retention_score. now rewrite E.
  - assert (Hp : ~ In "protected" tgs).
    { rewrite <- overlap_singleton. congruence. }
    right. destruct mt.
    + left. split; [assumption |]. split; [reflexivity |].
      unfold retention_score. now rewrite E.
    + right. split; [assumption |]. split; [discriminate |].
      apply retention_score_blend; [assumption | discriminate].
    + right. split; [assumption |]. split; [discriminate |].
      apply retention_score_blend; [assumption | discriminate].
    + right. split; [assumption |]. split; [discriminate |].
      apply retention_score_blend; [assumption | discriminate].
Qed.

(** The score is at most 1 unless a core entry has a confidence above 1. *)
Lemma retention_score_le_1 now cf ac la mt tgs created :
  (mt = core -> (cf <= 1)%Q) ->
  (retention_score now cf ac la mt tgs created <= 1)%R.
Proof.
  intros H.
  destruct (retention_score_cases now cf ac la mt tgs created)
    as [[_ ->] | [(_ & Hm & ->) | (_ & _ & ->)]].
  - lra.
  - apply Q2R_le_1 in H; [| assumption].
    unfold Rmax. destruct (Rle_dec _ _); lra.
  - unfold spec_blend. apply clamp_unit_range.
Qed.

(** X6. Left alone, an entry's score never rises with time: for a
    non-negative confidence the score at a later time is at most the score
    at an earlier one, and for a core or protected entry the two are
    equal. *)
Theorem retention_score_decays :
  forall now now' cf ac la mt tgs created,
    now <= now' -> (0 <= cf)%Q ->
    (retention_score now' cf ac la mt tgs created
     <= retention_score now cf ac la mt tgs created)%R
    /\ (mt = core \/ In "protected" tgs ->
        retention_score now' cf ac la mt tgs created
        = retention_score now cf ac la mt tgs created).
Proof.
  intros now now' cf ac la mt tgs created Hn Hc.
  destruct (retention_score_cases now cf ac la mt tgs created)
    as [[Hp E] | [(Hp & Hm & E) | (Hp & Hm & E)]];
    destruct (retention_score_cases now' cf ac la mt tgs created)
      as [[Hp' E'] | [(Hp' & Hm' & E') | (Hp' & Hm' & E')]];
    try contradiction; rewrite E, E'.
  - split; [apply Rle_refl | reflexivity].
  - split; [apply Rle_refl | reflexivity].
  - split.
    + apply spec_blend_shrinks.
      * apply decay_rate_nonneg.
      * now apply Q2R_nonneg.
      * now apply epoch_days_later.
      * now apply epoch_days_later.
    + intros [Hcore | Hprot]; contradiction.
Qed.

Lemma retention_score_decays_witness :
  0 <= 86400000000 /\ (0 <= 1 # 2)%Q
  /\ (retention_score 86400000000 (1 # 2) 3 None pattern ["draft"] 0
      <= retention_score 0 (1 # 2) 3 None pattern ["draft"] 0)%R.
Proof.
  assert (H1 : 0 <= 86400000000) by lia.
  assert (H2 : (0 <= 1 # 2)%Q) by (unfold Qle; simpl; lia).
  split; [exact H1 |]. split; [exact H2 |].
  exact (proj1 (retention_score_decays 0 86400000000 (1 # 2) 3 None pattern
                  ["draft"] 0 H1 H2)).
Defined.

(** X7. Recording an access never lowers a score: for a row with a
    non-negative access count whose last access (or creation, when never
    accessed) is not after the time of the access, the row written by
    [recordAccess] scores, at any time, at least what the row scored; and
    that row is in the table when the id was listed. *)
Theorem recordAccess_raises_score :
  forall now t db ids r,
    In r (rows db) -> In (id r) ids ->
    0 <= access_count r ->
    coalesce (last_accessed r) (created_at r) <= now ->
    In (accessed now r) (rows (recordAccess now db ids))
    /\ (row_score t r <= row_score t (accessed now r))%R.
Proof.
  intros now t db ids r Hin Hid Hac Hla. split.
  - rewrite recordAccess_rows. apply In_update_where. exists r.
    split; [assumption |]. apply existsb_Zeqb in Hid. now rewrite Hid.
  - unfold row_score, accessed.
    cbn [confidence access_count last_accessed memory_type tags created_at].
    destruct (retention_score_cases t (confidence r) (access_count r)
                (last_accessed r) (memory_type r) (tags r) (created_at r))
      as [[Hp E] | [(Hp & Hm & E) | (Hp & Hm & E)]];
      destruct (retention_score_cases t (confidence r) (access_count r + 1)
                  (Some now) (memory_type r) (tags r) (created_at r))
        as [[Hp' E'] | [(Hp' & Hm' & E') | (Hp' & Hm' & E')]];
      try contradiction; rewrite E, E'; try apply Rle_refl.
    apply spec_blend_grows.
    + apply Rle_refl.
    + lia.
    + cbn [coalesce]. now apply epoch_days_earlier.
Qed.

Lemma recordAccess_raises_score_witness :
  In row_a (rows two_rows_db) /\ In (id row_a) [1; 1]
  /\ (row_score 500 row_a <= row_score 500 (accessed 200 row_a))%R.
Proof.
  assert (H1 : In row_a (rows two_rows_db)) by (now left).
  assert (H2 : In (id row_a) [1; 1]) by (now left).
  split; [exact H1 |]. split; [exact H2 |].
  apply (proj2 (recordAccess_raises_score 200 500 two_rows_db [1; 1] row_a
                  H1 H2 ltac:(simpl; lia) ltac:(simpl; lia))).
Defined.

(** The score grows with the confidence, the access count and the tags. *)
Lemma retention_score_grows t cf cf' ac ac' la mt tgs tgs' created :
  (cf <= cf')%Q -> 0 <= ac <= ac' ->
  (In "protected" tgs -> In "protected" tgs') ->
  (mt = core -> (cf <= 1)%Q) ->
  (retention_score t cf ac la mt tgs created
   <= retention_score t cf' ac' la mt tgs' created)%R.
Proof.
  intros Hc Ha Hp H1.
  destruct (retention_score_cases t cf' ac' la mt tgs' created)
    as [[Hp' E'] | [(Hp' & Hm' & E') | (Hp' & Hm' & E')]]; rewrite E'.
  - now apply retention_score_le_1.
  - destruct (retention_score_cases t cf ac la mt tgs created)
      as [[Hq E] | [(Hq & Hm & E) | (Hq & Hm & E)]];
      try contradiction; [tauto |]. rewrite E.
    apply Rmax_le_mono. now apply Qle_Rle.
  - destruct (retention_score_cases t cf ac la mt tgs created)
      as [[Hq E] | [(Hq & Hm & E) | (Hq & Hm & E)]];
      try contradiction; [tauto |]. rewrite E.
    apply spec_blend_grows; [now apply Qle_Rle | assumption | apply Rle_refl].
Qed.

(** X8. A merge never lowers the score of the entry kept. With ids a
    primary key, two distinct rows with non-negative access counts and a
    kept confidence of at most 1: a row with the kept id exists after the
    merge, and each such row scores, at any time, at least what the kept
    row scored before, and exactly 1 when either row was tagged
    "protected". *)
Theorem merge_keeps_score :
  forall now t db keep del mergedContent,
    db_wf db -> In keep (rows db) -> In del (rows db) -> id keep <> id del ->
    0 <= access_count keep -> 0 <= access_count del ->
    (confidence keep <= 1)%Q ->
    let db' := snd (mergeKnowledge now db (id keep) (id del) mergedContent) in
    (exists r', In r' (rows db') /\ id r' = id keep)
    /\ (forall r', In r' (rows db') -> id r' = id keep ->
          (row_score t keep <= row_score t r')%R
          /\ (In "protected" (tags keep) \/ In "protected" (tags del) ->
              row_score t r' = 1%R)).
Proof.
  intros now t db keep del mergedContent Hwf Hk Hd Hne Hak Had Hc1 db'.
  unfold db'. rewrite (merge_present now db keep del mergedContent Hwf Hk Hd).
  cbn [snd rows].
  set (set := merge_set now _ _ _ _).
  assert (Hset : forall r, id (set r) = id r) by reflexivity.
  split.
  - exists (set keep). split; [| apply Hset].
    apply In_delete_where. split.
    + apply In_update_where. exists keep. split; [assumption |].
      unfold id_is. now rewrite Z.eqb_refl.
    + unfold id_is. rewrite Hset. now apply Z.eqb_neq.
  - intros r' Hin Hid. apply In_delete_where in Hin. destruct Hin as [Hin _].
    apply In_update_where in Hin. destruct Hin as (r0 & Hr0 & ->).
    unfold id_is in *. destruct (id r0 =? id keep) eqn:E.
    2:{ apply Z.eqb_neq in E. contradiction. }
    apply Z.eqb_eq in E.
    rewrite (wf_same_id db r0 keep Hwf Hr0 Hk E).
    destruct (set_spread_spec (tags keep ++ tags del)) as [_ Hmem].
    destruct (Math_max_spec (confidence keep) (confidence del)) as (M1 & _ & _).
    unfold row_score, set, merge_set.
    cbn [confidence access_count last_accessed memory_type tags created_at].
    split.
    + apply retention_score_grows.
      * exact M1.
      * lia.
      * intros Hp. apply Hmem, in_or_app. now left.
      * intros _. exact Hc1.
    + intros Hp.
      destruct (retention_score_cases t
                  (Math_max (confidence keep) (confidence del))
                  (access_count keep + access_count del) (last_accessed keep)
                  (memory_type keep) (Js.set_spread (tags keep ++ tags del))
                  (created_at keep))
        as [[_ E'] | [(Hq & _) | (Hq & _)]]; [exact E' | |];
        exfalso; apply Hq, Hmem, in_or_app; tauto.
Qed.

Lemma merge_keeps_score_witness :
  db_wf two_rows_db /\ id row_a <> id row_b
  /\ exists r', In r' (rows (snd (mergeKnowledge 50 two_rows_db
                                   (id row_a) (id row_b) None)))
                /\ id r' = id row_a.
Proof.
  split; [exact two_rows_db_wf |]. split; [discriminate |].
  exact (proj1 (merge_keeps_score 50 500 two_rows_db row_a row_b None
                  two_rows_db_wf (or_introl eq_refl)
                  (or_intror (or_introl eq_refl)) ltac:(discriminate)
                  ltac:(simpl; lia) ltac:(simpl; lia)
                  ltac:(unfold Qle; simpl; lia))).
Defined.

(** ** [pruneStaleEntries], run again *)

Lemma no_member_nil {A : Type} (l : list A) : (forall x, ~ In x l) -> l = [].
Proof.
  destruct l as [| x l]; [reflexivity |].
  intros H. exfalso. apply (H x). now left.
Qed.

(** X9. A sweep leaves nothing for a second sweep at the same time: run
    on the table that a real sweep returns, the sweep lists no row for
    deletion and returns the table as it is; and with ids a primary key it
    flags the same rows as the first. *)
Theorem prune_twice :
  forall now db dryRun,
    let db1 := snd (pruneStaleEntries now db false) in
    deleted (fst (pruneStaleEntries now db1 dryRun)) = []
    /\ snd (pruneStaleEntries now db1 dryRun) = db1
    /\ (db_wf db ->
        forall c, In c (flagged (fst (pruneStaleEntries now db1 dryRun))) <->
                  In c (flagged (fst (pruneStaleEntries now db false)))).
Proof.
  intros now db dryRun db1.
  assert (Hnone : deleted (fst (pruneStaleEntries now db1 dryRun)) = []).
  { apply no_member_nil. intros c Hc. apply In_prune_deleted in Hc.
    destruct Hc as (r & (Hin & Hm & Hp) & -> & Hs).
    unfold db1 in Hin. apply In_pruned_rows in Hin. destruct Hin as [Hin Hnot].
    apply Hnot. apply in_map_iff. exists (scored now r).
    split; [reflexivity |]. apply In_prune_deleted. exists r.
    split; [| split; [reflexivity | assumption]].
    split; [assumption | split; assumption]. }
  split; [exact Hnone |]. split.
  - revert Hnone. unfold pruneStaleEntries at 1 2. cbn [fst snd deleted].
    intros ->. cbn [List.length Nat.ltb Nat.leb]. now rewrite andb_false_r.
  - intros Hwf c. rewrite !In_prune_flagged.
    split; intros (r & (Hin & Hm & Hp) & -> & Hs); exists r;
      (split; [| split; [reflexivity | assumption]]);
      (split; [| split; assumption]).
    + unfold db1 in Hin. apply In_pruned_rows in Hin. tauto.
    + unfold db1. apply In_pruned_rows. split; [assumption |].
      rewrite in_map_iff. intros (c & Hid & Hc). apply In_prune_deleted in Hc.
      destruct Hc as (r0 & (Hin0 & _) & -> & Hs0). simpl in Hid.
      rewrite (wf_same_id db r0 r Hwf Hin0 Hin Hid) in Hs0. lra.
Qed.

(** ** [getHealthReport] *)

Section Grouping.

Local Open Scope list_scope.

Context {K A : Type} (eqb : K -> K -> bool) (key : A -> K).
Hypothesis eqb_eq : forall a b, eqb a b = true <-> a = b.

Lemma group_by_snoc (l : list A) (x : A) :
  group_by eqb key (l ++ [x]) = group_add eqb key x (group_by eqb key l).
Proof. unfold group_by. now rewrite fold_left_app. Qed.

Lemma group_add_keys (x : A) (g : list (K * list A)) :
  map fst (group_add eqb key x g)
  = if existsb (fun k => eqb k (key x)) (map fst g) then map fst g
    else map fst g ++ [key x].
Proof.
  induction g as [| [k ms] g IH]; simpl; [reflexivity |].
  destruct (eqb k (key x)); simpl; [reflexivity |].
  rewrite IH. now destruct (existsb _ (map fst g)).
Qed.

Lemma group_add_members (x : A) (g : list (K * list A)) (k : K) (ms : list A) :
  NoDup (map fst g) ->
  In (k, ms) (group_add eqb key x g) ->
  (exists ms0, In (k, ms0) g
               /\ ms = ms0 ++ (if eqb k (key x) then [x] else []))
  \/ (ms = [x] /\ k = key x /\ ~ In k (map fst g)).
Proof.
  induction g as [| [k0 ms0] g IH]; simpl; intros Hnd Hin.
  - destruct Hin as [E | []]. injection E as <- <-. right. tauto.
  - inversion Hnd as [| ? ? Hk0 Hg]; subst.
    destruct (eqb k0 (key x)) eqn:E0.
    + destruct Hin as [E | Hin].
      * injection E as <- <-. left. exists ms0. rewrite E0. auto.
      * left. exists ms. split; [now right |].
        destruct (eqb k (key x)) eqn:Ek; [| now rewrite app_nil_r].
        exfalso. apply eqb_eq in E0, Ek. apply Hk0. rewrite E0, <- Ek.
        apply (in_map fst) in Hin. exact Hin.
    + destruct Hin as [E | Hin].
      * injection E as <- <-. left. exists ms0. rewrite E0, app_nil_r. auto.
      * destruct (IH Hg Hin) as [(ms1 & H1 & H2) | (H1 & H2 & H3)].
        -- left. exists ms1. auto.
        -- right. split; [assumption |]. split; [assumption |].
           intros [E | H]; [| contradiction]. simpl in E. subst k0 k.
           assert (T : eqb (key x) (key x) = true) by now apply eqb_eq.
           congruence.
Qed.

(** Keys are distinct and each group holds, in order, the elements with
    its key; no group is empty. *)
Lemma group_by_spec (l : list A) :
  NoDup (map fst (group_by eqb key l))
  /\ (forall k ms, In (k, ms) (group_by eqb key l) ->
        ms = filter (fun x => eqb k (key x)) l /\ ms <> [])
  /\ (forall x, In x l -> In (key x) (map fst (group_by eqb key l))).
Proof.
  induction l as [| x l IH] using rev_ind.
  - split; [constructor |]. split; [intros k ms [] | intros x []].
  - destruct IH as (Hnd & Hmem & Hkeys). rewrite group_by_snoc.
    assert (Hex : existsb (fun k => eqb k (key x)) (map fst (group_by eqb key l))
                  = true <-> In (key x) (map fst (group_by eqb key l))).
    { rewrite existsb_exists. split.
      - intros (k & Hk & E). apply eqb_eq in E. now subst.
      - intros H. exists (key x). split; [assumption | now apply eqb_eq]. }
    split; [| split].
    + rewrite group_add_keys.
      destruct (existsb _ (map fst (group_by eqb key l))) eqn:E; [assumption |].
      rewrite <- (rev_involutive (_ ++ [key x])). apply NoDup_rev.
      rewrite rev_app_distr. simpl. constructor; [| now apply NoDup_rev].
      rewrite <- in_rev, <- Hex. congruence.
    + intros k ms Hin. rewrite filter_app. cbn [filter].
      destruct (group_add_members x _ k ms Hnd Hin)
        as [(ms0 & H0 & ->) | (-> & -> & Hno)].
      * destruct (Hmem k ms0 H0) as [-> Hne]. split; [reflexivity |].
        intros E. apply app_eq_nil in E. tauto.
      * assert (T : eqb (key x) (key x) = true) by now apply eqb_eq.
        rewrite T. split; [| discriminate].
        replace (filter (fun x0 => eqb (key x) (key x0)) l) with (@nil A);
          [reflexivity |].
        symmetry. apply no_member_nil. intros y Hy. apply filter_In in Hy.
        destruct Hy as [Hy Ey]. apply eqb_eq in Ey. apply Hno. rewrite Ey.
        now apply Hkeys.
    + intros y Hy. rewrite group_add_keys.
      destruct (existsb _ (map fst (group_by eqb key l))) eqn:E.
      * apply in_app_or in Hy. destruct Hy as [Hy | [<- | []]];
          [now apply Hkeys | now apply Hex].
      * apply in_or_app. apply in_app_or in Hy.
        destruct Hy as [Hy | [<- | []]]; [left; now apply Hkeys | right; now left].
Qed.

Lemma group_add_concat (x : A) (g : list (K * list A)) :
  Permutation (concat (map snd (group_add eqb key x g)))
              (x :: concat (map snd g)).
Proof.
  induction g as [| [k ms] g IH]; simpl; [apply Permutation_refl |].
  destruct (eqb k (key x)); simpl.
  - rewrite <- app_assoc. simpl. apply Permutation_sym, Permutation_middle.
  - eapply perm_trans; [apply Permutation_app_head, IH |].
    apply Permutation_sym, Permutation_middle.
Qed.

Lemma group_by_concat (l : list A) :
  Permutation (concat (map snd (group_by eqb key l))) l.
Proof.
  induction l as [| x l IH] using rev_ind; [apply Permutation_refl |].
  rewrite group_by_snoc.
  eapply perm_trans; [apply group_add_concat |].
  eapply perm_trans; [apply perm_skip, IH | apply Permutation_cons_append].
Qed.

End Grouping.

Lemma list_sum_perm (l l' : list nat) :
  Permutation l l' -> list_sum l = list_sum l'.
Proof.
  intros H. induction H; simpl; lia.
Qed.

Lemma concat_length_sum {A : Type} (ls : list (list A)) :
  List.length (concat ls) = list_sum (map (@List.length A) ls).
Proof.
  induction ls as [| l ls IH]; simpl; [reflexivity |].
  now rewrite length_app, IH.
Qed.

(** [count_by] lists every key that some row has, once, with the number
    of rows that have it. *)
Lemma count_by_spec {K : Type} (eqb : K -> K -> bool)
    (key : KnowledgeRow -> K) (rs : list KnowledgeRow) :
  (forall a b, eqb a b = true <-> a = b) ->
  (forall k n, In (k, n) (count_by eqb key rs) <->
     n = List.length (filter (fun r => eqb k (key r)) rs) /\ (0 < n)%nat)
  /\ NoDup (map fst (count_by eqb key rs))
  /\ list_sum (map snd (count_by eqb key rs)) = List.length rs.
Proof.
  intros eqb_eq.
  destruct (group_by_spec eqb key eqb_eq rs) as (Hnd & Hmem & Hkeys).
  assert (P : Permutation (count_by eqb key rs)
                (map (fun g => (fst g, List.length (snd g)))
                     (group_by eqb key rs))) by apply sort_by_perm.
  split; [| split].
  - intros k n. unfold count_by. rewrite In_sort_by, in_map_iff. split.
    + intros ([k0 ms] & E & Hin). simpl in E. injection E as <- <-.
      destruct (Hmem k0 ms Hin) as [E Hne]. rewrite <- E.
      split; [reflexivity |]. destruct ms; [contradiction | simpl; lia].
    + intros [-> Hpos].
      destruct (filter (fun r => eqb k (key r)) rs) as [| r l] eqn:F;
        [simpl in Hpos; lia |].
      assert (Hr : In r (filter (fun r => eqb k (key r)) rs))
        by (rewrite F; now left).
      apply filter_In in Hr. destruct Hr as [Hr Ek]. apply eqb_eq in Ek.
      specialize (Hkeys r Hr). rewrite <- Ek in Hkeys.
      apply in_map_iff in Hkeys. destruct Hkeys as ([k0 ms] & E & Hin).
      simpl in E. subst k0. exists (k, ms). split; [| assumption].
      simpl. destruct (Hmem k ms Hin) as [-> _]. now rewrite F.
  - assert (E : map fst (map (fun g : K * list KnowledgeRow =>
                                (fst g, List.length (snd g)))
                             (group_by eqb key rs))
                = map fst (group_by eqb key rs))
      by (rewrite map_map; apply map_ext; reflexivity).
    apply (Permutation_map fst) in P. rewrite E in P.
    apply (Permutation_NoDup (Permutation_sym P)), Hnd.
  - assert (E : map snd (map (fun g : K * list KnowledgeRow =>
                                (fst g, List.length (snd g)))
                             (group_by eqb key rs))
                = map (@List.length KnowledgeRow) (map snd (group_by eqb key rs)))
      by (rewrite !map_map; apply map_ext; reflexivity).
    apply (Permutation_map snd) in P. rewrite E in P.
    rewrite (list_sum_perm _ _ P), <- concat_length_sum.
    apply Permutation_length, group_by_concat.
Qed.

Lemma MemoryType_eqb_eq (a b : MemoryType) : MemoryType_eqb a b = true <-> a = b.
Proof. destruct a, b; simpl; split; congruence. Qed.

Lemma Bucket_eqb_eq (a b : Bucket) : Bucket_eqb a b = true <-> a = b.
Proof. destruct a, b; simpl; split; congruence. Qed.

Lemma filter_map_length {A B : Type} (f : A -> B) (p : B -> bool) (l : list A) :
  List.length (filter p (map f l)) = List.length (filter (fun x => p (f x)) l).
Proof.
  induction l as [| x l IH]; simpl; [reflexivity |].
  destruct (p (f x)); simpl; now rewrite IH.
Qed.

(** X10. The breakdowns of the health report are exact and add up: each
    memory type, each source and each score bucket that some row falls
    in is listed once with the number of such rows (and no other is
    listed), and each of the three lists of counts sums to [total], the
    number of rows. *)
Theorem health_breakdowns :
  forall now db,
    let h := getHealthReport now db in
    total h = List.length (rows db)
    /\ (forall k n, In (k, n) (by_type h) <->
          n = List.length (filter (fun r => MemoryType_eqb k (memory_type r))
                                  (rows db)) /\ (0 < n)%nat)
    /\ (forall k n, In (k, n) (by_source h) <->
          n = List.length (filter (fun r => String.eqb k (source r)) (rows db))
          /\ (0 < n)%nat)
    /\ (forall b n, In (b, n) (score_distribution h) <->
          n = List.length
                (filter (fun r => Bucket_eqb b (score_bucket (row_score now r)))
                        (rows db)) /\ (0 < n)%nat)
    /\ NoDup (map fst (by_type h)) /\ NoDup (map fst (by_source h))
    /\ NoDup (map fst (score_distribution h))
    /\ list_sum (map snd (by_type h)) = total h
    /\ list_sum (map snd (by_source h)) = total h
    /\ list_sum (map snd (score_distribution h)) = total h.
Proof.
  intros now db h. unfold h, getHealthReport.
  cbn [total by_type by_source score_distribution].
  destruct (count_by_spec MemoryType_eqb memory_type (rows db) MemoryType_eqb_eq)
    as (T1 & T2 & T3).
  destruct (count_by_spec String.eqb source (rows db) String.eqb_eq)
    as (S1 & S2 & S3).
  destruct (group_by_spec Bucket_eqb score_bucket Bucket_eqb_eq
              (map (row_score now) (rows db))) as (Hnd & Hmem & Hkeys).
  set (groups := group_by Bucket_eqb score_bucket (map (row_score now) (rows db)))
    in *.
  assert (P : Permutation
                (sort_by (fun a b => Rleb (group_min b) (group_min a)) groups)
                groups) by apply sort_by_perm.
  assert (D1 : forall b n, In (b, n) (score_distribution_query now db) <->
                 n = List.length
                       (filter (fun r => Bucket_eqb b (score_bucket (row_score now r)))
                               (rows db)) /\ (0 < n)%nat).
  { intros b n. unfold score_distribution_query. fold groups.
    rewrite <- (filter_map_length (row_score now)
                  (fun s => Bucket_eqb b (score_bucket s)) (rows db)).
    rewrite in_map_iff. split.
    - intros ([b0 ms] & E & Hin). simpl in E. injection E as <- <-.
      apply In_sort_by in Hin.
      destruct (Hmem b0 ms Hin) as [E Hne]. rewrite <- E.
      split; [reflexivity |]. destruct ms; [contradiction | simpl; lia].
    - intros [-> Hpos].
      destruct (filter (fun s => Bucket_eqb b (score_bucket s))
                       (map (row_score now) (rows db))) as [| s l] eqn:F;
        [simpl in Hpos; lia |].
      assert (Hs : In s (filter (fun s => Bucket_eqb b (score_bucket s))
                                (map (row_score now) (rows db))))
        by (rewrite F; now left).
      apply filter_In in Hs. destruct Hs as [Hs Eb]. apply Bucket_eqb_eq in Eb.
      specialize (Hkeys s Hs). rewrite <- Eb in Hkeys.
      apply in_map_iff in Hkeys. destruct Hkeys as ([b0 ms] & E & Hin).
      simpl in E. subst b0. exists (b, ms). split.
      + simpl. destruct (Hmem b ms Hin) as [-> _]. now rewrite F.
      + now apply In_sort_by. }
  assert (D2 : NoDup (map fst (score_distribution_query now db))).
  { unfold score_distribution_query. fold groups.
    assert (E : forall l : list (Bucket * list R),
               map fst (map (fun g => (fst g, List.length (snd g))) l)
               = map fst l)
      by (intros l; rewrite map_map; apply map_ext; reflexivity).
    rewrite E.
    apply (Permutation_NoDup (Permutation_sym (Permutation_map fst P))), Hnd. }
  assert (D3 : list_sum (map snd (score_distribution_query now db))
               = List.length (rows db)).
  { unfold score_distribution_query. fold groups.
    assert (E : forall l : list (Bucket * list R),
               map snd (map (fun g => (fst g, List.length (snd g))) l)
               = map (@List.length R) (map snd l))
      by (intros l; rewrite !map_map; apply map_ext; reflexivity).
    rewrite E.
    rewrite (list_sum_perm _ _
               (Permutation_map (@List.length R) (Permutation_map snd P))).
    rewrite <- concat_length_sum.
    unfold groups.
    rewrite (Permutation_length (group_by_concat Bucket_eqb score_bucket _)).
    apply length_map. }
  split; [reflexivity |]. split; [exact T1 |]. split; [exact S1 |].
  split; [exact D1 |]. split; [exact T2 |]. split; [exact S2 |].
  split; [exact D2 |]. split; [exact T3 |]. split; [exact S3 | exact D3].
Qed.

(** X11. A core row and a row tagged "protected" always fall in the
    healthy bucket of the score distribution, whatever their confidence,
    age and access history. *)
Theorem immune_rows_healthy :
  forall now r,
    memory_type r = core \/ In "protected" (tags r) ->
    score_bucket (row_score now r) = healthy.
Proof.
  intros now r H.
  assert (S : (0.7 <= row_score now r)%R).
  { unfold row_score.
    destruct (retention_score_cases now (confidence r) (access_count r)
                (last_accessed r) (memory_type r) (tags r) (created_at r))
      as [[_ ->] | [(_ & _ & ->) | (Hp & Hm & _)]].
    - lra.
    - assert (M := Rmax_r (Q2R (confidence r)) 0.9). lra.
    - tauto. }
  unfold score_bucket. apply Rleb_le in S. now rewrite S.
Qed.

Lemma immune_rows_healthy_witness :
  score_bucket (row_score 1000000 (save_new_row 0 1 stripe_save)) = healthy.
Proof.
  apply immune_rows_healthy. left. reflexivity.
Defined.

Lemma Rleb_total (a b : R) : Rleb a b = false -> Rleb b a = true.
Proof.
  unfold Rleb. destruct (Rle_dec a b); [discriminate |].
  intros _. destruct (Rle_dec b a); [reflexivity | lra].
Qed.

(** X12. The stale candidates of the health report are at most 10, come
    lowest score first, and are rows that are neither core nor protected
    and score below 0.3: each is listed by a dry run of the sweep, under
    [deleted] when it scores below 0.1 and under [flagged] otherwise. *)
Theorem stale_candidates_spec :
  forall now db,
    let h := getHealthReport now db in
    (List.length (stale_candidates h) <= 10)%nat
    /\ Sorted (fun a b => (st_score a <= st_score b)%R) (stale_candidates h)
    /\ (forall c, In c (stale_candidates h) ->
          exists r, In r (rows db)
            /\ c = mkStale (id r) (topic r) (source r) (memory_type r)
                           (row_score now r)
            /\ memory_type r <> core /\ ~ In "protected" (tags r)
            /\ (row_score now r < 0.3)%R
            /\ ((row_score now r < 0.1)%R ->
                In (scored now r) (deleted (fst (pruneStaleEntries now db true))))
            /\ ((0.1 <= row_score now r)%R ->
                In (scored now r) (flagged (fst (pruneStaleEntries now db true))))).
Proof.
  intros now db h. unfold h, getHealthReport. cbn [stale_candidates].
  unfold stale_candidates_query. split; [| split].
  - apply firstn_le_length.
  - assert (H : Sorted (fun a b => Rleb (st_score a) (st_score b) = true)
                  (firstn 10
                     (sort_by (fun a b => Rleb (st_score a) (st_score b))
                        (filter (fun c => Rltb (st_score c) 0.3)
                           (map (fun r => mkStale (id r) (topic r) (source r)
                                            (memory_type r) (row_score now r))
                                (filter prunable (rows db))))))).
    { apply firstn_sorted, sort_by_sorted. intros a b. apply Rleb_total. }
    revert H. generalize (firstn 10
                     (sort_by (fun a b => Rleb (st_score a) (st_score b))
                        (filter (fun c => Rltb (st_score c) 0.3)
                           (map (fun r => mkStale (id r) (topic r) (source r)
                                            (memory_type r) (row_score now r))
                                (filter prunable (rows db)))))).
    intros l H. induction H as [| x l Hs IH Hhd]; constructor; [assumption |].
    destruct Hhd; constructor. now apply Rleb_le.
  - intros c Hc. apply In_firstn in Hc. apply In_sort_by in Hc.
    apply filter_In in Hc. destruct Hc as [Hc Hs]. apply Rltb_lt in Hs.
    apply in_map_iff in Hc. destruct Hc as (r & <- & Hr).
    apply filter_In in Hr. destruct Hr as [Hr Hp]. apply prunable_iff in Hp.
    simpl in Hs. exists r.
    split; [assumption |]. split; [reflexivity |].
    split; [tauto |]. split; [tauto |]. split; [assumption |]. split.
    + intros Hlow. apply In_prune_deleted. exists r.
      split; [| split; [reflexivity | assumption]].
      split; [assumption | tauto].
    + intros Hhigh. apply In_prune_flagged. exists r.
      split; [| split; [reflexivity | lra]].
      split; [assumption | tauto].
Qed.

(** ** [getRecentChanges] *)

Lemma Qltb_lt (x y : Q) : Qltb x y = true <-> (x < y)%Q.
Proof.
  unfold Qltb. rewrite negb_true_iff, <- not_true_iff_false, Qle_bool_iff.
  split; [apply Qnot_le_lt | apply Qlt_not_le].
Qed.

Lemma source_ok_empty (k : KnowledgeRow) : source_ok (Some "") k = source_ok None k.
Proof. reflexivity. Qed.

Lemma Sorted_weaken {A : Type} (P Q : A -> A -> Prop) (l : list A) :
  (forall a b, P a b -> Q a b) -> Sorted P l -> Sorted Q l.
Proof.
  intros H S. induction S as [| x l0 Hs IH Hhd]; constructor; [assumption |].
  destruct Hhd; constructor. now apply H.
Qed.

Lemma Zleb_total (x y : Z) : Z.leb x y = false -> Z.leb y x = true.
Proof. intros E. apply Z.leb_gt in E. apply Z.leb_le. lia. Qed.

(** X13. [getRecentChanges] returns rows of the table created less than
    [hours] hours before now that have the source asked for (an empty
    source string asks for none), newest first, at most [limit] and never
    more than 50 of them; when no more than that many rows qualify, it
    returns them all. *)
Theorem getRecentChanges_spec :
  forall now hours src limit db,
    let result := getRecentChanges now hours src limit db in
    (List.length result <= Nat.min limit 50)%nat
    /\ Sorted (fun a b => created_at b <= created_at a) result
    /\ (forall r, In r result ->
          In r (rows db)
          /\ (inject_Z now - hours * inject_Z 3600000000
              < inject_Z (created_at r))%Q
          /\ (forall s, src = Some s -> s <> "" -> source r = s))
    /\ getRecentChanges now hours (Some "") limit db
       = getRecentChanges now hours None limit db
    /\ ((List.length
           (filter (fun r => (in_window now hours r && source_ok src r)%bool)
                   (rows db)) <= Nat.min limit 50)%nat ->
        forall r, In r (rows db) -> in_window now hours r = true ->
                  source_ok src r = true -> In r result).
Proof.
  intros now hours src limit db result. unfold result, getRecentChanges.
  split; [apply firstn_le_length |].
  split.
  { apply (Sorted_weaken
             (fun a b => Z.leb (created_at b) (created_at a) = true)).
    - intros a b. apply Z.leb_le.
    - apply firstn_sorted, sort_by_sorted. intros a b. apply Zleb_total. }
  split; [| split; [reflexivity |]].
  - intros r Hr. apply In_firstn, In_sort_by, filter_In in Hr.
    destruct Hr as [Hin Hc]. apply andb_true_iff in Hc. destruct Hc as [Hw Hs].
    split; [assumption |]. split; [now apply Qltb_lt |].
    intros s -> Ns. unfold source_ok, source_given in Hs.
    apply String.eqb_neq in Ns. rewrite Ns in Hs. now apply String.eqb_eq.
  - intros Hfew r Hin Hw Hs.
    rewrite firstn_all2.
    + apply In_sort_by, filter_In. split; [assumption |]. now rewrite Hw, Hs.
    + now rewrite (Permutation_length (sort_by_perm _ _)).
Qed.

(** ** [findDuplicates] *)

Lemma In_join_lower_id (rs : list KnowledgeRow) (a b : KnowledgeRow) :
  In (a, b) (join_lower_id rs) <-> In a rs /\ In b rs /\ id a < id b.
Proof.
  unfold join_lower_id. rewrite in_flat_map. split.
  - intros (a0 & Ha & Hab). apply in_map_iff in Hab.
    destruct Hab as (b0 & E & Hb). injection E as -> ->.
    apply filter_In in Hb. destruct Hb as [Hb Hlt]. apply Z.ltb_lt in Hlt. tauto.
  - intros (Ha & Hb & Hlt). exists a. split; [assumption |].
    apply in_map_iff. exists b. split; [reflexivity |].
    apply filter_In. split; [assumption | now apply Z.ltb_lt].
Qed.

(** With ids a primary key, no two pairs of the join have the same two
    ids. *)
Lemma join_lower_id_NoDup (outer inner : list KnowledgeRow) :
  NoDup (map id outer) -> NoDup (map id inner) ->
  NoDup (map (fun ab => (id (fst ab), id (snd ab)))
             (flat_map (fun a => map (fun b => (a, b))
                                     (filter (fun b => id a <? id b) inner))
                       outer)).
Proof.
  intros Ho Hi. induction outer as [| a outer IH]; simpl; [constructor |].
  apply NoDup_cons_iff in Ho. destruct Ho as [Ha Ho].
  rewrite map_app. apply NoDup_app.
  - rewrite map_map. simpl.
    assert (Hf := filter_ids_NoDup (fun b => id a <? id b) inner Hi).
    induction (filter (fun b => id a <? id b) inner) as [| b l IHl];
      simpl; [constructor |].
    apply NoDup_cons_iff in Hf. destruct Hf as [Hb Hl].
    constructor; [| now apply IHl].
    rewrite in_map_iff. intros (b' & E & Hb'). injection E as E.
    apply Hb. rewrite <- E. now apply in_map.
  - now apply IH.
  - intros [i j] H1 H2. apply in_map_iff in H1. destruct H1 as ([a1 b1] & E1 & H1).
    apply in_map_iff in H1. destruct H1 as (b0 & E0 & _).
    injection E0 as <- <-. simpl in E1. injection E1 as <- <-.
    apply in_map_iff in H2. destruct H2 as ([a2 b2] & E2 & H2).
    simpl in E2. injection E2 as E2 _.
    apply in_flat_map in H2. destruct H2 as (a3 & Ha3 & H2).
    apply in_map_iff in H2. destruct H2 as (b3 & E3 & _).
    injection E3 as <- <-. apply Ha. rewrite <- E2. now apply in_map.
Qed.

(** A [WHERE] on the join keeps the pairs of ids distinct. *)
Lemma filter_pairs_NoDup (keep : KnowledgeRow * KnowledgeRow -> bool)
    (ps : list (KnowledgeRow * KnowledgeRow)) :
  NoDup (map (fun ab => (id (fst ab), id (snd ab))) ps) ->
  NoDup (map (fun ab => (id (fst ab), id (snd ab))) (filter keep ps)).
Proof.
  induction ps as [| ab ps IH]; simpl; intros Hnd; [constructor |].
  apply NoDup_cons_iff in Hnd. destruct Hnd as [Hab Hps].
  destruct (keep ab); simpl; [| now apply IH].
  apply NoDup_cons_iff. split; [| now apply IH].
  rewrite in_map_iff. intros (cd & E & Hcd). apply filter_In in Hcd.
  apply Hab. rewrite <- E.
  apply (in_map (fun ab => (id (fst ab), id (snd ab)))). tauto.
Qed.

Lemma NoDup_firstn {A : Type} (n : nat) (l : list A) :
  NoDup l -> NoDup (firstn n l).
Proof.
  intros H. rewrite <- (firstn_skipn n l) in H.
  now apply NoDup_app_remove_r in H.
Qed.

(** [ROUND(x::numeric, 3)] is the multiple of 1/1000 nearest to [x], the
    farther from zero of the two when [x] lies halfway. *)
Lemma round3_spec (x : Q) :
  exists n : Z,
    round3 x = n # 1000
    /\ ((0 <= x)%Q ->
        (inject_Z n <= x * 1000 + (1 # 2))%Q
        /\ (x * 1000 + (1 # 2) < inject_Z (n + 1))%Q)
    /\ ((x < 0)%Q ->
        (inject_Z (- n) <= - x * 1000 + (1 # 2))%Q
        /\ (- x * 1000 + (1 # 2) < inject_Z (- n + 1))%Q).
Proof.
  unfold round3. destruct (Qle_bool 0 x) eqn:E.
  - exists (Qfloor (x * 1000 + (1 # 2))). split; [reflexivity |]. split.
    + intros _. split; [apply Qfloor_le | apply Qlt_floor].
    + intros Hneg. apply Qle_bool_iff in E.
      exfalso. exact (Qlt_not_le _ _ Hneg E).
  - exists (- Qfloor (- x * 1000 + (1 # 2))). split; [reflexivity |]. split.
    + intros Hpos. apply Qle_bool_iff in Hpos. congruence.
    + intros _. rewrite Z.opp_involutive.
      split; [apply Qfloor_le | apply Qlt_floor].
Qed.

Section TrigramFacts.

Variable trgm_similarity : string -> string -> Q.

(** X14. [findDuplicates] returns at most 50 pairs, highest (rounded)
    similarity first. Each pair is made of two rows of the table, the
    first with the lower id, so no row is paired with itself; the texts
    compared are, for each row, its topic, a space and its content, and
    their similarity is strictly above the threshold; the pair reports
    that similarity rounded to three decimals: a whole number of
    thousandths, the nearest one, and of two equally near the one farther
    from zero. With ids a primary key no two pairs name the same two ids,
    in either order. *)
Theorem findDuplicates_spec :
  forall threshold db,
    let result := findDuplicates trgm_similarity threshold db in
    let text := fun r : KnowledgeRow => topic r ++ " " ++ content r in
    (List.length result <= 50)%nat
    /\ Sorted (fun p q => (similarity q <= similarity p)%Q) result
    /\ (forall p, In p result ->
          id_a p < id_b p
          /\ exists a b,
               In a (rows db) /\ In b (rows db)
               /\ id_a p = id a /\ topic_a p = topic a
               /\ id_b p = id b /\ topic_b p = topic b
               /\ (threshold < trgm_similarity (text a) (text b))%Q
               /\ exists n : Z,
                    similarity p = n # 1000
                    /\ ((0 <= trgm_similarity (text a) (text b))%Q ->
                        (inject_Z n
                         <= trgm_similarity (text a) (text b) * 1000 + (1 # 2))%Q
                        /\ (trgm_similarity (text a) (text b) * 1000 + (1 # 2)
                            < inject_Z (n + 1))%Q)
                    /\ ((trgm_similarity (text a) (text b) < 0)%Q ->
                        (inject_Z (- n)
                         <= - trgm_similarity (text a) (text b) * 1000 + (1 # 2))%Q
                        /\ (- trgm_similarity (text a) (text b) * 1000 + (1 # 2)
                            < inject_Z (- n + 1))%Q))
    /\ (db_wf db ->
        NoDup (map (fun p => (id_a p, id_b p)) result)
        /\ forall p q, In p result -> In q result ->
                       ~ (id_a p = id_b q /\ id_b p = id_a q)).
Proof.
  intros threshold db result text.
  assert (Hmem : forall p, In p result ->
            id_a p < id_b p
            /\ exists a b,
                 In a (rows db) /\ In b (rows db)
                 /\ id_a p = id a /\ topic_a p = topic a
                 /\ id_b p = id b /\ topic_b p = topic b
                 /\ (threshold < pair_similarity trgm_similarity (a, b))%Q
                 /\ similarity p = round3 (pair_similarity trgm_similarity (a, b))).
  { intros p Hp. unfold result, findDuplicates in Hp.
    apply In_firstn, In_sort_by, in_map_iff in Hp.
    destruct Hp as ([a b] & <- & Hab). apply filter_In in Hab.
    destruct Hab as [Hab Hs]. apply Qltb_lt in Hs.
    apply In_join_lower_id in Hab. destruct Hab as (Ha & Hb & Hlt).
    split; [exact Hlt |]. exists a, b. simpl. repeat split; assumption. }
  split; [apply firstn_le_length |]. split; [| split].
  2: { intros p Hp. destruct (Hmem p Hp) as (Hlt & a & b & H).
       destruct H as (Ha & Hb & E1 & E2 & E3 & E4 & Hs & Hr).
       split; [exact Hlt |]. exists a, b.
       split; [exact Ha |]. split; [exact Hb |]. split; [exact E1 |].
       split; [exact E2 |]. split; [exact E3 |]. split; [exact E4 |].
       split; [exact Hs |]. rewrite Hr.
       exact (round3_spec (trgm_similarity (text a) (text b))). }
  - unfold result, findDuplicates.
    assert (H : Sorted (fun p q => Qle_bool (similarity q) (similarity p) = true)
                  (firstn 50
                     (sort_by (fun p q => Qle_bool (similarity q) (similarity p))
                        (map (fun ab => mkDuplicatePair (id (fst ab)) (topic (fst ab))
                                          (id (snd ab)) (topic (snd ab))
                                          (round3 (pair_similarity trgm_similarity ab)))
                             (filter (fun ab => Qltb threshold
                                                  (pair_similarity trgm_similarity ab))
                                     (join_lower_id (rows db))))))).
    { apply firstn_sorted, sort_by_sorted. intros a b E.
      assert (N : ~ (similarity b <= similarity a)%Q)
        by (rewrite <- Qle_bool_iff; congruence).
      apply Qle_bool_iff, Qlt_le_weak, Qnot_le_lt, N. }
    revert H. generalize (firstn 50
                     (sort_by (fun p q => Qle_bool (similarity q) (similarity p))
                        (map (fun ab => mkDuplicatePair (id (fst ab)) (topic (fst ab))
                                          (id (snd ab)) (topic (snd ab))
                                          (round3 (pair_similarity trgm_similarity ab)))
                             (filter (fun ab => Qltb threshold
                                                  (pair_similarity trgm_similarity ab))
                                     (join_lower_id (rows db)))))).
    intros l H. induction H as [| x l0 Hs IH Hhd]; constructor; [assumption |].
    destruct Hhd; constructor. now apply Qle_bool_iff.
  - intros [Hnd _]. split.
    + unfold result, findDuplicates. rewrite <- firstn_map. apply NoDup_firstn.
      eapply Permutation_NoDup.
      { apply Permutation_map, Permutation_sym, sort_by_perm. }
      rewrite map_map. simpl.
      apply filter_pairs_NoDup.
      now apply join_lower_id_NoDup.
    + intros p q Hp Hq [E1 E2].
      destruct (Hmem p Hp) as [Lp _]. destruct (Hmem q Hq) as [Lq _]. lia.
Qed.

End TrigramFacts.

(** ** The backfill of [initDb] and the classifier *)

Lemma ilike_any_keys (text : string) (keys : list string) :
  forallb plain_word keys = true ->
  map Js.toLowerCase keys = keys ->
  ilike_any text (map (fun k => "%" ++ k ++ "%") keys)
  = existsb (Js.includes (Js.toLowerCase text)) keys.
Proof.
  unfold ilike_any. induction keys as [| k ks IH]; cbn [forallb map existsb];
    intros Hp Hl; [reflexivity |].
  apply andb_true_iff in Hp. destruct Hp as [Hk Hks].
  injection Hl as Ek Eks.
  rewrite (ilike_substring text k Hk), Ek, (IH Hks Eks). reflexivity.
Qed.

Lemma backfill_core_test (r : KnowledgeRow) :
  ilike_any (topic r) backfill_core_patterns
  = existsb (Js.includes (Js.toLowerCase (topic r))) core_topics.
Proof. apply (ilike_any_keys (topic r) core_topics); reflexivity. Qed.

Lemma backfill_architecture_test (r : KnowledgeRow) :
  ilike_any (topic r) backfill_architecture_patterns
  = existsb (Js.includes (Js.toLowerCase (topic r))) architecture_topics.
Proof. apply (ilike_any_keys (topic r) architecture_topics); reflexivity. Qed.

Lemma backfill_row (r : KnowledgeRow) :
  (let r1 := if last_accessed_is_null r
             then set_last_accessed (Some (updated_at r)) r else r in
   let r2 := if (MemoryType_eqb (memory_type r1) pattern
                 && ilike_any (topic r1) backfill_core_patterns)%bool
             then set_memory_type core r1 else r1 in
   if (MemoryType_eqb (memory_type r2) pattern
       && ilike_any (topic r2) backfill_architecture_patterns)%bool
   then set_memory_type architecture r2 else r2)
  = backfilled r.
Proof.
  cbv zeta. unfold backfilled.
  rewrite (classify_unfold (topic r) []). cbv zeta. cbn [map Js.arr_includes existsb].
  rewrite !orb_false_r.
  assert (Hc := backfill_core_test r).
  assert (Ha := backfill_architecture_test r).
  destruct r as [i tp ct src u tg cf ac la mt cr up].
  unfold last_accessed_is_null, set_last_accessed, set_memory_type in *.
  cbn [id topic content source user_id tags confidence access_count
       last_accessed memory_type created_at updated_at] in *.
  destruct la as [t |]; cbn [coalesce last_accessed memory_type topic];
    destruct mt; cbn [MemoryType_eqb andb memory_type topic]; try reflexivity;
    rewrite Hc;
    destruct (existsb (Js.includes (Js.toLowerCase tp)) core_topics);
    cbn [memory_type topic MemoryType_eqb andb]; try reflexivity;
    rewrite Ha;
    destruct (existsb (Js.includes (Js.toLowerCase tp)) architecture_topics);
    try reflexivity;
    destruct (Js.includes (Js.toLowerCase tp) "decision"); reflexivity.
Qed.

Lemma backfilled_idem (r : KnowledgeRow) : backfilled (backfilled r) = backfilled r.
Proof.
  destruct r as [i tp ct src u tg cf ac la mt cr up]. unfold backfilled.
  cbn [id topic content source user_id tags confidence access_count
       last_accessed memory_type created_at updated_at coalesce].
  destruct mt; try reflexivity.
  destruct (classifyMemoryType tp []) eqn:E; try reflexivity.
Qed.

(** X15. The backfill that [initDb] runs at every start agrees with the
    classifier: each row stays in place with its id; a row never accessed
    gets its last update as last access; a row of type pattern becomes
    core or architecture when [classifyMemoryType] says so of its topic
    alone (tags are not looked at, and it never becomes a decision); rows
    of the other types keep their type. Running it again changes
    nothing. *)
Theorem initDb_backfill_spec :
  forall db,
    rows (initDb_backfill db) = map backfilled (rows db)
    /\ next_id (initDb_backfill db) = next_id db
    /\ map id (rows (initDb_backfill db)) = map id (rows db)
    /\ initDb_backfill (initDb_backfill db) = initDb_backfill db.
Proof.
  intros db.
  assert (E : forall d, rows (initDb_backfill d) = map backfilled (rows d)).
  { intros d. unfold initDb_backfill, update_where. cbn [rows].
    rewrite !map_map. apply map_ext. intros r. apply backfill_row. }
  split; [apply E |]. split; [reflexivity |]. split.
  - rewrite E, map_map. apply map_ext. reflexivity.
  - assert (R : rows (initDb_backfill (initDb_backfill db))
                = rows (initDb_backfill db)).
    { rewrite (E (initDb_backfill db)), E, map_map. apply map_ext.
      intros r. apply backfilled_idem. }
    assert (S : forall d, initDb_backfill d
                          = mkDb (rows (initDb_backfill d)) (next_id d))
      by reflexivity.
    rewrite (S (initDb_backfill db)), R. reflexivity.
Qed.

(** ** [initDbWithRetry] *)

Lemma initDbWithRetry_from_spec (initDb : nat -> bool) (maxRetries : nat) :
  forall n attempt,
    (attempt + n = maxRetries + 1)%nat ->
    let l := fst (initDbWithRetry_from initDb maxRetries n attempt) in
    let o := snd (initDbWithRetry_from initDb maxRetries n attempt) in
    l = seq attempt (List.length l)
    /\ (List.length l <= n)%nat
    /\ Forall (fun a => initDb a = false) (removelast l)
    /\ (o = Resolved ->
        n = O \/ initDb (attempt + List.length l - 1)%nat = true)
    /\ (o = Rejected ->
        List.length l = n /\ Forall (fun a => initDb a = false) l).
Proof.
  induction n as [| n IH]; intros attempt Hn; cbn [initDbWithRetry_from].
  - simpl. split; [reflexivity |]. split; [lia |]. split; [constructor |].
    split; [intros _; now left | discriminate].
  - destruct (initDb attempt) eqn:E.
    + simpl. split; [reflexivity |]. split; [lia |]. split; [constructor |].
      split; [| discriminate].
      intros _. right. replace (attempt + 1 - 1)%nat with attempt by lia. exact E.
    + destruct (Nat.ltb attempt maxRetries) eqn:L.
      * apply Nat.ltb_lt in L.
        specialize (IH (S attempt) ltac:(lia)). cbv zeta in IH.
        destruct (initDbWithRetry_from initDb maxRetries n (S attempt))
          as [l o] eqn:R.
        cbn [fst snd] in *. destruct IH as (H1 & H2 & H3 & H4 & H5).
        split; [simpl; now rewrite <- H1 |].
        split; [simpl; lia |]. split; [| split].
        -- destruct l as [| a l]; [constructor |].
           change (removelast (attempt :: a :: l))
             with (attempt :: removelast (a :: l)).
           constructor; assumption.
        -- intros Ho. right. destruct (H4 Ho) as [-> | Hs]; [lia |].
           simpl. replace (attempt + S (List.length l) - 1)%nat
             with (S attempt + List.length l - 1)%nat by lia. exact Hs.
        -- intros Ho. destruct (H5 Ho) as [Hl Hf].
           split; [simpl; lia | constructor; assumption].
      * apply Nat.ltb_ge in L. simpl.
        split; [reflexivity |]. split; [lia |]. split; [constructor |].
        split; [discriminate |]. intros _. split; [lia |].
        constructor; [assumption | constructor].
Qed.

(** X16. [initDbWithRetry] calls [initDb] for the attempts 1, 2, ... in
    turn, at most [maxRetries] times, and not again after a success. It
    resolves exactly when one of the first [maxRetries] calls succeeds
    (its last attempt is then that call) or when [maxRetries] is 0, in
    which case it resolves without calling [initDb] at all; it rejects
    after [maxRetries] failed calls. *)
Theorem initDbWithRetry_spec :
  forall initDb maxRetries,
    let attempts := fst (initDbWithRetry initDb maxRetries) in
    let outcome := snd (initDbWithRetry initDb maxRetries) in
    attempts = seq 1 (List.length attempts)
    /\ (List.length attempts <= maxRetries)%nat
    /\ Forall (fun a => initDb a = false) (removelast attempts)
    /\ (outcome = Resolved <->
        maxRetries = O
        \/ exists a, (1 <= a <= maxRetries)%nat /\ initDb a = true)
    /\ (outcome = Resolved -> maxRetries <> O ->
        initDb (List.length attempts) = true)
    /\ (outcome = Rejected ->
        List.length attempts = maxRetries
        /\ Forall (fun a => initDb a = false) attempts)
    /\ (maxRetries = O -> attempts = [] /\ outcome = Resolved).
Proof.
  intros initDb maxRetries attempts outcome.
  destruct (initDbWithRetry_from_spec initDb maxRetries maxRetries 1%nat
              ltac:(lia)) as (H1 & H2 & H3 & H4 & H5).
  fold (initDbWithRetry initDb maxRetries) in *.
  fold attempts in H1, H2, H3, H4, H5. fold outcome in H4, H5.
  assert (Hin : forall a, In a attempts <-> (1 <= a < 1 + List.length attempts)%nat).
  { intros a. rewrite H1 at 1. apply in_seq. }
  split; [exact H1 |]. split; [exact H2 |]. split; [exact H3 |].
  split; [| split; [| split; [exact H5 |]]].
  - split.
    + intros Ho. destruct (H4 Ho) as [-> | Hs]; [now left |].
      destruct (Nat.eq_dec maxRetries 0) as [-> | Nz]; [now left |].
      right. exists (1 + List.length attempts - 1)%nat. split; [| exact Hs].
      destruct attempts as [| a l] eqn:Ea.
      * exfalso. destruct outcome eqn:Eo; [| discriminate].
        unfold attempts, initDbWithRetry in Ea.
        destruct maxRetries as [| m]; [contradiction |].
        cbn [initDbWithRetry_from] in Ea.
        destruct (initDb 1%nat); [discriminate |].
        destruct (Nat.ltb 1 (S m)); [| discriminate].
        destruct (initDbWithRetry_from initDb (S m) m 2); discriminate.
      * simpl in *. lia.
    + intros [-> | (a & Ha & Hs)].
      * reflexivity.
      * destruct outcome eqn:Eo; [reflexivity |]. exfalso.
        destruct (H5 eq_refl) as [Hl Hf]. rewrite Forall_forall in Hf.
        assert (Hc : initDb a = false) by (apply Hf, Hin; lia).
        congruence.
  - intros Ho Nz. destruct (H4 Ho) as [E | Hs]; [contradiction |].
    destruct attempts as [| a l] eqn:Ea.
    + exfalso. unfold attempts, initDbWithRetry in Ea.
      destruct maxRetries as [| m]; [contradiction |].
      cbn [initDbWithRetry_from] in Ea.
      destruct (initDb 1%nat); [discriminate |].
      destruct (Nat.ltb 1 (S m)); [| discriminate].
      destruct (initDbWithRetry_from initDb (S m) m 2); discriminate.
    + simpl in *. replace (List.length l - 0)%nat with (List.length l) in Hs by lia.
      exact Hs.
  - intros ->. split; reflexivity.
Qed.

(** ** The words and the ranks of the search fallback *)






Lemma fallback_hits_bounds (patterns : list string) src tgs (k : KnowledgeRow) :
  fallback_where patterns src tgs k = true ->
  (1 <= fallback_hits patterns k <= List.length patterns)%nat.
Proof.
  intros H. unfold fallback_hits. split; [| apply filter_length_le].
  assert (E : exists pat, In pat patterns
                /\ (ilike (topic k) pat || ilike (content k) pat)%bool = true).
  { unfold fallback_where, ilike_any in H.
    apply orb_true_iff in H. destruct H as [H | H].
    - apply existsb_exists in H. destruct H as (pat & Hp & Hm).
      exists pat. split; [assumption |]. now rewrite Hm.
    - apply andb_true_iff in H. destruct H as [H _].
      apply andb_true_iff in H. destruct H as [H _].
      apply existsb_exists in H. destruct H as (pat & Hp & Hm).
      exists pat. split; [assumption |]. rewrite Hm. apply orb_true_r. }
  destruct E as (pat & Hp & Hm).
  assert (Hin : In pat (filter (fun pat => (ilike (topic k) pat
                                            || ilike (content k) pat)%bool)
                               patterns)) by (apply filter_In; auto).
  destruct (filter _ patterns); [destruct Hin | simpl; lia].
Qed.

Lemma fallback_rank_range (patterns : list string) src tgs (k : KnowledgeRow) :
  fallback_where patterns src tgs k = true ->
  (0 < fallback_rank patterns k <= 1)%Q.
Proof.
  intros H. destruct (fallback_hits_bounds patterns src tgs k H) as [H1 H2].
  unfold fallback_rank, Qlt, Qle. cbn [Qnum Qden].
  destruct (List.length patterns) as [| n] eqn:E; [lia |].
  rewrite <- Pos.of_nat_succ, Zpos_P_of_succ_nat. lia.
Qed.

Section SearchBounds.

Variable tsquery_ok : string -> bool.
Variable ts_match : string -> KnowledgeRow -> bool.
Variable ts_rank : string -> KnowledgeRow -> Q.

(** The filters on source and tags, as conditions on the row. *)
Lemma source_ok_iff (src : option string) (k : KnowledgeRow) :
  source_ok src k = true <->
  (forall s, src = Some s -> s <> "" -> source k = s).
Proof.
  unfold source_ok, source_given. destruct src as [s |].
  - destruct (String.eqb_spec s "") as [-> | N].
    + split; [| reflexivity]. intros _ s E. injection E as <-. congruence.
    + rewrite String.eqb_eq. split.
      * intros E s' E'. injection E' as <-. auto.
      * intros H. now apply H.
  - split; [discriminate | reflexivity].
Qed.

Lemma tags_ok_iff (tgs : option (list string)) (k : KnowledgeRow) :
  tags_ok tgs k = true <->
  (forall l, tgs = Some l -> l <> [] -> exists t, In t (tags k) /\ In t l).
Proof.
  unfold tags_ok, tags_given. destruct tgs as [[| t0 l0] |].
  - split; [| reflexivity]. intros _ l E. injection E as <-. congruence.
  - unfold array_overlap. rewrite existsb_exists. split.
    + intros (t & Ht & Hl) l E _. injection E as <-.
      exists t. split; [assumption | now apply arr_includes_In].
    + intros H. destruct (H (t0 :: l0) eq_refl ltac:(discriminate))
        as (t & Ht & Hl).
      exists t. split; [assumption | now apply arr_includes_In].
  - split; [discriminate | reflexivity].
Qed.

(** The rows of the primary tier. *)
Lemma In_primary_query query src tgs limit db (k : KnowledgeRow) (r : Q) :
  In (k, r) (primary_query ts_match ts_rank query src tgs limit db) ->
  In k (rows db) /\ ts_match (tsQuery query) k = true
  /\ source_ok src k = true /\ tags_ok tgs k = true
  /\ r = ts_rank (tsQuery query) k.
Proof.
  unfold primary_query. intros Hin.
  apply In_firstn, In_sort_by, in_map_iff in Hin.
  destruct Hin as (k0 & E & Hk). injection E as -> <-.
  apply filter_In in Hk. destruct Hk as [Hk Hc].
  apply andb_true_iff in Hc. destruct Hc as [Hc Ht].
  apply andb_true_iff in Hc. destruct Hc as [Hm Hs]. tauto.
Qed.

Lemma primary_query_nonempty query src tgs limit db (k : KnowledgeRow) :
  In k (rows db) -> ts_match (tsQuery query) k = true ->
  source_ok src k = true -> tags_ok tgs k = true -> (0 < limit)%nat ->
  primary_query ts_match ts_rank query src tgs limit db <> [].
Proof.
  intros Hin Hm Hs Ht Hl E. apply (f_equal (@List.length _)) in E.
  unfold primary_query, order_limit in E.
  rewrite length_firstn, (Permutation_length (sort_by_perm _ _)) in E.
  rewrite length_map in E. cbn [List.length] in E.
  assert (Hk : In k (filter (fun k => (ts_match (tsQuery query) k
                                        && source_ok src k && tags_ok tgs k)%bool)
                            (rows db))).
  { apply filter_In. split; [assumption |]. now rewrite Hm, Hs, Ht. }
  destruct (filter _ (rows db)) as [| x l]; [destruct Hk |].
  cbn [List.length] in E. lia.
Qed.


(** The two tiers of a search on a query that parses. *)
Lemma searchKnowledge_tiers :
  forall query src tgs limit db,
    let result := searchKnowledge ts_match ts_rank query src tgs limit db in
    let primary := primary_query ts_match ts_rank query src tgs limit db in
    (List.length result <= Nat.min limit 50)%nat
    /\ Sorted (fun a b => (snd b <= snd a)%Q) result
    /\ (forall k q, In (k, q) result -> In k (rows db))
    /\ (primary <> [] ->
        result = primary
        /\ forall k q, In (k, q) result ->
             ts_match (tsQuery query) k = true
             /\ source_ok src k = true /\ tags_ok tgs k = true)
    /\ (primary = [] ->
        forall k q, In (k, q) result ->
          (0 < q <= 1)%Q
          /\ exists w, In w (fallback_words query)
               /\ (ilike (topic k) ("%" ++ w ++ "%") = true
                   \/ ilike (content k) ("%" ++ w ++ "%") = true)).
Proof.
  intros query src tgs limit db result primary.
  assert (Hprim : Sorted (fun a b => (snd b <= snd a)%Q) primary
                  /\ (List.length primary <= Nat.min limit 50)%nat
                  /\ (forall k q, In (k, q) primary ->
                        In k (rows db) /\ ts_match (tsQuery query) k = true
                        /\ source_ok src k = true /\ tags_ok tgs k = true)).
  { unfold primary, primary_query.
    destruct (order_limit_spec limit
                (map (fun k => (k, ts_rank (tsQuery query) k))
                     (filter (fun k => (ts_match (tsQuery query) k
                                        && source_ok src k && tags_ok tgs k)%bool)
                             (rows db)))) as (H1 & H2 & H3 & H4).
    split; [exact H1 |]. split; [lia |].
    intros k q Hin. apply H4 in Hin. apply in_map_iff in Hin.
    destruct Hin as (k0 & E & Hk). injection E as -> _.
    apply filter_In in Hk. destruct Hk as [Hk Hc].
    apply andb_true_iff in Hc. destruct Hc as [Hc Ht].
    apply andb_true_iff in Hc. destruct Hc as [Hm Hs]. tauto. }
  destruct Hprim as (P1 & P2 & P3).
  assert (Hfb : primary = [] ->
            result = [] \/
            (fallback_words query <> []
             /\ result = fallback_query (fallback_patterns (fallback_words query))
                                        src tgs limit db)).
  { intros E. unfold result, searchKnowledge. fold primary. rewrite E.
    cbv zeta. cbn [List.length Nat.eqb andb].
    destruct (Nat.leb 2 (String.length (Js.trim query))); [| now left].
    destruct (fallback_words query) as [| w ws] eqn:W; [now left |].
    right. split; [discriminate | reflexivity]. }
  assert (Hpr : primary <> [] -> result = primary).
  { intros N. unfold result. now apply search_primary_first. }
  destruct primary as [| p0 ps] eqn:Ep.
  - destruct (Hfb eq_refl) as [-> | [Hw ->]].
    + split; [simpl; lia |]. split; [constructor |].
      split; [intros k q [] |]. split; [intros N; now contradiction N |].
      intros _ k q [].
    + destruct (fallback_query_spec (fallback_patterns (fallback_words query))
                  src tgs limit db) as (F1 & F2 & F3).
      split; [exact F2 |]. split; [exact F1 |].
      split; [intros k q Hin; now apply (F3 k q) |].
      split; [intros N; now contradiction N |].
      intros _ k q Hin. destruct (F3 k q Hin) as (Hk & Hwh & ->).
      split; [now apply (fallback_rank_range _ src tgs) |].
      assert (E : exists pat, In pat (fallback_patterns (fallback_words query))
                    /\ (ilike (topic k) pat = true \/ ilike (content k) pat = true)).
      { unfold fallback_where, ilike_any in Hwh.
        apply orb_true_iff in Hwh. destruct Hwh as [H | H].
        - apply existsb_exists in H. destruct H as (pat & Hp & Hm). eauto.
        - apply andb_true_iff in H. destruct H as [H _].
          apply andb_true_iff in H. destruct H as [H _].
          apply existsb_exists in H. destruct H as (pat & Hp & Hm). eauto. }
      destruct E as (pat & Hp & Hm). unfold fallback_patterns in Hp.
      apply in_map_iff in Hp. destruct Hp as (w & <- & Hw'). eauto.
  - rewrite (Hpr ltac:(discriminate)).
    split; [exact P2 |]. split; [exact P1 |].
    split; [intros k q Hin; now apply (P3 k q) |].
    split; [| discriminate].
    intros _. split; [reflexivity |]. intros k q Hin.
    destruct (P3 k q Hin) as (_ & H). exact H.
Qed.

(** X18. The text handed to [to_tsquery] is made of the words of the
    query between its runs of white space, each followed by ":*", joined
    by " & ". When that text does not parse the call raises. When it
    parses, the call returns rows of the table, highest rank first, at
    most [limit] and never more than 50. A row passes when it matches the
    text and, where a source is given and not empty, has that source and,
    where tags are given and not none, has one of them. If some row passes
    and the limit is positive, the result is not empty and each of its
    rows passes, with the rank the engine gives it. If no row passes,
    every row returned matched, on its topic or its content, the pattern
    of a word of the query, and its rank is a fraction above 0 and at
    most 1. *)
Theorem searchKnowledge_bounds :
  forall query src tgs limit db,
    let q :=
      String.concat " & "
        (map (fun w => w ++ ":*")
             (filter (fun w => negb (String.eqb w ""))
                     (Js.split Js.is_space query))) in
    let passes := fun k : KnowledgeRow =>
      ts_match q k = true
      /\ (forall s, src = Some s -> s <> "" -> source k = s)
      /\ (forall l, tgs = Some l -> l <> [] ->
            exists t, In t (tags k) /\ In t l) in
    let call :=
      searchKnowledge_call tsquery_ok ts_match ts_rank query src tgs limit db in
    (tsquery_ok q = false -> call = Raised "42601")
    /\ (tsquery_ok q = true ->
        exists result,
          call = Returned result
          /\ (List.length result <= Nat.min limit 50)%nat
          /\ Sorted (fun a b => (snd b <= snd a)%Q) result
          /\ (forall k r, In (k, r) result -> In k (rows db))
          /\ ((exists k, In k (rows db) /\ passes k) -> (0 < limit)%nat ->
              result <> []
              /\ forall k r, In (k, r) result -> passes k /\ r = ts_rank q k)
          /\ ((forall k, In k (rows db) -> ~ passes k) ->
              forall k r, In (k, r) result ->
                (0 < r <= 1)%Q
                /\ exists w, In w (fallback_words query)
                     /\ (ilike (topic k) ("%" ++ w ++ "%") = true
                         \/ ilike (content k) ("%" ++ w ++ "%") = true)))
    /\ tsQuery "  stripe   webhook " = "stripe:* & webhook:*".
Proof.
  intros query src tgs limit db q passes call.
  assert (Hq : tsQuery query = q) by reflexivity.
  assert (Hpass : forall k,
            passes k <-> ts_match (tsQuery query) k = true
                         /\ source_ok src k = true /\ tags_ok tgs k = true).
  { intros k. unfold passes. rewrite Hq, source_ok_iff, tags_ok_iff.
    reflexivity. }
  unfold call, searchKnowledge_call. rewrite Hq.
  split; [intros E; now rewrite E |]. split; [| reflexivity].
  intros E. rewrite E.
  exists (searchKnowledge ts_match ts_rank query src tgs limit db).
  split; [reflexivity |].
  destruct (searchKnowledge_tiers query src tgs limit db)
    as (L1 & L2 & L3 & L4 & L5).
  split; [exact L1 |]. split; [exact L2 |]. split; [exact L3 |]. split.
  - intros (k & Hin & Hp) Hlim. apply Hpass in Hp.
    destruct Hp as (Hm & Hs & Ht).
    assert (N := primary_query_nonempty query src tgs limit db k
                   Hin Hm Hs Ht Hlim).
    destruct (L4 N) as [-> _]. split; [exact N |].
    intros k' r Hin'. apply In_primary_query in Hin'.
    destruct Hin' as (_ & Hm' & Hs' & Ht' & ->).
    split; [apply Hpass; tauto | now rewrite Hq].
  - intros Hnone. apply L5.
    destruct (primary_query ts_match ts_rank query src tgs limit db)
      as [| [k r] l] eqn:P; [reflexivity |].
    assert (Hin : In (k, r) (primary_query ts_match ts_rank query src tgs limit db))
      by (rewrite P; now left).
    apply In_primary_query in Hin. destruct Hin as (Hin & Hm & Hs & Ht & _).
    exfalso. apply (Hnone k Hin). apply Hpass. tauto.
Qed.

End SearchBounds.

(** ** [listTopics] *)

Lemma retention_score_nonneg now cf ac la mt tgs created :
  (0 <= retention_score now cf ac la mt tgs created)%R.
Proof.
  destruct (retention_score_cases now cf ac la mt tgs created)
    as [[_ ->] | [(_ & _ & ->) | (_ & _ & ->)]].
  - lra.
  - assert (M := Rmax_r (Q2R cf) 0.9). lra.
  - unfold spec_blend. apply clamp_unit_range.
Qed.

Lemma sum_unit_range (l : list R) :
  Forall (fun x => 0 <= x <= 1)%R l ->
  (0 <= fold_right Rplus 0 l <= INR (List.length l))%R.
Proof.
  induction 1 as [| x l Hx Hl IH]; [simpl; lra |].
  change (List.length (x :: l)) with (S (List.length l)).
  rewrite S_INR. simpl. lra.
Qed.

Lemma avg_unit_range (l : list R) :
  l <> [] -> Forall (fun x => 0 <= x <= 1)%R l -> (0 <= avg l <= 1)%R.
Proof.
  intros Hne H. apply sum_unit_range in H. unfold avg.
  assert (Hpos : (0 < INR (List.length l))%R).
  { apply lt_0_INR. destruct l; [contradiction | simpl; lia]. }
  split.
  - apply Rmult_le_pos; [lra |]. left. now apply Rinv_0_lt_compat.
  - apply (Rmult_le_reg_r (INR (List.length l))); [assumption |].
    unfold Rdiv. rewrite Rmult_assoc, Rinv_l by lra. lra.
Qed.

Lemma round2_unit_range (x : R) : (0 <= x <= 1 -> 0 <= round2 x <= 1)%R.
Proof.
  intros [H0 H1]. unfold round2. destruct (Rle_dec 0 x) as [_ | N]; [| lra].
  destruct (base_Int_part (x * 100 + / 2)) as [B1 B2].
  set (n := Int_part (x * 100 + / 2)) in *.
  assert (Hn0 : 0 <= n).
  { apply Z.lt_succ_r. apply lt_IZR. rewrite succ_IZR. lra. }
  assert (Hn1 : n <= 100).
  { apply Z.lt_succ_r. apply lt_IZR. rewrite succ_IZR. lra. }
  apply IZR_le in Hn0, Hn1. lra.
Qed.

Lemma max_updated_spec (m : KnowledgeRow) (l : list KnowledgeRow) :
  (exists r, In r (m :: l) /\ updated_at r = max_updated (m :: l))
  /\ (forall r, In r (m :: l) -> updated_at r <= max_updated (m :: l)).
Proof.
  unfold max_updated. induction l as [| x l IH]; simpl.
  - split; [exists m; auto |]. intros r [<- | []]. lia.
  - destruct IH as [(r & Hr & Er) Hle]. split.
    + destruct (Z.max_spec (updated_at x)
                  (fold_right Z.max (updated_at m) (map updated_at l)))
        as [[_ ->] | [_ ->]].
      * exists r. split; [| exact Er]. destruct Hr as [<- | Hr]; auto.
      * exists x. auto.
    + intros y [<- | [<- | Hy]].
      * specialize (Hle m (or_introl eq_refl)). lia.
      * lia.
      * specialize (Hle y (or_intror Hy)). lia.
Qed.

(** X19. [listTopics] lists each topic of the rows with the source asked
    for (all rows when none or an empty one is asked) once, most recently
    updated first. For each topic the count is the number of those rows
    and is at least 1, [last_updated] is the latest update among them,
    [sources] holds their sources without repeats, and the counts add up
    to the number of rows considered. The average retention shown lies in
    [0,1] when every core row of the topic has a confidence of at most 1. *)
Theorem listTopics_spec :
  forall now src db,
    let considered := filter (source_ok src) (rows db) in
    let result := listTopics now src db in
    NoDup (map t_topic result)
    /\ Sorted (fun a b => last_updated b <= last_updated a) result
    /\ (forall r, In r considered -> In (topic r) (map t_topic result))
    /\ list_sum (map count result) = List.length considered
    /\ (forall s, In s result ->
          let members :=
            filter (fun r => String.eqb (t_topic s) (topic r)) considered in
          count s = List.length members /\ (1 <= count s)%nat
          /\ (exists r, In r members /\ updated_at r = last_updated s)
          /\ (forall r, In r members -> updated_at r <= last_updated s)
          /\ NoDup (sources s)
          /\ (forall x, In x (sources s) <->
                exists r, In r members /\ source r = x)
          /\ ((forall r, In r members -> memory_type r = core ->
                         (confidence r <= 1)%Q) ->
              (0 <= avg_retention s <= 1)%R)).
Proof.
  intros now src db considered result.
  destruct (group_by_spec String.eqb topic String.eqb_eq considered)
    as (Hnd & Hmem & Hkeys).
  set (groups := group_by String.eqb topic considered) in *.
  assert (P : Permutation result (map (topic_summary now) groups))
    by apply sort_by_perm.
  assert (Et : map t_topic (map (topic_summary now) groups) = map fst groups)
    by (rewrite map_map; apply map_ext; reflexivity).
  assert (Ec : map count (map (topic_summary now) groups)
               = map (@List.length KnowledgeRow) (map snd groups))
    by (rewrite !map_map; apply map_ext; reflexivity).
  split; [| split; [| split; [| split]]].
  - apply (Permutation_NoDup
             (Permutation_sym (Permutation_map t_topic P))).
    now rewrite Et.
  - apply (Sorted_weaken
             (fun a b => Z.leb (last_updated b) (last_updated a) = true)).
    + intros a b. apply Z.leb_le.
    + apply sort_by_sorted. intros a b. apply Zleb_total.
  - intros r Hr.
    apply (Permutation_in _ (Permutation_sym (Permutation_map t_topic P))).
    rewrite Et. now apply Hkeys.
  - rewrite (list_sum_perm _ _ (Permutation_map count P)), Ec.
    rewrite <- concat_length_sum.
    apply Permutation_length, group_by_concat.
  - intros s Hs members.
    apply (Permutation_in _ P) in Hs. apply in_map_iff in Hs.
    destruct Hs as ([k ms] & <- & Hg).
    destruct (Hmem k ms Hg) as [Ems Hne].
    unfold members, topic_summary. cbn [t_topic count last_updated sources
                                        avg_retention fst snd].
    rewrite <- Ems.
    destruct ms as [| m l]; [contradiction |].
    destruct (max_updated_spec m l) as [M1 M2].
    destruct (set_spread_spec (map source (m :: l))) as [S1 S2].
    split; [reflexivity |]. split; [simpl; lia |].
    split; [exact M1 |]. split; [exact M2 |]. split; [exact S1 |]. split.
    + intros x. rewrite S2, in_map_iff.
      split; intros (r & H1 & H2); exists r; tauto.
    + intros Hconf. apply round2_unit_range, avg_unit_range.
      * discriminate.
      * rewrite Forall_forall. intros x Hx. apply in_map_iff in Hx.
        destruct Hx as (r & <- & Hr). unfold row_score. split.
        -- apply retention_score_nonneg.
        -- apply retention_score_le_1. now apply Hconf.
Qed.

(** ** What every sequence of calls keeps *)

Lemma update_where_Forall (P : KnowledgeRow -> Prop) cond set
    (l : list KnowledgeRow) :
  (forall r, In r l -> P r -> P (set r)) ->
  Forall P l -> Forall P (update_where cond set l).
Proof.
  intros Hset H. rewrite Forall_forall in *. intros r' Hr'.
  apply In_update_where in Hr'. destruct Hr' as (r & Hr & ->).
  destruct (cond r); auto.
Qed.

Lemma initDb_backfill_wf (db : Db) : db_wf db -> db_wf (initDb_backfill db).
Proof.
  intros Hwf. unfold initDb_backfill.
  apply (wf_update (mkDb _ (next_id db))); [reflexivity |].
  apply (wf_update (mkDb _ (next_id db))); [reflexivity |].
  now apply wf_update.
Qed.

Lemma apply_op_wf (db : Db) (op : Op) : db_wf db -> db_wf (apply_op db op).
Proof.
  intros Hwf. destruct op; cbn [apply_op].
  - now apply saveKnowledge_wf.
  - now apply mergeKnowledge_wf.
  - now apply pruneStaleEntries_wf.
  - now apply deleteKnowledge_wf.
  - now apply recordAccess_wf.
  - now apply initDb_backfill_wf.
Qed.

Lemma apply_op_access (db : Db) (op : Op) :
  Forall (fun r => 0 <= access_count r) (rows db) ->
  Forall (fun r => 0 <= access_count r) (rows (apply_op db op)).
Proof.
  intros H. destruct op; cbn [apply_op].
  - unfold saveKnowledge, save_write.
    destruct (save_select db a); cbn [snd rows].
    + apply update_where_Forall; [| assumption]. intros r _ Hr. exact Hr.
    + apply Forall_app. split; [assumption |].
      constructor; [simpl; lia | constructor].
  - unfold mergeKnowledge.
    destruct (select_by_id db keepId) as [| keep lk] eqn:Ek; [assumption |].
    destruct (select_by_id db deleteId) as [| del ld] eqn:Ed; [assumption |].
    cbn [snd rows]. unfold delete_where. apply Forall_filter_keep.
    assert (Hk : In keep (rows db)).
    { apply (proj1 (In_select_by_id db keepId keep)). rewrite Ek. now left. }
    assert (Hd : In del (rows db)).
    { apply (proj1 (In_select_by_id db deleteId del)). rewrite Ed. now left. }
    rewrite Forall_forall in H.
    assert (Ak := H keep Hk). assert (Ad := H del Hd). cbv beta in Ak, Ad.
    apply update_where_Forall; [| now apply Forall_forall].
    intros r _ _. simpl. lia.
  - unfold pruneStaleEntries. cbn [snd].
    destruct (negb dryRun && _)%bool; [| assumption].
    cbn [rows]. unfold delete_where. now apply Forall_filter_keep.
  - unfold deleteKnowledge. cbn [snd rows]. unfold delete_where.
    now apply Forall_filter_keep.
  - rewrite recordAccess_rows. apply update_where_Forall; [| assumption].
    intros r _ Hr. simpl. lia.
  - unfold initDb_backfill. cbn [rows].
    repeat (apply update_where_Forall; [intros r _ Hr; exact Hr |]).
    assumption.
Qed.

Lemma apply_op_next_id (db : Db) (op : Op) : next_id db <= next_id (apply_op db op).
Proof.
  destruct op; cbn [apply_op].
  - unfold saveKnowledge, save_write.
    destruct (save_select db a); cbn [snd next_id]; lia.
  - unfold mergeKnowledge.
    destruct (select_by_id db keepId); [cbn; lia |].
    destruct (select_by_id db deleteId); cbn; lia.
  - unfold pruneStaleEntries. cbn [snd].
    destruct (negb dryRun && _)%bool; cbn; lia.
  - cbn. lia.
  - unfold recordAccess. destruct ids; cbn; lia.
  - cbn. lia.
Qed.

(** X20. Whatever calls are made, in whatever order, starting from the
    empty table (saves, merges, sweeps, deletes, access recordings, the
    backfill): ids stay distinct and below the sequence, access counts stay
    non-negative (so the score never takes the logarithm of a non-positive
    number), and no call moves the sequence back, so an id once given is
    never given again. *)
Theorem reachable_tables :
  forall ops,
    db_wf (run_ops ops)
    /\ Forall (fun r => 0 <= access_count r) (rows (run_ops ops))
    /\ 1 <= next_id (run_ops ops)
    /\ (forall op, next_id (run_ops ops) <= next_id (run_ops (ops ++ [op]))).
Proof.
  intros ops. unfold run_ops.
  assert (G : forall db,
            db_wf db -> Forall (fun r => 0 <= access_count r) (rows db) ->
            1 <= next_id db ->
            db_wf (fold_left apply_op ops db)
            /\ Forall (fun r => 0 <= access_count r) (rows (fold_left apply_op ops db))
            /\ 1 <= next_id (fold_left apply_op ops db)).
  { induction ops as [| op ops IH]; intros db H1 H2 H3; cbn [fold_left].
    - auto.
    - apply IH.
      + now apply apply_op_wf.
      + now apply apply_op_access.
      + assert (N := apply_op_next_id db op). lia. }
  destruct (G empty_db empty_db_wf) as (G1 & G2 & G3);
    [constructor | simpl; lia |].
  split; [exact G1 |]. split; [exact G2 |]. split; [exact G3 |].
  intros op. rewrite fold_left_app. cbn [fold_left]. apply apply_op_next_id.
Qed.

(** ** More on [saveKnowledge] *)

Lemma save_set_idem now (a : SaveArgs) (r : KnowledgeRow) :
  save_set now a (save_set now a r) = save_set now a r.
Proof. reflexivity. Qed.

Lemma update_where_idem cond set (l : list KnowledgeRow) :
  (forall r, cond (set r) = cond r) -> (forall r, set (set r) = set r) ->
  update_where cond set (update_where cond set l) = update_where cond set l.
Proof.
  intros Hc Hs. unfold update_where. rewrite map_map. apply map_ext.
  intros r. destruct (cond r) eqn:E.
  - now rewrite Hc, E, Hs.
  - now rewrite E.
Qed.

(** The same call made again at the same time, both with the scan that
    follows the list. *)
Lemma saveKnowledge_again :
  forall now db a,
    db_wf db ->
    saveKnowledge now (snd (saveKnowledge now db a)) a = saveKnowledge now db a.
Proof.
  intros now db a Hwf.
  assert (S := save_select_after_save now db a a eq_refl eq_refl eq_refl).
  unfold saveKnowledge at 1. rewrite S. cbn [save_write].
  unfold saveKnowledge, save_write.
  destruct (save_select db a) as [i |] eqn:E; cbn [fst snd rows next_id].
  - f_equal. f_equal. apply update_where_idem; reflexivity.
  - f_equal. f_equal. unfold update_where. rewrite map_app. cbn [map].
    unfold id_is at 2. cbn [id save_new_row]. rewrite Z.eqb_refl.
    f_equal.
    destruct Hwf as [_ Hlt]. rewrite Forall_forall in Hlt.
    induction (rows db) as [| r l IH]; [reflexivity |]. cbn [map].
    rewrite IH by (intros x Hx; apply Hlt; now right). f_equal.
    assert (I : id_is (next_id db) r = false).
    { unfold id_is. apply Z.eqb_neq.
      specialize (Hlt r (or_introl eq_refl)). lia. }
    now rewrite I.
Qed.

(** X21. Where ids are a primary key and at most one of them carries the
    triple, a save is idempotent: whatever row the store hands back, the
    same call made again at the same time returns the same id and leaves
    the table exactly as the first call left it. *)
Theorem saveKnowledge_idempotent :
  forall now db a res1 res2,
    db_wf db ->
    (forall r r', In r (rows db) -> In r' (rows db) ->
       topic r = a_topic a -> source r = a_source a -> content r = a_content a ->
       topic r' = a_topic a -> source r' = a_source a -> content r' = a_content a ->
       id r = id r') ->
    save_may now db a res1 -> save_may now (snd res1) a res2 ->
    res2 = res1.
Proof.
  intros now db a res1 res2 Hwf Hkey H1 H2.
  assert (Hu : key_unique db a).
  { intros r r' Hr Hr' Hk Hk'. unfold natural_key_is in Hk, Hk'.
    apply andb_true_iff in Hk. destruct Hk as [Hk Hc].
    apply andb_true_iff in Hk. destruct Hk as [Ht Hs].
    apply andb_true_iff in Hk'. destruct Hk' as [Hk' Hc'].
    apply andb_true_iff in Hk'. destruct Hk' as [Ht' Hs'].
    apply String.eqb_eq in Ht, Hs, Hc, Ht', Hs', Hc'.
    now apply Hkey. }
  apply (save_may_unique now db a res1 Hu) in H1. subst res1.
  assert (Hu1 : key_unique (snd (saveKnowledge now db a)) a)
    by (apply key_unique_after_save; [reflexivity .. | exact Hu]).
  apply (save_may_unique now _ a res2 Hu1) in H2. subst res2.
  now apply saveKnowledge_again.
Qed.

Lemma saveKnowledge_idempotent_witness :
  db_wf two_rows_db
  /\ save_may 50 two_rows_db
       (mkSaveArgs "pricing-v2" "Prices rise in May" "website" ["pricing"]
                   (3 # 4) "cpg" None)
       (1, mkDb [mkRow 1 "pricing-v2" "Prices rise in May" "website" "cpg"
                       ["pricing"] (3 # 4) 3 (Some 100) architecture 10 50;
                 row_b] 3)
  /\ forall res2,
       save_may 50
         (mkDb [mkRow 1 "pricing-v2" "Prices rise in May" "website" "cpg"
                      ["pricing"] (3 # 4) 3 (Some 100) architecture 10 50;
                row_b] 3)
         (mkSaveArgs "pricing-v2" "Prices rise in May" "website" ["pricing"]
                     (3 # 4) "cpg" None)
         res2 ->
       res2 = (1, mkDb [mkRow 1 "pricing-v2" "Prices rise in May" "website" "cpg"
                              ["pricing"] (3 # 4) 3 (Some 100) architecture 10 50;
                        row_b] 3).
Proof.
  set (a := mkSaveArgs "pricing-v2" "Prices rise in May" "website" ["pricing"]
                       (3 # 4) "cpg" None).
  set (res1 := (1, mkDb [mkRow 1 "pricing-v2" "Prices rise in May" "website" "cpg"
                              ["pricing"] (3 # 4) 3 (Some 100) architecture 10 50;
                        row_b] 3)).
  assert (H1 : save_may 50 two_rows_db a res1).
  { exists (Some 1). split; [| reflexivity].
    exists row_a. split; [now left |]. split; reflexivity. }
  split; [exact two_rows_db_wf |]. split; [exact H1 |].
  intros res2 H2.
  refine (saveKnowledge_idempotent 50 two_rows_db a res1 res2
            two_rows_db_wf _ H1 H2).
  intros r r' [<- | [<- | []]] [<- | [<- | []]]; cbn; intros;
    try reflexivity; discriminate.
Defined.

(** ** The two entry points of a save, on a valid request *)

Lemma z_string_nonempty (hi : nat) (v : option string) :
  z_string 1 hi v = true -> js_not v = false.
Proof.
  destruct v as [s |]; simpl; [| discriminate].
  intros H. apply andb_true_iff in H. destruct H as [H _].
  destruct s; [discriminate | reflexivity].
Qed.

(** X22. On every request that passes the schema of the tool, the REST
    route and the tool do the same: they answer the same id and leave the
    same table. *)
Theorem entry_points_agree :
  forall now db req,
    inputSchema req = true ->
    api_save now db req = saveKnowledgeTool now db req.
Proof.
  intros now db req S. unfold api_save, saveKnowledgeTool. rewrite S.
  unfold inputSchema in S.
  apply andb_true_iff in S. destruct S as [S _].
  apply andb_true_iff in S. destruct S as [S _].
  apply andb_true_iff in S. destruct S as [S _].
  apply andb_true_iff in S. destruct S as [S Ss].
  apply andb_true_iff in S. destruct S as [St Sc].
  apply z_string_nonempty in St, Sc. rewrite St, Sc.
  destruct (req_source req) as [src |] eqn:Es; [| discriminate].
  assert (Hs : js_not (Some src) = false).
  { simpl. destruct (String.eqb_spec src "") as [-> | N]; [| reflexivity].
    discriminate. }
  rewrite Hs. cbn [orb].
  destruct (req_topic req) as [tp |]; [| discriminate].
  destruct (req_content req) as [ct |]; [| discriminate].
  reflexivity.
Qed.

Lemma entry_points_agree_witness :
  api_save 50 two_rows_db good_request
  = saveKnowledgeTool 50 two_rows_db good_request.
Proof. exact (entry_points_agree 50 two_rows_db good_request eq_refl). Defined.

(** ** A saved entry that is immune survives the sweeps *)

(** X23. With ids a primary key, the entry left by a save that carries the
    tag "protected" or resolves to the core type is still in the table
    after a sweep at any later time, dry or not. *)
Theorem immune_save_survives :
  forall now later db a dryRun,
    db_wf db ->
    In "protected" (a_tags a) \/ resolvedType a = core ->
    let i := fst (saveKnowledge now db a) in
    let db1 := snd (saveKnowledge now db a) in
    exists r, In r (rows db1) /\ id r = i
              /\ In r (rows (snd (pruneStaleEntries later db1 dryRun))).
Proof.
  intros now later db a dryRun Hwf Himm i db1.
  destruct (saveKnowledge_lookup now db a Hwf)
    as (r & Hsel & _ & _ & _ & Htags & _ & _ & Htype & _).
  fold i in Hsel. fold db1 in Hsel.
  assert (Hr : In r (rows db1) /\ id r = i).
  { apply In_select_by_id. rewrite Hsel. now left. }
  destruct Hr as [Hin Hid].
  exists r. split; [assumption |]. split; [assumption |].
  destruct dryRun; [exact Hin |].
  apply In_pruned_rows. split; [assumption |].
  rewrite in_map_iff. intros (c & Hc & Hd). apply In_prune_deleted in Hd.
  destruct Hd as (r0 & (Hin0 & Hm & Hp) & -> & _). simpl in Hc.
  assert (Hwf1 : db_wf db1) by (now apply saveKnowledge_wf).
  rewrite (wf_same_id db1 r0 r Hwf1 Hin0 Hin Hc) in Hm, Hp.
  rewrite Htags in Hp. rewrite Htype in Hm. tauto.
Qed.

Lemma immune_save_survives_witness :
  db_wf two_rows_db
  /\ exists r, In r (rows (snd (saveKnowledge 50 two_rows_db stripe_save)))
               /\ id r = fst (saveKnowledge 50 two_rows_db stripe_save)
               /\ In r (rows (snd (pruneStaleEntries 999
                                     (snd (saveKnowledge 50 two_rows_db stripe_save))
                                     false))).
Proof.
  split; [exact two_rows_db_wf |].
  exact (immune_save_survives 50 999 two_rows_db stripe_save false
           two_rows_db_wf (or_intror eq_refl)).
Defined.
